(** * NYC Ops Center: credential resolution, JWT signing, session reuse,
      bounded query retry and the natural-language gateway.

    Shallow embedding of [lib/snowflake.ts] (the connection layer) and of
    [app/api/analyst/route.ts] (the natural-language gateway).  JavaScript strings are
    embedded as Rocq [string]s (byte strings; [toUpperCase] acts on the ASCII
    letters), [process.env] and the file system as finite maps, module-level
    variables as an explicit process state, and the outside world (the
    warehouse driver, [fetch], the crypto library, the clock) as explicit
    inputs of the functions that consult it. *)

From Stdlib Require Import ZArith Ascii String List Lia DecimalString.
From stdpp Require Import base option gmap strings list.
From Equations Require Import Equations.

Local Open Scope Z_scope.

(** ** JavaScript string primitives *)

Definition chr_nl : ascii := "010"%char.
Definition chr_bs : ascii := "\"%char.
Definition chr_dq : ascii := "034"%char.
Definition chr_sq : ascii := "'"%char.
Definition chr_dot : ascii := "."%char.

(** Truthiness of a string value: every string but the empty one. *)
Definition str_truthy (s : string) : bool :=
  match s with EmptyString => false | String _ _ => true end.

(** Truthiness of [string | undefined | null]. *)
Definition truthy (v : option string) : bool :=
  match v with Some s => str_truthy s | None => false end.

(** [a || d] on an optional string. *)
Definition or_default (v : option string) (d : string) : string :=
  match v with
  | Some s => if str_truthy s then s else d
  | None => d
  end.

(** [s.startsWith(p)] *)
Fixpoint starts_with (p s : string) : bool :=
  match p, s with
  | EmptyString, _ => true
  | String a p', String b s' => if decide (a = b) then starts_with p' s' else false
  | String _ _, EmptyString => false
  end.

(** [s.includes(p)] *)
Fixpoint includes (p s : string) : bool :=
  starts_with p s ||
  match s with
  | EmptyString => false
  | String _ s' => includes p s'
  end.

(** Drop the first [n] characters. *)
Fixpoint drop_chars (n : nat) (s : string) : string :=
  match n, s with
  | O, _ => s
  | S n', String _ s' => drop_chars n' s'
  | S _, EmptyString => EmptyString
  end.

(** [s.replace(p, r)] with a string pattern: only the FIRST occurrence of [p]
    is replaced, wherever it stands. *)
Fixpoint replace_first (p r s : string) : string :=
  if starts_with p s then r +:+ drop_chars (String.length p) s
  else match s with
       | EmptyString => EmptyString
       | String c s' => String c (replace_first p r s')
       end.

(** [s.split(".")[0]]: the segment before the first separator. *)
Fixpoint first_segment (sep : ascii) (s : string) : string :=
  match s with
  | EmptyString => EmptyString
  | String c s' => if decide (c = sep) then EmptyString else String c (first_segment sep s')
  end.

Definition upper_char (c : ascii) : ascii :=
  let n := nat_of_ascii c in
  if ((97 <=? n) && (n <=? 122))%nat then ascii_of_nat (n - 32) else c.

(** [s.toUpperCase()] on ASCII text. *)
Fixpoint toUpperCase (s : string) : string :=
  match s with
  | EmptyString => EmptyString
  | String c s' => String (upper_char c) (toUpperCase s')
  end.

(** [s.replace(/\\n/g, "\n")]: every backslash immediately followed by the
    letter n becomes one newline character (leftmost, non-overlapping). *)
Fixpoint unescape_newlines (s : string) : string :=
  match s with
  | EmptyString => EmptyString
  | String c s' =>
      match s' with
      | String d s'' =>
          if decide (c = chr_bs /\ d = "n"%char)
          then String chr_nl (unescape_newlines s'')
          else String c (unescape_newlines s')
      | EmptyString => String c EmptyString
      end
  end.

(** [s.replace(/'/g, "''")]: every single quote is doubled. *)
Fixpoint double_quotes (s : string) : string :=
  match s with
  | EmptyString => EmptyString
  | String c s' =>
      if decide (c = chr_sq) then String chr_sq (String chr_sq (double_quotes s'))
      else String c (double_quotes s')
  end.

(** Decimal rendering of an integer, as template literals and
    [JSON.stringify] print it. *)
Definition show_Z (z : Z) : string := NilZero.string_of_int (Z.to_int z).

(** ** Environment and file system *)

(** What [fs] knows about a path that exists. *)
Inductive FileEntry :=
| Readable (content : string)
| Unreadable.

(** The world a call reads: [process.env] and the file system. *)
Record World := mkWorld {
  env : gmap string string;
  files : gmap string FileEntry
}.

(** [fs.existsSync(p)] followed by [fs.readFileSync(p, "utf8")] inside a
    [try]: [None] when the file is absent or when reading throws. *)
Definition read_if_exists (w : World) (path : string) : option string :=
  match files w !! path with
  | Some (Readable c) => Some c
  | Some Unreadable => None
  | None => None
  end.

Definition tokenPath : string := "/snowflake/session/token".

Definition getOAuthToken (w : World) : option string :=
  read_if_exists w tokenPath.

Definition getPrivateKey (w : World) : option string :=
  let keyPath := env w !! "SNOWFLAKE_PRIVATE_KEY_PATH" in
  let keyContent := env w !! "SNOWFLAKE_PRIVATE_KEY" in
  if truthy keyContent then unescape_newlines <$> keyContent
  else if truthy keyPath then keyPath ≫= read_if_exists w
  else None.

Inductive AuthMethod := oauth | keypair | pat | password | browser.

Global Instance AuthMethod_eq_dec : EqDecision AuthMethod.
Proof. solve_decision. Defined.

Definition detectAuthMethod (w : World) : AuthMethod :=
  if truthy (getOAuthToken w) then oauth
  else if truthy (getPrivateKey w) && truthy (env w !! "SNOWFLAKE_USER") then keypair
  else if truthy (env w !! "SNOWFLAKE_PAT") then pat
  else if truthy (env w !! "SNOWFLAKE_PASSWORD") then password
  else browser.

(** ** Connection options *)

Record ConnectionOptions := mkOptions {
  opt_account : string;
  opt_warehouse : string;
  opt_database : string;
  opt_schema : string;
  opt_host : option string;
  opt_username : option string;
  opt_token : option string;
  opt_privateKey : option string;
  opt_password : option string;
  opt_authenticator : option string
}.

Global Instance ConnectionOptions_eq_dec : EqDecision ConnectionOptions.
Proof. solve_decision. Defined.

(** The [base] object of [getConfig], with no credential field set. *)
Definition baseConfig (w : World) : ConnectionOptions :=
  {| opt_account := or_default (env w !! "SNOWFLAKE_ACCOUNT") "your-account";
     opt_warehouse := or_default (env w !! "SNOWFLAKE_WAREHOUSE") "COMPUTE_WH";
     opt_database := or_default (env w !! "SNOWFLAKE_DATABASE") "DEMO";
     opt_schema := or_default (env w !! "SNOWFLAKE_SCHEMA") "DEMO";
     opt_host := None; opt_username := None; opt_token := None;
     opt_privateKey := None; opt_password := None; opt_authenticator := None |}.

Definition with_credentials (b : ConnectionOptions)
    (host username token privateKey pass authenticator : option string)
    : ConnectionOptions :=
  {| opt_account := opt_account b; opt_warehouse := opt_warehouse b;
     opt_database := opt_database b; opt_schema := opt_schema b;
     opt_host := host; opt_username := username; opt_token := token;
     opt_privateKey := privateKey; opt_password := pass;
     opt_authenticator := authenticator |}.

(** [getConfig] re-runs [detectAuthMethod] and re-reads the credentials. The
    second component tells whether the browser warning was printed. *)
Definition getConfig (w : World) : ConnectionOptions * bool :=
  let base := baseConfig w in
  let user_or_default := Some (or_default (env w !! "SNOWFLAKE_USER") "your-username") in
  match detectAuthMethod w with
  | oauth =>
      (with_credentials base (env w !! "SNOWFLAKE_HOST") None (getOAuthToken w)
         None None (Some "oauth"), false)
  | keypair =>
      (with_credentials base None (env w !! "SNOWFLAKE_USER") None (getPrivateKey w)
         None (Some "SNOWFLAKE_JWT"), false)
  | pat =>
      (with_credentials base None user_or_default (env w !! "SNOWFLAKE_PAT")
         None None (Some "PROGRAMMATIC_ACCESS_TOKEN"), false)
  | password =>
      (with_credentials base None user_or_default None
         None (env w !! "SNOWFLAKE_PASSWORD") None, false)
  | browser =>
      (with_credentials base None user_or_default None
         None None (Some "EXTERNALBROWSER"), true)
  end.

(** ** Session manager *)

(** A value thrown or passed to a callback as an error. *)
Record JsError := mkError {
  err_is_Error : bool;          (* [e instanceof Error] *)
  err_is_DOMException : bool;   (* [e instanceof DOMException] *)
  err_message : option string;  (* [e.message] *)
  err_code : option Z           (* [e.code] *)
}.

Global Instance JsError_eq_dec : EqDecision JsError.
Proof. solve_decision. Defined.

(** [new Error(msg)] *)
Definition newError (msg : string) : JsError :=
  {| err_is_Error := true; err_is_DOMException := false;
     err_message := Some msg; err_code := None |}.

(** A driver connection object: its identity (the rank of the
    [createConnection] call that made it) and the options it was built from. *)
Record Connection := mkConnection {
  conn_id : nat;
  conn_options : ConnectionOptions
}.

Global Instance Connection_eq_dec : EqDecision Connection.
Proof. solve_decision. Defined.

(** The module-level variables of the connection layer, and the number of
    connection objects created so far. *)
Record Process := mkProcess {
  connection : option Connection;
  cachedToken : option string;
  cachedAuthMethod : option AuthMethod;
  created : nat
}.

Definition initialProcess : Process :=
  {| connection := None; cachedToken := None; cachedAuthMethod := None; created := 0 |}.

(** A result row: column name to value. *)
Abbreviation Row := (gmap string string).

(** What the layer prints and asks of the driver, in order.  [EvConnect c]
    stands for the request of a new connection: [snowflake.createConnection]
    is called with the options of [c], as the call of rank [conn_id c], and
    [connectAsync] follows when that call returns. *)
Inductive Event :=
| EvLog (msg : string)
| EvWarn (msg : string)
| EvQueryError (msg : option string)
| EvDestroy (c : Connection)
| EvConnect (c : Connection)
| EvExecute (c : Connection) (sql : string).

Global Instance Event_eq_dec : EqDecision Event.
Proof. solve_decision. Defined.

Definition show_method (m : AuthMethod) : string :=
  match m with
  | oauth => "oauth" | keypair => "keypair" | pat => "pat"
  | password => "password" | browser => "browser"
  end.

Definition browserWarning : string :=
  "WARNING: External browser auth not supported in server context. Use PAT, key-pair, or password.".

(** What the driver does when a new connection is requested:
    [createConnection] returns and [connectAsync] resolves;
    [createConnection] throws, on options it refuses such as a malformed
    private key, and [connectAsync] is never called; or [connectAsync]
    rejects. *)
Inductive ConnectOutcome :=
| Connects
| CreateThrows (e : JsError)
| ConnectRejects (e : JsError).

(** The error a request of a new connection ends with, if any.  Either
    failure leaves [getConnection] at that point, before the module
    variables are assigned. *)
Definition connect_failure (connectOutcome : ConnectOutcome) : option JsError :=
  match connectOutcome with
  | Connects => None
  | CreateThrows e => Some e
  | ConnectRejects e => Some e
  end.

(** [getConnection]. [connectOutcome] is what the driver does if a new
    connection is requested. *)
Definition getConnection (w : World) (connectOutcome : ConnectOutcome) (st : Process)
    : (JsError + Connection) * Process * list Event :=
  let authMethod := detectAuthMethod w in
  let token := if decide (authMethod = oauth) then getOAuthToken w else None in
  match connection st with
  | Some c =>
      if bool_decide (Some authMethod = cachedAuthMethod st)
         && (negb (truthy token) || bool_decide (token = cachedToken st))
      then (inr c, st, [])
      else
        let '(cfg, warned) := getConfig w in
        let conn := {| conn_id := created st; conn_options := cfg |} in
        let evs := [EvLog "Auth method or token changed, reconnecting"; EvDestroy c;
                    EvLog ("Connecting with " +:+ show_method authMethod +:+ " authentication")]
                   ++ (if warned then [EvWarn browserWarning] else [])
                   ++ [EvConnect conn] in
        match connect_failure connectOutcome with
        | Some e =>
            (inl e,
             {| connection := connection st; cachedToken := cachedToken st;
                cachedAuthMethod := cachedAuthMethod st; created := S (created st) |},
             evs)
        | None =>
            (inr conn,
             {| connection := Some conn; cachedToken := token;
                cachedAuthMethod := Some authMethod; created := S (created st) |},
             evs)
        end
  | None =>
      let '(cfg, warned) := getConfig w in
      let conn := {| conn_id := created st; conn_options := cfg |} in
      let evs := [EvLog ("Connecting with " +:+ show_method authMethod +:+ " authentication")]
                 ++ (if warned then [EvWarn browserWarning] else [])
                 ++ [EvConnect conn] in
      match connect_failure connectOutcome with
      | Some e =>
          (inl e,
           {| connection := None; cachedToken := cachedToken st;
              cachedAuthMethod := cachedAuthMethod st; created := S (created st) |},
           evs)
      | None =>
          (inr conn,
           {| connection := Some conn; cachedToken := token;
              cachedAuthMethod := Some authMethod; created := S (created st) |},
           evs)
      end
  end.

(** [e.message?.includes(p)]: [undefined] (falsy) when there is no message. *)
Definition message_includes (p : string) (e : JsError) : bool :=
  match err_message e with
  | Some m => includes p m
  | None => false
  end.

Definition isRetryableError (e : JsError) : bool :=
  message_includes "OAuth access token expired" e
  || message_includes "terminated connection" e
  || bool_decide (err_code e = Some 407002).

(** What the outside world does during one attempt of [query]: the
    environment and files the attempt reads, what the driver does if the
    attempt requests a connection, and what it passes to the [complete] callback
    if the statement is submitted ([rows] may be [undefined]). *)
Record Attempt := mkAttempt {
  at_world : World;
  at_connect : ConnectOutcome;
  at_execute : JsError + option (list Row)
}.

Abbreviation Outcome := ((JsError + list Row) * Process * list Event)%type.

(** The [try] block of [query]: obtain the connection, submit the statement. *)
Definition attempt (sql : string) (a : Attempt) (st : Process) : Outcome :=
  match getConnection (at_world a) (at_connect a) st with
  | (inl e, st', evs) => (inl e, st', evs)
  | (inr conn, st', evs) =>
      match at_execute a with
      | inl e => (inl e, st', evs ++ [EvExecute conn sql])
      | inr rows => (inr (default [] rows), st', evs ++ [EvExecute conn sql])
      end
  end.

(** [connection = null] *)
Definition dropConnection (st : Process) : Process :=
  {| connection := None; cachedToken := cachedToken st;
     cachedAuthMethod := cachedAuthMethod st; created := created st |}.

(** The attempts still to come after the current one. *)
Definition later (o : nat -> Attempt) : nat -> Attempt := fun n => o (S n).

(** [query(sql, retries)]; [o n] is what the world does during the [n]-th
    attempt from now. *)
Equations? query (sql : string) (retries : Z) (o : nat -> Attempt) (st : Process)
    : Outcome by wf (Z.to_nat retries) lt :=
query sql retries o st with attempt sql (o 0%nat) st := {
  | (inr rows, st', evs) => (inr rows, st', evs)
  | (inl err, st', evs) with Z_lt_dec 0 retries := {
      | left Hpos with isRetryableError err := {
          | true =>
              let '(r, st'', evs') := query sql (retries - 1) (later o) (dropConnection st') in
              (r, st'', evs ++ [EvQueryError (err_message err)] ++ evs')
          | false => (inl err, st', evs ++ [EvQueryError (err_message err)]) }
      | right _ => (inl err, st', evs ++ [EvQueryError (err_message err)]) } }.
Proof. lia. Qed.

(** The default value of the [retries] parameter. *)
Definition defaultRetries : Z := 1.

(** ** Base64url and JSON text *)

(** Six bits, most significant first. *)
Definition sextet : Type := bool * bool * bool * bool * bool * bool.

Definition sextet_index (x : sextet) : nat :=
  let '(b5, b4, b3, b2, b1, b0) := x in
  (32 * Nat.b2n b5 + 16 * Nat.b2n b4 + 8 * Nat.b2n b3
   + 4 * Nat.b2n b2 + 2 * Nat.b2n b1 + Nat.b2n b0)%nat.

Definition base64url_alphabet : string :=
  "ABCDEFGHIJKLMNOPQRSTUVWXYZabcdefghijklmnopqrstuvwxyz0123456789-_".

Definition sextet_char (x : sextet) : ascii :=
  default "A"%char (String.get (sextet_index x) base64url_alphabet).

Definition hi6 (a : ascii) : sextet :=
  let '(Ascii _ _ a2 a3 a4 a5 a6 a7) := a in (a7, a6, a5, a4, a3, a2).
Definition lo2_hi4 (a b : ascii) : sextet :=
  let '(Ascii a0 a1 _ _ _ _ _ _) := a in
  let '(Ascii _ _ _ _ b4 b5 b6 b7) := b in (a1, a0, b7, b6, b5, b4).
Definition lo4_hi2 (b c : ascii) : sextet :=
  let '(Ascii b0 b1 b2 b3 _ _ _ _) := b in
  let '(Ascii _ _ _ _ _ _ c6 c7) := c in (b3, b2, b1, b0, c7, c6).
Definition lo6 (c : ascii) : sextet :=
  let '(Ascii c0 c1 c2 c3 c4 c5 _ _) := c in (c5, c4, c3, c2, c1, c0).

(** [Buffer.from(s).toString("base64url")]: three bytes give four characters,
    a last group of one or two bytes gives two or three, and no padding
    character is written. *)
Fixpoint base64url (s : string) : string :=
  match s with
  | EmptyString => EmptyString
  | String a EmptyString =>
      String (sextet_char (hi6 a)) (String (sextet_char (lo2_hi4 a zero)) EmptyString)
  | String a (String b EmptyString) =>
      String (sextet_char (hi6 a)) (String (sextet_char (lo2_hi4 a b))
        (String (sextet_char (lo4_hi2 b zero)) EmptyString))
  | String a (String b (String c rest)) =>
      String (sextet_char (hi6 a)) (String (sextet_char (lo2_hi4 a b))
        (String (sextet_char (lo4_hi2 b c)) (String (sextet_char (lo6 c))
          (base64url rest))))
  end.

(** Position of a character in a string. *)
Fixpoint index_of (c : ascii) (s : string) : option nat :=
  match s with
  | EmptyString => None
  | String d s' => if decide (c = d) then Some 0%nat else S <$> index_of c s'
  end.

Definition sextet_of_index (n : nat) : sextet :=
  (Nat.testbit n 5, Nat.testbit n 4, Nat.testbit n 3,
   Nat.testbit n 2, Nat.testbit n 1, Nat.testbit n 0).

Definition char_sextet (c : ascii) : option sextet :=
  sextet_of_index <$> index_of c base64url_alphabet.

(** The reader of unpadded base64url text, used to state what the encoder
    wrote. *)
Fixpoint base64url_decode (s : string) : option string :=
  match s with
  | EmptyString => Some EmptyString
  | String _ EmptyString => None
  | String p (String q EmptyString) =>
      match char_sextet p, char_sextet q with
      | Some (p5, p4, p3, p2, p1, p0), Some (q5, q4, _, _, _, _) =>
          Some (String (Ascii q4 q5 p0 p1 p2 p3 p4 p5) EmptyString)
      | _, _ => None
      end
  | String p (String q (String r EmptyString)) =>
      match char_sextet p, char_sextet q, char_sextet r with
      | Some (p5, p4, p3, p2, p1, p0), Some (q5, q4, q3, q2, q1, q0),
        Some (r5, r4, r3, r2, _, _) =>
          Some (String (Ascii q4 q5 p0 p1 p2 p3 p4 p5)
                 (String (Ascii r2 r3 r4 r5 q0 q1 q2 q3) EmptyString))
      | _, _, _ => None
      end
  | String p (String q (String r (String t rest))) =>
      match char_sextet p, char_sextet q, char_sextet r, char_sextet t,
            base64url_decode rest with
      | Some (p5, p4, p3, p2, p1, p0), Some (q5, q4, q3, q2, q1, q0),
        Some (r5, r4, r3, r2, r1, r0), Some (t5, t4, t3, t2, t1, t0), Some out =>
          Some (String (Ascii q4 q5 p0 p1 p2 p3 p4 p5)
                 (String (Ascii r2 r3 r4 r5 q0 q1 q2 q3)
                   (String (Ascii t0 t1 t2 t3 t4 t5 r0 r1) out)))
      | _, _, _, _, _ => None
      end
  end.

Definition hex_digit (n : nat) : ascii :=
  default "0"%char (String.get n "0123456789abcdef").

(** How [JSON.stringify] writes one character of a string. *)
Definition json_escape_char (c : ascii) : string :=
  let n := nat_of_ascii c in
  if decide (c = chr_dq) then String chr_bs (String chr_dq EmptyString)
  else if decide (c = chr_bs) then String chr_bs (String chr_bs EmptyString)
  else if (n =? 8)%nat then "\b"
  else if (n =? 9)%nat then "\t"
  else if (n =? 10)%nat then "\n"
  else if (n =? 12)%nat then "\f"
  else if (n =? 13)%nat then "\r"
  else if (n <? 32)%nat then
    "\u00" +:+ String (hex_digit (n / 16)) (String (hex_digit (n mod 16)) EmptyString)
  else String c EmptyString.

Fixpoint json_escape (s : string) : string :=
  match s with
  | EmptyString => EmptyString
  | String c s' => json_escape_char c +:+ json_escape s'
  end.

Definition json_string (s : string) : string :=
  String chr_dq (json_escape s) +:+ String chr_dq EmptyString.

(** The values the signer puts in an object: strings and integers. *)
Inductive JsonValue :=
| JString (s : string)
| JNumber (z : Z).

Definition json_value (v : JsonValue) : string :=
  match v with
  | JString s => json_string s
  | JNumber z => show_Z z
  end.

Definition json_field (f : string * JsonValue) : string :=
  json_string f.1 +:+ ":" +:+ json_value f.2.

Fixpoint json_fields (fs : list (string * JsonValue)) : string :=
  match fs with
  | [] => EmptyString
  | [f] => json_field f
  | f :: rest => json_field f +:+ "," +:+ json_fields rest
  end.

(** [JSON.stringify(obj)] of a flat object, keys in insertion order. *)
Definition json_stringify (fs : list (string * JsonValue)) : string :=
  "{" +:+ json_fields fs +:+ "}".

(** ** JWT signer *)

(** The two services of the crypto library.  [spkiFingerprint key] is the
    base64 SHA-256 digest of the SPKI/DER export of the public key of [key];
    [rsaSha256Sign key text] is the base64url RSA-SHA256 signature of [text]
    under [key].  Either may throw, for instance on a malformed key. *)
Record Crypto := mkCrypto {
  spkiFingerprint : string -> JsError + string;
  rsaSha256Sign : string -> string -> JsError + string
}.

Inductive CryptoCall :=
| CallFingerprint (key : string)
| CallSign (key text : string).

Definition keyUnavailable : JsError :=
  newError "Private key not available for JWT generation".

Definition normalizeAccount (account : string) : string :=
  first_segment chr_dot (replace_first ".GLOBAL" EmptyString (toUpperCase account)).

Definition qualifiedUsername (account user : string) : string :=
  normalizeAccount account +:+ "." +:+ toUpperCase user.

Definition jwtHeader : list (string * JsonValue) :=
  [("alg", JString "RS256"); ("typ", JString "JWT")].

Definition jwtPayload (qualified fp : string) (now : Z) : list (string * JsonValue) :=
  [("iss", JString (qualified +:+ ".SHA256:" +:+ fp));
   ("sub", JString qualified);
   ("iat", JNumber now);
   ("exp", JNumber (now + 3600))].

Definition encode (obj : list (string * JsonValue)) : string :=
  base64url (json_stringify obj).

(** [generateJWT]; [nowMs] is what [Date.now()] returns.  The second
    component lists the calls made to the crypto library, in order. *)
Definition generateJWT (lib : Crypto) (w : World) (nowMs : Z)
    : (JsError + string) * list CryptoCall :=
  let account := or_default (env w !! "SNOWFLAKE_ACCOUNT") EmptyString in
  let user := or_default (env w !! "SNOWFLAKE_USER") EmptyString in
  let privateKey := getPrivateKey w in
  match privateKey with
  | Some key =>
      if str_truthy key then
        let qualified := qualifiedUsername account user in
        match spkiFingerprint lib key with
        | inl e => (inl e, [CallFingerprint key])
        | inr publicKeyFp =>
            let now := nowMs `div` 1000 in
            let headerB64 := encode jwtHeader in
            let payloadB64 := encode (jwtPayload qualified publicKeyFp now) in
            let text := headerB64 +:+ "." +:+ payloadB64 in
            match rsaSha256Sign lib key text with
            | inl e => (inl e, [CallFingerprint key; CallSign key text])
            | inr signature =>
                (inr (headerB64 +:+ "." +:+ payloadB64 +:+ "." +:+ signature),
                 [CallFingerprint key; CallSign key text])
            end
        end
      else (inl keyUnavailable, [])
  | None => (inl keyUnavailable, [])
  end.

(** ** Natural-language gateway *)

Definition AGENT_DATABASE : string := "DEMO".
Definition AGENT_SCHEMA : string := "DEMO".
Definition AGENT_NAME : string := "NYC_OPS_CENTER_AGENT".
Definition TIMEOUT_MS : Z := 180000.

Definition noAuthMethod : JsError :=
  newError "No valid authentication method available for Cortex Agent API".

Definition getAuthToken (lib : Crypto) (w : World) (nowMs : Z)
    : JsError + (string * string) :=
  if truthy (env w !! "SNOWFLAKE_PAT")
  then inr (default EmptyString (env w !! "SNOWFLAKE_PAT"), "PROGRAMMATIC_ACCESS_TOKEN")
  else if truthy (getPrivateKey w) && truthy (env w !! "SNOWFLAKE_USER")
  then match (generateJWT lib w nowMs).1 with
       | inl e => inl e
       | inr token => inr (token, "KEYPAIR_JWT")
       end
  else inl noAuthMethod.

Definition getAccountUrl (w : World) : string :=
  let account := or_default (env w !! "SNOWFLAKE_ACCOUNT") EmptyString in
  if includes ".snowflakecomputing.com" account
  then "https://" +:+ account
  else "https://" +:+ account +:+ ".snowflakecomputing.com".

Definition agentUrl (w : World) : string :=
  getAccountUrl w +:+ "/api/v2/databases/" +:+ AGENT_DATABASE +:+ "/schemas/"
    +:+ AGENT_SCHEMA +:+ "/agents/" +:+ AGENT_NAME +:+ ":run".

Record ResultSet := mkResultSet {
  rs_data : option (list (list string));
  rs_rowType : option (list string)   (* the column names of the metadata *)
}.

Record ToolJson := mkToolJson {
  tj_sql : option string;
  tj_result_set : option ResultSet;
  tj_text : option string
}.

Record ToolResultContent := mkToolResultContent {
  trc_type : string;
  trc_json : option ToolJson
}.

Record ToolResult := mkToolResult {
  tr_name : string;
  tr_content : option (list ToolResultContent)
}.

Record ContentItem := mkContentItem {
  ci_type : string;
  ci_text : option string;
  ci_tool_result : option ToolResult
}.

Record AgentResponse := mkAgentResponse {
  ar_content : option (list ContentItem)
}.

(** What [callCortexAgent] returns. *)
Record AgentAnswer := mkAgentAnswer {
  aa_answer : string;
  aa_sql : option string;
  aa_results : option (list Row);
  aa_toolName : option string
}.

(** [obj[name] = val] on a plain object, for a cell that is text.  The
    name [__proto__] makes no key: the assignment goes to the setter the
    object inherits from [Object.prototype], which does nothing with a value
    that is neither an object nor [null]. *)
Definition set_property (name val : string) (obj : Row) : Row :=
  if decide (name = "__proto__") then obj else <[name := val]> obj.

(** One result row as an object: [obj[columns[idx]] = val]. *)
Fixpoint row_object (columns : list string) (idx : nat) (row : list string) (obj : Row) : Row :=
  match row with
  | [] => obj
  | val :: rest =>
      row_object columns (S idx) rest
        (set_property (default "undefined" (columns !! idx)) val obj)
  end.

Definition absorb_tool_content (acc : AgentAnswer) (content : ToolResultContent) : AgentAnswer :=
  match trc_json content with
  | Some json =>
      if String.eqb (trc_type content) "json" then
        let sql := if truthy (tj_sql json) then tj_sql json else aa_sql acc in
        let results :=
          match tj_result_set json with
          | Some rs =>
              match rs_data rs, rs_rowType rs with
              | Some data, Some columns =>
                  Some ((fun row => row_object columns 0 row ∅) <$> data)
              | _, _ => aa_results acc
              end
          | None => aa_results acc
          end in
        let answer :=
          if truthy (tj_text json) && negb (str_truthy (aa_answer acc))
          then default EmptyString (tj_text json) else aa_answer acc in
        {| aa_answer := answer; aa_sql := sql; aa_results := results;
           aa_toolName := aa_toolName acc |}
      else acc
  | None => acc
  end.

Definition absorb_item (acc : AgentAnswer) (item : ContentItem) : AgentAnswer :=
  let acc1 :=
    if String.eqb (ci_type item) "text" && truthy (ci_text item)
    then {| aa_answer := aa_answer acc +:+ default EmptyString (ci_text item);
            aa_sql := aa_sql acc; aa_results := aa_results acc;
            aa_toolName := aa_toolName acc |}
    else acc in
  match ci_tool_result item with
  | Some tool =>
      if String.eqb (ci_type item) "tool_result" then
        foldl absorb_tool_content
          {| aa_answer := aa_answer acc1; aa_sql := aa_sql acc1;
             aa_results := aa_results acc1; aa_toolName := Some (tr_name tool) |}
          (default [] (tr_content tool))
      else acc1
  | None => acc1
  end.

Definition parseAgentResponse (data : AgentResponse) : AgentAnswer :=
  foldl absorb_item
    {| aa_answer := EmptyString; aa_sql := None; aa_results := None; aa_toolName := None |}
    (default [] (ar_content data)).

(** What [fetch] and the reading of its response do.  A rejection covers
    network failures and the abort raised when the timeout ceiling passes. *)
Inductive FetchOutcome :=
| FetchRejected (e : JsError)
| FetchNotOk (status : Z) (errorText : string)
| FetchBadJson (e : JsError)
| FetchOk (data : AgentResponse).

(** The abort the runtime raises in [fetch] when the controller fires after
    [TIMEOUT_MS]. *)
Definition abortError : JsError :=
  {| err_is_Error := true; err_is_DOMException := true;
     err_message := Some "This operation was aborted"; err_code := None |}.

Definition callCortexAgent (lib : Crypto) (w : World) (nowMs : Z) (question : string)
    (net : FetchOutcome) : JsError + AgentAnswer :=
  match getAuthToken lib w nowMs with
  | inl e => inl e
  | inr _ =>
      match net with
      | FetchRejected e => inl e
      | FetchNotOk status errorText =>
          inl (newError ("Cortex Agent API error: " +:+ show_Z status +:+ " - " +:+ errorText))
      | FetchBadJson e => inl e
      | FetchOk data => inr (parseAgentResponse data)
      end
  end.

Definition nl : string := String chr_nl EmptyString.

Definition fallbackPrompt : string :=
  "You are an NYC Operations assistant. Answer this question concisely: ".

(** The statement text before and after the prompt literal. *)
Definition fallbackBefore : string :=
  nl +:+ "    SELECT SNOWFLAKE.CORTEX.COMPLETE(" +:+ nl +:+
  "      'mistral-large2'," +:+ nl +:+ "      ".
Definition fallbackAfter : string :=
  nl +:+ "    ) as RESPONSE" +:+ nl +:+ "  ".

Definition fallbackSql (question : string) : string :=
  let escapedQuestion := double_quotes question in
  fallbackBefore +:+ "'" +:+ fallbackPrompt +:+ escapedQuestion +:+ "'" +:+ fallbackAfter.

(** What [fallbackToDirectQuery] returns (its [sql] and [results] are
    always [null]). *)
Definition fallbackAnswer (rows : list Row) : string :=
  or_default (head rows ≫= (.!! "RESPONSE")) "Unable to process your question.".

Definition fallbackToDirectQuery (question : string) (o : nat -> Attempt) (st : Process)
    : (JsError + AgentAnswer) * Process * list Event :=
  match query (fallbackSql question) defaultRetries o st with
  | (inl e, st', evs) => (inl e, st', evs)
  | (inr rows, st', evs) =>
      (inr {| aa_answer := fallbackAnswer rows; aa_sql := None;
              aa_results := None; aa_toolName := None |}, st', evs)
  end.

Record AnswerBody := mkAnswerBody {
  ab_answer : string;
  ab_sql : option string;
  ab_results : option (list Row);
  ab_rowCount : Z;
  ab_toolName : option string;
  ab_usedAgent : bool;
  ab_agentName : option string;
  ab_duration : string
}.

Inductive HttpResponse :=
| JsonAnswer (body : AnswerBody)
| JsonError (status : Z) (error : string).

(** [e instanceof Error ? e.message : "Unknown error"] *)
Definition message_of (e : JsError) : string :=
  if err_is_Error e then default EmptyString (err_message e) else "Unknown error".

Definition answerBody (a : AgentAnswer) (usedAgent : bool) (duration : Z) : AnswerBody :=
  {| ab_answer := aa_answer a; ab_sql := aa_sql a; ab_results := aa_results a;
     ab_rowCount := from_option (fun r => Z.of_nat (length r)) 0 (aa_results a);
     ab_toolName := aa_toolName a; ab_usedAgent := usedAgent;
     ab_agentName :=
       if usedAgent
       then Some (AGENT_DATABASE +:+ "." +:+ AGENT_SCHEMA +:+ "." +:+ AGENT_NAME)
       else None;
     ab_duration := show_Z duration +:+ "ms" |}.

(** The outer [catch] of the handler. *)
Definition errorResponse (e : JsError) : HttpResponse :=
  let errorMessage := message_of e in
  if includes "timeout" errorMessage || includes "aborted" errorMessage
  then JsonError 504 "Request timed out. Please try a simpler question."
  else JsonError 500 ("Failed to process question: " +:+ errorMessage).

(** What the handler reads from outside during one request: the parsed body
    ([request.json()] may throw; [question] may be missing), the three clock
    readings, and what [fetch] does. *)
Record Request := mkRequest {
  rq_body : JsError + option string;
  rq_start : Z;
  rq_jwt_now : Z;
  rq_end : Z;
  rq_fetch : FetchOutcome
}.

(** The [POST] handler of the analyst route. *)
Definition POST (lib : Crypto) (w : World) (rq : Request) (o : nat -> Attempt) (st : Process)
    : HttpResponse * Process * list Event :=
  match rq_body rq with
  | inl e => (errorResponse e, st, [])
  | inr body =>
      if negb (truthy body)
      then (JsonError 400 "Question is required", st, [])
      else
        let question := default EmptyString body in
        let duration := rq_end rq - rq_start rq in
        match callCortexAgent lib w (rq_jwt_now rq) question (rq_fetch rq) with
        | inr agentResponse => (JsonAnswer (answerBody agentResponse true duration), st, [])
        | inl agentError =>
            let errorMsg := message_of agentError in
            if includes "aborted" errorMsg || err_is_DOMException agentError
            then (errorResponse (newError "Request timeout"), st, [])
            else
              match fallbackToDirectQuery question o st with
              | (inl e, st', evs) =>
                  (errorResponse e, st', EvLog "Falling back to direct query" :: evs)
              | (inr fallback, st', evs) =>
                  (JsonAnswer (answerBody fallback false duration), st',
                   EvLog "Falling back to direct query" :: evs)
              end
        end
  end.

(** ** Vocabulary of the statements *)

(** [p] occurs in [s]. *)
Definition occurs_in (p s : string) : Prop :=
  exists before after, s = before +:+ p +:+ after.

(** The two characters backslash, n. *)
Definition escaped_newline : string := String chr_bs "n".

(** The text between double quotes. *)
Definition quoted (s : string) : string := String chr_dq s +:+ String chr_dq EmptyString.

(** The methods in priority order, and when each one applies. *)
Definition priority : list AuthMethod := [oauth; keypair; pat; password; browser].

Definition applies (w : World) (m : AuthMethod) : bool :=
  match m with
  | oauth => truthy (getOAuthToken w)
  | keypair => truthy (getPrivateKey w) && truthy (env w !! "SNOWFLAKE_USER")
  | pat => truthy (env w !! "SNOWFLAKE_PAT")
  | password => truthy (env w !! "SNOWFLAKE_PASSWORD")
  | browser => true
  end.

Definition first_applicable (w : World) : AuthMethod :=
  default browser (head (filter (fun m => applies w m = true) priority)).

(** Stripping a [.GLOBAL] suffix, the way the specification words the
    account normalisation: the text is cut where what remains is exactly
    the suffix. *)
Fixpoint strip_suffix (p s : string) : string :=
  if String.eqb s p then EmptyString
  else match s with
       | EmptyString => EmptyString
       | String c s' => String c (strip_suffix p s')
       end.

Definition spec_normalizeAccount (account : string) : string :=
  first_segment chr_dot (strip_suffix ".GLOBAL" (toUpperCase account)).

Definition spec_qualifiedUsername (account user : string) : string :=
  spec_normalizeAccount account +:+ "." +:+ toUpperCase user.

(** What follows the first segment of [s]: empty, or starting at the first
    separator. *)
Fixpoint after_first_segment (sep : ascii) (s : string) : string :=
  match s with
  | EmptyString => EmptyString
  | String c s' => if decide (c = sep) then s else after_first_segment sep s'
  end.

(** The characters that [replace] glues onto the first segment: those that
    stand between a [.GLOBAL] at the first dot and the next dot. *)
Definition glued_after_global (s : string) : string :=
  let rest := after_first_segment chr_dot s in
  if starts_with ".GLOBAL" rest then first_segment chr_dot (drop_chars 7 rest)
  else EmptyString.

(** Tokens of a SQL text under the standard quoting rule: a literal opens
    and closes with a single quote, and two single quotes inside it stand
    for one quote character; there is no other escape. *)
Inductive SqlToken :=
| SqlText (text : string)
| SqlLiteral (value : string).

Definition push_char (c : ascii) (toks : list SqlToken) : list SqlToken :=
  match toks with
  | SqlText t :: rest => SqlText (String c t) :: rest
  | SqlLiteral v :: rest => SqlLiteral (String c v) :: rest
  | [] => []
  end.

Fixpoint push_string (s : string) (toks : list SqlToken) : list SqlToken :=
  match s with
  | EmptyString => toks
  | String c s' => push_char c (push_string s' toks)
  end.

(** [sql_lex in_literal s]: [None] when a literal is left open. *)
Fixpoint sql_lex (in_literal : bool) (s : string) : option (list SqlToken) :=
  match s with
  | EmptyString => if in_literal then None else Some [SqlText EmptyString]
  | String c s' =>
      if in_literal then
        if decide (c = chr_sq) then
          match s' with
          | String d s'' =>
              if decide (d = chr_sq) then push_char chr_sq <$> sql_lex true s''
              else cons (SqlLiteral EmptyString) <$> sql_lex false s'
          | EmptyString => cons (SqlLiteral EmptyString) <$> sql_lex false s'
          end
        else push_char c <$> sql_lex true s'
      else
        if decide (c = chr_sq) then cons (SqlText EmptyString) <$> sql_lex true s'
        else push_char c <$> sql_lex false s'
  end.

(** Tokens of a SQL text as Snowflake reads it.  In a constant between
    single quotes two single quotes stand for one quote character, and a
    backslash starts an escape sequence: the character after it, a quote
    included, does not close the constant.  What a sequence stands for (a
    control character, an octal or a hexadecimal code) is not decoded: the
    token keeps the character that follows the backslash. *)
Inductive SfPiece :=
| SfChar (c : ascii)
| SfEscape (c : ascii).

Inductive SfToken :=
| SfText (text : string)
| SfLiteral (value : list SfPiece).

Definition sf_push (c : ascii) (toks : list SfToken) : list SfToken :=
  match toks with
  | SfText t :: rest => SfText (String c t) :: rest
  | SfLiteral v :: rest => SfLiteral (SfChar c :: v) :: rest
  | [] => []
  end.

Definition sf_escape (c : ascii) (toks : list SfToken) : list SfToken :=
  match toks with
  | SfLiteral v :: rest => SfLiteral (SfEscape c :: v) :: rest
  | _ => toks
  end.

(** [snowflake_lex in_literal s]: [None] when a constant is left open. *)
Fixpoint snowflake_lex (in_literal : bool) (s : string) : option (list SfToken) :=
  match s with
  | EmptyString => if in_literal then None else Some [SfText EmptyString]
  | String c s' =>
      if in_literal then
        if decide (c = chr_bs) then
          match s' with
          | String d s'' => sf_escape d <$> snowflake_lex true s''
          | EmptyString => None
          end
        else if decide (c = chr_sq) then
          match s' with
          | String d s'' =>
              if decide (d = chr_sq) then sf_push chr_sq <$> snowflake_lex true s''
              else cons (SfLiteral []) <$> snowflake_lex false s'
          | EmptyString => cons (SfLiteral []) <$> snowflake_lex false s'
          end
        else sf_push c <$> snowflake_lex true s'
      else
        if decide (c = chr_sq) then cons (SfText EmptyString) <$> snowflake_lex true s'
        else sf_push c <$> snowflake_lex false s'
  end.

(** A token of the standard reading, as a token of this one. *)
Definition sf_of_sql (t : SqlToken) : SfToken :=
  match t with
  | SqlText text => SfText text
  | SqlLiteral value => SfLiteral (SfChar <$> list_ascii_of_string value)
  end.

Definition sf_tokens (toks : list SqlToken) : list SfToken := map sf_of_sql toks.

(** The statements a trace submits, in order. *)
Definition statements (evs : list Event) : list string :=
  omap (fun e => match e with EvExecute _ sql => Some sql | _ => None end) evs.

(** Events of a trace that request a new connection / submit a statement /
    log a failed query. *)
Definition is_connect (e : Event) : bool :=
  match e with EvConnect _ => true | _ => false end.
Definition is_execute (e : Event) : bool :=
  match e with EvExecute _ _ => true | _ => false end.
Definition is_failure (e : Event) : bool :=
  match e with EvQueryError _ => true | _ => false end.

Definition connects (evs : list Event) : nat := length (filter (fun e => is_connect e = true) evs).
Definition executes (evs : list Event) : nat := length (filter (fun e => is_execute e = true) evs).
Definition failures (evs : list Event) : nat := length (filter (fun e => is_failure e = true) evs).

(** The cached method and token describe the options the live connection
    was built from. *)
Definition coherent (st : Process) : Prop :=
  forall c, connection st = Some c ->
    exists m, cachedAuthMethod st = Some m /\
      match m with
      | oauth => opt_token (conn_options c) = cachedToken st /\
                 truthy (cachedToken st) = true /\
                 opt_authenticator (conn_options c) = Some "oauth"
      | keypair => opt_authenticator (conn_options c) = Some "SNOWFLAKE_JWT"
      | pat => opt_authenticator (conn_options c) = Some "PROGRAMMATIC_ACCESS_TOKEN" /\
               truthy (opt_token (conn_options c)) = true
      | password => opt_authenticator (conn_options c) = None
      | browser => opt_authenticator (conn_options c) = Some "EXTERNALBROWSER"
      end.

(** The methods whose connection options carry a token, and the token each
    one currently offers. *)
Definition token_bearing (m : AuthMethod) : bool :=
  match m with oauth | pat => true | _ => false end.

Definition available_token (w : World) (m : AuthMethod) : option string :=
  match m with
  | oauth => getOAuthToken w
  | pat => env w !! "SNOWFLAKE_PAT"
  | _ => None
  end.

(** The session is handed back as it is: same object, state untouched, no
    driver call. *)
Definition reused (w : World) (co : ConnectOutcome) (st : Process) (c : Connection) : Prop :=
  getConnection w co st = (inr c, st, []).

(** ** Sample inputs *)

Definition env_of (l : list (string * string)) : gmap string string := list_to_map l.

Definition world_pat (tok : string) : World :=
  {| env := env_of [("SNOWFLAKE_PAT", tok); ("SNOWFLAKE_USER", "bob")]; files := ∅ |}.

Definition world_oauth (tok : string) : World :=
  {| env := env_of [("SNOWFLAKE_PAT", "abc123"); ("SNOWFLAKE_USER", "bob");
                    ("SNOWFLAKE_PASSWORD", "hunter2")];
     files := {[ tokenPath := Readable tok ]} |}.

Definition world_inline_key : World :=
  {| env := env_of [("SNOWFLAKE_PRIVATE_KEY", "-----BEGIN\nMIIE\n-----END");
                    ("SNOWFLAKE_PRIVATE_KEY_PATH", "/keys/rsa.p8");
                    ("SNOWFLAKE_USER", "Alice");
                    ("SNOWFLAKE_ACCOUNT", "XY12345.US-EAST-1.aws");
                    ("SNOWFLAKE_PAT", "abc123")];
     files := {[ "/keys/rsa.p8" := Readable "file-key" ]} |}.

Definition world_empty : World := {| env := ∅; files := ∅ |}.

(** A crypto library that answers with fixed text. *)
Definition sample_crypto : Crypto :=
  {| spkiFingerprint := fun _ => inr "FP+/=";
     rsaSha256Sign := fun _ _ => inr "c2ln" |}.

Definition ok_attempt (w : World) (rows : list Row) : Attempt :=
  {| at_world := w; at_connect := Connects; at_execute := inr (Some rows) |}.

Definition failing_attempt (w : World) (e : JsError) : Attempt :=
  {| at_world := w; at_connect := Connects; at_execute := inl e |}.

(** The world behaves the same at every attempt. *)
Definition always (a : Attempt) : nat -> Attempt := fun _ => a.

(** A question that ends with a backslash. *)
Definition slashQuestion : string := "Is the FDR open" +:+ String chr_bs EmptyString.

Definition expiredToken : JsError :=
  {| err_is_Error := true; err_is_DOMException := false;
     err_message := Some "OAuth access token expired. [1172527951]";
     err_code := Some 390318 |}.

Definition syntaxError : JsError :=
  {| err_is_Error := true; err_is_DOMException := false;
     err_message := Some "SQL compilation error"; err_code := Some 1003 |}.

(** The session of a process whose environment variables are [E]: the
    state is coherent and a session built under pat carries the PAT of [E].
    [process.env] is read at every call and never assigned by the
    application, so it is the same at every call of one process; the token
    file is not part of it. *)
Definition built_in (E : gmap string string) (st : Process) : Prop :=
  coherent st
  /\ forall c, connection st = Some c -> cachedAuthMethod st = Some pat ->
       opt_token (conn_options c) = E !! "SNOWFLAKE_PAT".

(** Signing fails exactly when no key resolves. *)
Definition key_check_as_stated : Prop :=
  forall lib w nowMs,
    (exists e, (generateJWT lib w nowMs).1 = inl e) <-> truthy (getPrivateKey w) = false.

(** What the crypto library throws on key material it cannot parse. *)
Definition unsupportedKey : JsError :=
  {| err_is_Error := true; err_is_DOMException := false;
     err_message := Some "error:1E08010C:DECODER routines::unsupported";
     err_code := None |}.

(** A crypto library that refuses every key. *)
Definition refusing_crypto : Crypto :=
  {| spkiFingerprint := fun _ => inl unsupportedKey;
     rsaSha256Sign := fun _ _ => inl unsupportedKey |}.

(** The guard of the inner [catch] of the handler: the failure is an abort. *)
Definition is_abort (e : JsError) : bool :=
  includes "aborted" (message_of e) || err_is_DOMException e.

(** The fallback rule with no exception made for the timeout. *)
Definition fallback_as_stated : Prop :=
  forall lib w rq o st question e rows st' evs,
    rq_body rq = inr (Some question) -> question <> EmptyString ->
    callCortexAgent lib w (rq_jwt_now rq) question (rq_fetch rq) = inl e ->
    query (fallbackSql question) defaultRetries o st = (inr rows, st', evs) ->
    exists body,
      POST lib w rq o st
      = (JsonAnswer body, st', EvLog "Falling back to direct query" :: evs)
      /\ ab_sql body = None /\ ab_results body = None.

Definition sample_request (net : FetchOutcome) : Request :=
  {| rq_body := inr (Some "How's traffic?"); rq_start := 1000; rq_jwt_now := 1001;
     rq_end := 1250; rq_fetch := net |}.

Definition answer_row (text : string) : Row := {[ "RESPONSE" := text ]}.

(** The process after a first query that succeeded under the OAuth token
    tok1. *)
Definition after_oauth_query : Process :=
  (query "SELECT 1" defaultRetries (always (ok_attempt (world_oauth "tok1") []))
     initialProcess).1.2.

(** ** Cortex Analyst query *)

(** What [JSON.parse] finds in the reply of the analyst function. *)
Record AnalystReply := mkAnalystReply {
  reply_sql : option string;
  reply_explanation : option string;
  reply_message : option string
}.

Record AnalystResult := mkAnalystResult {
  an_sql : string;
  an_results : list Row;
  an_explanation : string
}.

(** The services of the JavaScript engine the function relies on:
    [JSON.parse], and the [TypeError] raised by [rows[0]] when the driver
    hands over no row array. *)
Record Engine := mkEngine {
  json_parse : string -> JsError + AnalystReply;
  undefined_rows : JsError
}.

Definition analystSql (semanticView question : string) : string :=
  "SELECT SNOWFLAKE.CORTEX.ANALYST(" +:+ nl +:+
  "        '" +:+ semanticView +:+ "'," +:+ nl +:+
  "        '" +:+ double_quotes question +:+ "'" +:+ nl +:+
  "      ) as response".

(** [cortexAnalystQuery]; [o 0] is what the world does while the analyst
    statement is submitted, [later o] what it does during the [query] of the
    generated statement.  [JSON.parse(undefined)] reads the text
    [undefined]. *)
Definition cortexAnalystQuery (eng : Engine) (question semanticView : string)
    (o : nat -> Attempt) (st : Process)
    : (JsError + AnalystResult) * Process * list Event :=
  let a := o 0%nat in
  match getConnection (at_world a) (at_connect a) st with
  | (inl e, st', evs) => (inl e, st', evs)
  | (inr conn, st', evs) =>
      let evs1 := evs ++ [EvExecute conn (analystSql semanticView question)] in
      match at_execute a with
      | inl err => (inl err, st', evs1)
      | inr None => (inl (undefined_rows eng), st', evs1)
      | inr (Some rows) =>
          let response := head rows ≫= (.!! "RESPONSE") in
          match json_parse eng (default "undefined" response) with
          | inl parseErr => (inl parseErr, st', evs1)
          | inr parsed =>
              if truthy (reply_sql parsed) then
                match query (default EmptyString (reply_sql parsed)) defaultRetries
                        (later o) st' with
                | (inl e, st'', evs') => (inl e, st'', evs1 ++ evs')
                | (inr results, st'', evs') =>
                    (inr {| an_sql := default EmptyString (reply_sql parsed);
                            an_results := results;
                            an_explanation :=
                              or_default (reply_explanation parsed) EmptyString |},
                     st'', evs1 ++ evs')
                end
              else
                (inr {| an_sql := EmptyString; an_results := [];
                        an_explanation :=
                          or_default (reply_message parsed) "No SQL generated" |},
                 st', evs1)
          end
      end
  end.

(** The credential fields of connection options that are set. *)
Definition carries_token (cfg : ConnectionOptions) : bool := bool_decide (opt_token cfg <> None).
Definition carries_key (cfg : ConnectionOptions) : bool := bool_decide (opt_privateKey cfg <> None).
Definition carries_password (cfg : ConnectionOptions) : bool := bool_decide (opt_password cfg <> None).

(** The authenticator each method asks the driver for. *)
Definition authenticator_of (m : AuthMethod) : option string :=
  match m with
  | oauth => Some "oauth"
  | keypair => Some "SNOWFLAKE_JWT"
  | pat => Some "PROGRAMMATIC_ACCESS_TOKEN"
  | password => None
  | browser => Some "EXTERNALBROWSER"
  end.

Definition sample_engine : Engine :=
  {| json_parse := fun s =>
       if String.eqb s "no-sql"
       then inr {| reply_sql := None; reply_explanation := None; reply_message := None |}
       else inl (newError "Unexpected token");
     undefined_rows := newError "Cannot read properties of undefined" |}.

(** What the driver throws on options it refuses. *)
Definition refusedOptions : JsError :=
  newError "A valid account must be specified.".

Definition terminated : JsError :=
  {| err_is_Error := true; err_is_DOMException := false;
     err_message := Some "terminated connection"; err_code := None |}.

(** The first attempt fails with [e], the next ones give [rows]. *)
Definition fail_then_ok (w : World) (e : JsError) (rows : list Row) : nat -> Attempt :=
  fun n => match n with
           | O => failing_attempt w e
           | S _ => ok_attempt w rows
           end.

(** The texts of the items of a reply, in order. *)
Definition item_texts (items : list ContentItem) : string :=
  foldr (fun item rest => default EmptyString (ci_text item) +:+ rest) EmptyString items.

Definition text_item (t : string) : ContentItem :=
  {| ci_type := "text"; ci_text := Some t; ci_tool_result := None |}.

Definition world_password : World :=
  {| env := env_of [("SNOWFLAKE_PASSWORD", "hunter2"); ("SNOWFLAKE_USER", "bob");
                    ("SNOWFLAKE_ACCOUNT", "xy12345.us-east-1")];
     files := ∅ |}.

(** ** Data routes *)

(** What distinguishes one data route from another: its statement, its
    [Cache-Control] header and the message of its error response. *)
Record RouteSpec := mkRoute {
  rt_sql : string;
  rt_cache : string;
  rt_failure : string
}.

Inductive DataResponse :=
| DataRows (rows : list Row) (cacheControl : string)
| DataError (status : Z) (error : string).

(** The [GET] handler of a data route (what it prints on the console is
    left out). *)
Definition dataGET (r : RouteSpec) (o : nat -> Attempt) (st : Process)
    : DataResponse * Process * list Event :=
  match query (rt_sql r) defaultRetries o st with
  | (inr results, st', evs) => (DataRows results (rt_cache r), st', evs)
  | (inl _, st', evs) => (DataError 500 (rt_failure r), st', evs)
  end.

Definition airQualityRoute : RouteSpec :=
  {| rt_sql :=
    nl +:+
    "      SELECT " +:+ nl +:+
    "        POLLUTANT," +:+ nl +:+
    "        CATEGORY," +:+ nl +:+
    "        AQI," +:+ nl +:+
    "        REPORTING_AREA," +:+ nl +:+
    "        DATE_OBSERVED," +:+ nl +:+
    "        HOUR_OBSERVED," +:+ nl +:+
    "        LATITUDE," +:+ nl +:+
    "        LONGITUDE" +:+ nl +:+
    "      FROM DEMO.DEMO.NYC_AIR_QUALITY_SEMANTIC_VIEW" +:+ nl +:+
    "      ORDER BY DATE_OBSERVED DESC, HOUR_OBSERVED DESC" +:+ nl +:+
    "      LIMIT 500" +:+ nl +:+
    "    ";
     rt_cache := "public, s-maxage=60, stale-while-revalidate=120";
     rt_failure := "Failed to fetch air quality data" |}.

Definition thermalRoute : RouteSpec :=
  {| rt_sql :=
    nl +:+
    "      SELECT " +:+ nl +:+
    "        DEVICE_UUID," +:+ nl +:+
    "        DEVICE_HOSTNAME," +:+ nl +:+
    "        DEVICE_IP," +:+ nl +:+
    "        TEMPERATURE_CELSIUS," +:+ nl +:+
    "        HUMIDITY_PCT," +:+ nl +:+
    "        CO2_LEVEL," +:+ nl +:+
    "        VOC_LEVEL," +:+ nl +:+
    "        PRESSURE_PASCALS," +:+ nl +:+
    "        CPU_TEMP_F," +:+ nl +:+
    "        CPU_USAGE," +:+ nl +:+
    "        MEMORY_USAGE," +:+ nl +:+
    "        READING_TIMESTAMP" +:+ nl +:+
    "      FROM DEMO.DEMO.THERMAL_SENSOR_SEMANTIC_VIEW" +:+ nl +:+
    "      ORDER BY READING_TIMESTAMP DESC" +:+ nl +:+
    "      LIMIT 500" +:+ nl +:+
    "    ";
     rt_cache := "public, s-maxage=30, stale-while-revalidate=60";
     rt_failure := "Failed to fetch thermal data" |}.

Definition camerasRoute : RouteSpec :=
  {| rt_sql :=
    nl +:+
    "      SELECT " +:+ nl +:+
    "        CAMERA_ID," +:+ nl +:+
    "        CAMERA_NAME," +:+ nl +:+
    "        ROADWAY," +:+ nl +:+
    "        DIRECTION," +:+ nl +:+
    "        LATITUDE," +:+ nl +:+
    "        LONGITUDE," +:+ nl +:+
    "        IMAGE_LINK," +:+ nl +:+
    "        VIDEO_LINK," +:+ nl +:+
    "        IS_DISABLED," +:+ nl +:+
    "        IS_BLOCKED," +:+ nl +:+
    "        CAPTURED_AT" +:+ nl +:+
    "      FROM DEMO.DEMO.NYC_CAMERA_SEMANTIC_VIEW" +:+ nl +:+
    "      WHERE LATITUDE IS NOT NULL AND LONGITUDE IS NOT NULL" +:+ nl +:+
    "      ORDER BY CAPTURED_AT DESC" +:+ nl +:+
    "      LIMIT 500" +:+ nl +:+
    "    ";
     rt_cache := "public, s-maxage=30, stale-while-revalidate=60";
     rt_failure := "Failed to fetch camera data" |}.

Definition weatherRoute : RouteSpec :=
  {| rt_sql :=
    nl +:+
    "      SELECT " +:+ nl +:+
    "        STATION_ID," +:+ nl +:+
    "        STATION_LOCATION," +:+ nl +:+
    "        CONDITIONS," +:+ nl +:+
    "        TEMP_F," +:+ nl +:+
    "        TEMP_C," +:+ nl +:+
    "        RELATIVE_HUMIDITY," +:+ nl +:+
    "        WIND_MPH," +:+ nl +:+
    "        WIND_DIRECTION," +:+ nl +:+
    "        VISIBILITY_MI," +:+ nl +:+
    "        PRESSURE_IN," +:+ nl +:+
    "        DEWPOINT_F," +:+ nl +:+
    "        LATITUDE," +:+ nl +:+
    "        LONGITUDE," +:+ nl +:+
    "        LAST_UPDATED" +:+ nl +:+
    "      FROM DEMO.DEMO.NYC_WEATHER_SEMANTIC_VIEW" +:+ nl +:+
    "      WHERE LATITUDE IS NOT NULL AND LONGITUDE IS NOT NULL" +:+ nl +:+
    "      ORDER BY LAST_UPDATED DESC" +:+ nl +:+
    "      LIMIT 100" +:+ nl +:+
    "    ";
     rt_cache := "public, s-maxage=60, stale-while-revalidate=120";
     rt_failure := "Failed to fetch weather data" |}.

Definition trafficRoute : RouteSpec :=
  {| rt_sql :=
    nl +:+
    "      SELECT " +:+ nl +:+
    "        EVENT_ID," +:+ nl +:+
    "        EVENT_TYPE," +:+ nl +:+
    "        EVENT_SUBTYPE," +:+ nl +:+
    "        SEVERITY," +:+ nl +:+
    "        ROADWAY," +:+ nl +:+
    "        DIRECTION," +:+ nl +:+
    "        AREA," +:+ nl +:+
    "        DETAILS," +:+ nl +:+
    "        LATITUDE," +:+ nl +:+
    "        LONGITUDE," +:+ nl +:+
    "        EVENT_TIME," +:+ nl +:+
    "        START_DATE," +:+ nl +:+
    "        PLANNED_END" +:+ nl +:+
    "      FROM DEMO.DEMO.NYC_TRAFFIC_EVENTS_SEMANTIC_VIEW" +:+ nl +:+
    "      WHERE LATITUDE IS NOT NULL AND LONGITUDE IS NOT NULL" +:+ nl +:+
    "      ORDER BY EVENT_TIME DESC" +:+ nl +:+
    "      LIMIT 500" +:+ nl +:+
    "    ";
     rt_cache := "public, s-maxage=30, stale-while-revalidate=60";
     rt_failure := "Failed to fetch traffic data" |}.

Definition mtaRoute : RouteSpec :=
  {| rt_sql :=
    nl +:+
    "      SELECT " +:+ nl +:+
    "        VEHICLEREF," +:+ nl +:+
    "        PUBLISHEDLINENAME," +:+ nl +:+
    "        DESTINATIONNAME," +:+ nl +:+
    "        STOPPOINTNAME," +:+ nl +:+
    "        VEHICLELOCATIONLATITUDE," +:+ nl +:+
    "        VEHICLELOCATIONLONGITUDE," +:+ nl +:+
    "        BEARING," +:+ nl +:+
    "        PROGRESSSTATUS," +:+ nl +:+
    "        NUMBEROFSTOPSAWAY," +:+ nl +:+
    "        DISTANCEFROMSTOP," +:+ nl +:+
    "        EXPECTEDARRIVALTIME," +:+ nl +:+
    "        RECORDEDATTIME" +:+ nl +:+
    "      FROM DEMO.DEMO.SVMTA" +:+ nl +:+
    "      WHERE VEHICLELOCATIONLATITUDE IS NOT NULL " +:+ nl +:+
    "        AND VEHICLELOCATIONLONGITUDE IS NOT NULL" +:+ nl +:+
    "      ORDER BY RECORDEDATTIME DESC" +:+ nl +:+
    "      LIMIT 500" +:+ nl +:+
    "    ";
     rt_cache := "public, s-maxage=15, stale-while-revalidate=30";
     rt_failure := "Failed to fetch MTA data" |}.

Definition dataRoutes : list RouteSpec :=
  [airQualityRoute; thermalRoute; camerasRoute; weatherRoute; trafficRoute; mtaRoute].

(** ** Export route *)

(** A data row as the export sees it: the entries of the object in key
    order, each value as [String(value)] renders it, or [None] for [null]
    and [undefined]. *)
Abbreviation ExportRow := (list (string * option string)).

(** [row[header]]: the value of the row's own entry, or else what the
    object inherits under that name; [proto] gives the rendering of the
    members of [Object.prototype], [None] for a name it does not have. *)
Fixpoint row_get (proto : string -> option string) (row : ExportRow) (header : string)
    : option string :=
  match row with
  | [] => proto header
  | (k, v) :: rest => if String.eqb k header then v else row_get proto rest header
  end.

(** The global replacement of the export: every double quote is doubled. *)
Fixpoint double_dquotes (s : string) : string :=
  match s with
  | EmptyString => EmptyString
  | String c s' =>
      if decide (c = chr_dq) then String chr_dq (String chr_dq (double_dquotes s'))
      else String c (double_dquotes s')
  end.

Definition dq : string := String chr_dq EmptyString.

Definition csv_cell (value : option string) : string :=
  match value with
  | None => EmptyString
  | Some stringValue =>
      if includes "," stringValue || includes dq stringValue || includes nl stringValue
      then dq +:+ double_dquotes stringValue +:+ dq
      else stringValue
  end.

(** [l.join(sep)] *)
Fixpoint join (sep : string) (l : list string) : string :=
  match l with
  | [] => EmptyString
  | [x] => x
  | x :: rest => x +:+ sep +:+ join sep rest
  end.

Definition csv_line (proto : string -> option string) (headers : list string)
    (row : ExportRow) : string :=
  join "," ((fun header => csv_cell (row_get proto row header)) <$> headers).

(** The CSV text of a non-empty data array: the keys of its first row, then
    one line per row. *)
Definition csv_text (proto : string -> option string) (first : ExportRow)
    (data : list ExportRow) : string :=
  let headers := fst <$> first in
  join nl (join "," headers :: (csv_line proto headers <$> data)).

Record ExportPayload := mkExportPayload {
  ep_data : option (list ExportRow);   (* [None]: missing, falsy or not an array *)
  ep_filename : option string;
  ep_format : option string
}.

Inductive ExportResponse :=
| ExportFile (body contentType contentDisposition : string)
| ExportError (status : Z) (error : string).

Definition attachment (filename : option string) (extension : string) : string :=
  "attachment; filename=" +:+ dq +:+ or_default filename "export" +:+ extension +:+ dq.

(** The [POST] handler of the export route.  [stringify] is
    [JSON.stringify(data, null, 2)]; the body of the request is what
    [request.json()] gave, or the error it threw. *)
Definition exportPOST (proto : string -> option string)
    (stringify : list ExportRow -> string)
    (body : JsError + ExportPayload) : ExportResponse :=
  match body with
  | inl _ => ExportError 500 "Failed to export data"
  | inr payload =>
      match ep_data payload with
      | None => ExportError 400 "Data array is required"
      | Some data =>
          if bool_decide (ep_format payload = Some "csv") then
            match data with
            | [] => ExportFile EmptyString "text/csv" (attachment (ep_filename payload) ".csv")
            | first :: _ =>
                ExportFile (csv_text proto first data) "text/csv"
                  (attachment (ep_filename payload) ".csv")
            end
          else
            ExportFile (stringify data) "application/json"
              (attachment (ep_filename payload) ".json")
      end
  end.

(** A reader of CSV text, to state what the export writes: cells are
    separated by commas and records by newlines; a cell that opens with a
    double quote runs to the closing one, two double quotes inside it
    standing for one. *)
Inductive CsvMode := CsvStart | CsvPlain | CsvQuoted | CsvAfterQuote.

Definition new_cell (t : list (list string)) : list (list string) :=
  match t with
  | record :: rest => (EmptyString :: record) :: rest
  | [] => []
  end.

Definition new_record (t : list (list string)) : list (list string) :=
  [EmptyString] :: t.

Definition push_cell_char (c : ascii) (t : list (list string)) : list (list string) :=
  match t with
  | (cell :: cells) :: rest => (String c cell :: cells) :: rest
  | _ => t
  end.

Fixpoint push_cell (s : string) (t : list (list string)) : list (list string) :=
  match s with
  | EmptyString => t
  | String c s' => push_cell_char c (push_cell s' t)
  end.

Fixpoint csv_read (m : CsvMode) (s : string) : option (list (list string)) :=
  match s with
  | EmptyString =>
      match m with
      | CsvQuoted => None
      | _ => Some [[EmptyString]]
      end
  | String c s' =>
      match m with
      | CsvQuoted =>
          if decide (c = chr_dq) then
            match s' with
            | String d s'' =>
                if decide (d = chr_dq) then push_cell_char chr_dq <$> csv_read CsvQuoted s''
                else csv_read CsvAfterQuote s'
            | EmptyString => Some [[EmptyString]]
            end
          else push_cell_char c <$> csv_read CsvQuoted s'
      | CsvAfterQuote =>
          if decide (c = ","%char) then new_cell <$> csv_read CsvStart s'
          else if decide (c = chr_nl) then new_record <$> csv_read CsvStart s'
          else None
      | CsvStart =>
          if decide (c = chr_dq) then csv_read CsvQuoted s'
          else if decide (c = ","%char) then new_cell <$> csv_read CsvStart s'
          else if decide (c = chr_nl) then new_record <$> csv_read CsvStart s'
          else push_cell_char c <$> csv_read CsvPlain s'
      | CsvPlain =>
          if decide (c = ","%char) then new_cell <$> csv_read CsvStart s'
          else if decide (c = chr_nl) then new_record <$> csv_read CsvStart s'
          else push_cell_char c <$> csv_read CsvPlain s'
      end
  end.

(** A header the export can write as it is. *)
Definition plain_text (s : string) : bool :=
  negb (includes "," s || includes dq s || includes nl s).

(** The entries of a row whose key is one of the headers. *)
Definition restrict (headers : list string) (row : ExportRow) : ExportRow :=
  filter (fun entry => entry.1 ∈ headers) row.

(** What a plain object inherits under the name [constructor], and nothing
    under the other names the samples use. *)
Definition sample_proto (name : string) : option string :=
  if String.eqb name "constructor" then Some "function Object() { [native code] }" else None.

Definition sample_rows : list ExportRow :=
  [[("ROADWAY", Some "FDR Drive"); ("DETAILS", Some ("closed, use " +:+ dq +:+ "alt" +:+ dq +:+ " route"))];
   [("DETAILS", None); ("EXTRA", Some "dropped")]].

(** Where a cell may end: at the end of the text, at a comma or at a
    newline. *)
Definition cell_end (rest : string) : Prop :=
  match rest with
  | EmptyString => True
  | String c _ => c = ","%char \/ c = chr_nl
  end.

(** Reading the cells of one line onto what follows the line. *)
Fixpoint with_cells (cells : list string) (t : list (list string)) : list (list string) :=
  match cells with
  | [] => t
  | [c] => push_cell c t
  | c :: rest => push_cell c (new_cell (with_cells rest t))
  end.

(** ** Authentication test script *)

Module TestAuth.

(** Why the promise of [runTests] rejects: [readFileSync] threw on the key
    file, or [createConnection] threw on the options handed to it. *)
Inductive ScriptError :=
| ReadFailed (path : string)
| CreateFailed (e : JsError).

(** [getPrivateKey] of the script: the read is not inside a [try]. *)
Definition getPrivateKey (w : World) : ScriptError + option string :=
  let keyPath := env w !! "SNOWFLAKE_PRIVATE_KEY_PATH" in
  let keyContent := env w !! "SNOWFLAKE_PRIVATE_KEY" in
  if truthy keyContent then inr (unescape_newlines <$> keyContent)
  else
    match keyPath with
    | Some p =>
        if str_truthy p then
          match files w !! p with
          | Some (Readable c) => inr (Some c)
          | Some Unreadable => inl (ReadFailed p)
          | None => inr None
          end
        else inr None
    | None => inr None
    end.

(** [detectAuthMethod] of the script; its [getOAuthToken] is the one of the
    session manager. *)
Definition detectAuthMethod (w : World) : ScriptError + AuthMethod :=
  if truthy (getOAuthToken w) then inr oauth
  else
    match getPrivateKey w with
    | inl e => inl e
    | inr key =>
        if truthy key && truthy (env w !! "SNOWFLAKE_USER") then inr keypair
        else if truthy (env w !! "SNOWFLAKE_PAT") then inr pat
        else if truthy (env w !! "SNOWFLAKE_PASSWORD") then inr password
        else inr browser
    end.

(** What the driver does with one connection the script makes:
    [createConnection] may throw, [connect] may pass an error to its
    callback, and so may [execute], which otherwise passes the rows
    ([undefined] at times). *)
Record Probe := mkProbe {
  pr_create : option JsError;
  pr_connect : option JsError;
  pr_execute : JsError + option (list Row)
}.

(** The calls made on the driver's connections. *)
Inductive ScriptEvent :=
| ScConnect (config : ConnectionOptions)
| ScExecute (config : ConnectionOptions) (sql : string)
| ScDestroy (config : ConnectionOptions).

Record ConnectionResult := mkConnectionResult {
  cr_success : bool;
  cr_user : option string;
  cr_role : option string;
  cr_warehouse : option string;
  cr_error : option string
}.

Definition testSql : string :=
  "SELECT CURRENT_USER() as user, CURRENT_ROLE() as role, CURRENT_WAREHOUSE() as warehouse".

(** [a || b] on optional strings. *)
Definition or_else (a b : option string) : option string :=
  if truthy a then a else b.

(** [testConnection]: [inl] when the executor of the promise throws, which
    rejects the promise. *)
Definition testConnection (config : ConnectionOptions) (p : Probe)
    : (JsError + ConnectionResult) * list ScriptEvent :=
  match pr_create p with
  | Some e => (inl e, [])
  | None =>
      match pr_connect p with
      | Some err =>
          (inr {| cr_success := false; cr_user := None; cr_role := None;
                  cr_warehouse := None; cr_error := err_message err |},
           [ScConnect config])
      | None =>
          match pr_execute p with
          | inl err2 =>
              (inr {| cr_success := false; cr_user := None; cr_role := None;
                      cr_warehouse := None; cr_error := err_message err2 |},
               [ScConnect config; ScExecute config testSql; ScDestroy config])
          | inr rows =>
              let row := rows ≫= head in
              (inr {| cr_success := true;
                      cr_user := or_else (row ≫= (.!! "USER")) (row ≫= (.!! "user"));
                      cr_role := or_else (row ≫= (.!! "ROLE")) (row ≫= (.!! "role"));
                      cr_warehouse :=
                        or_else (row ≫= (.!! "WAREHOUSE")) (row ≫= (.!! "warehouse"));
                      cr_error := None |},
               [ScConnect config; ScExecute config testSql; ScDestroy config])
          end
      end
  end.

Inductive Status := success | failed | skipped.

Global Instance Status_eq_dec : EqDecision Status.
Proof. solve_decision. Defined.

Record TestResult := mkTestResult {
  tr_method : AuthMethod;
  tr_status : Status;
  tr_message : string;
  tr_details : option (option string * option string)   (* role, warehouse *)
}.

(** The entry pushed after a connection was tested. *)
Definition testedResult (method : AuthMethod) (result : ConnectionResult) : TestResult :=
  {| tr_method := method;
     tr_status := if cr_success result then success else failed;
     tr_message :=
       if cr_success result
       then "Connected as " +:+ default "undefined" (cr_user result)
       else or_default (cr_error result) "Unknown error";
     tr_details :=
       if cr_success result then Some (cr_role result, cr_warehouse result) else None |}.

Definition skippedResult (method : AuthMethod) (message : string) : TestResult :=
  {| tr_method := method; tr_status := skipped; tr_message := message;
     tr_details := None |}.

(** The [base] object of [runTests]. *)
Definition base (w : World) : ConnectionOptions :=
  {| opt_account := or_default (env w !! "SNOWFLAKE_ACCOUNT") EmptyString;
     opt_warehouse := or_default (env w !! "SNOWFLAKE_WAREHOUSE") "COMPUTE_WH";
     opt_database := or_default (env w !! "SNOWFLAKE_DATABASE") "DEMO";
     opt_schema := or_default (env w !! "SNOWFLAKE_SCHEMA") "DEMO";
     opt_host := None; opt_username := None; opt_token := None;
     opt_privateKey := None; opt_password := None; opt_authenticator := None |}.

(** One of the four test blocks of [runTests]: its method, the condition
    under which the connection is tested, the options it is tested with and
    the message pushed when it is skipped. *)
Record TestCase := mkTestCase {
  tc_method : AuthMethod;
  tc_configured : bool;
  tc_config : ConnectionOptions;
  tc_skipped : string
}.

(** Tests 1 to 4, in the order of the source. *)
Definition tests (w : World) (privateKey : option string) : list TestCase :=
  let user_or_empty := Some (or_default (env w !! "SNOWFLAKE_USER") EmptyString) in
  [ {| tc_method := oauth;
       tc_configured := truthy (getOAuthToken w);
       tc_config := with_credentials (base w) (env w !! "SNOWFLAKE_HOST") None
                      (getOAuthToken w) None None (Some "oauth");
       tc_skipped := "No OAuth token found" |};
    {| tc_method := keypair;
       tc_configured := truthy privateKey && truthy (env w !! "SNOWFLAKE_USER");
       tc_config := with_credentials (base w) None (env w !! "SNOWFLAKE_USER") None
                      privateKey None (Some "SNOWFLAKE_JWT");
       tc_skipped := "No private key configured" |};
    {| tc_method := pat;
       tc_configured := truthy (env w !! "SNOWFLAKE_PAT");
       tc_config := with_credentials (base w) None user_or_empty
                      (env w !! "SNOWFLAKE_PAT") None None
                      (Some "PROGRAMMATIC_ACCESS_TOKEN");
       tc_skipped := "No PAT configured" |};
    {| tc_method := password;
       tc_configured := truthy (env w !! "SNOWFLAKE_PASSWORD");
       tc_config := with_credentials (base w) None user_or_empty None None
                      (env w !! "SNOWFLAKE_PASSWORD") None;
       tc_skipped := "No password configured" |} ].

(** The test blocks run one after the other; a rejected [testConnection]
    ends the run. *)
Fixpoint runCases (cases : list TestCase) (probes : AuthMethod -> Probe)
    : (ScriptError + list TestResult) * list ScriptEvent :=
  match cases with
  | [] => (inr [], [])
  | c :: rest =>
      if tc_configured c then
        match testConnection (tc_config c) (probes (tc_method c)) with
        | (inl e, evs) => (inl (CreateFailed e), evs)
        | (inr result, evs) =>
            match runCases rest probes with
            | (inl e, evs') => (inl e, evs ++ evs')
            | (inr results, evs') =>
                (inr (testedResult (tc_method c) result :: results), evs ++ evs')
            end
        end
      else
        match runCases rest probes with
        | (inl e, evs') => (inl e, evs')
        | (inr results, evs') =>
            (inr (skippedResult (tc_method c) (tc_skipped c) :: results), evs')
        end
  end.

Definition browserResult : TestResult :=
  skippedResult browser "Not supported in non-interactive mode".

(** [runTests], the console output left out.  The environment and the
    files are the same during the whole run, so the key read for the line
    printed about the private key is the one test 2 reads again. *)
Definition runTests (w : World) (probes : AuthMethod -> Probe)
    : (ScriptError + list TestResult) * list ScriptEvent :=
  match detectAuthMethod w with
  | inl e => (inl e, [])
  | inr detected =>
      match getPrivateKey w with
      | inl e => (inl e, [])
      | inr privateKey =>
          match runCases (tests w privateKey) probes with
          | (inl e, evs) => (inl e, evs)
          | (inr results, evs) => (inr (results ++ [browserResult]), evs)
          end
      end
  end.

(** The three endings of the summary. *)
Inductive Verdict :=
| Recommended (method : AuthMethod)
| AllFailed
| NoneConfigured.

Definition verdict (results : list TestResult) : Verdict :=
  let successful := filter (fun r => tr_status r = success) results in
  let failedOnes := filter (fun r => tr_status r = failed) results in
  match successful with
  | r :: _ => Recommended (tr_method r)
  | [] => match failedOnes with
          | _ :: _ => AllFailed
          | [] => NoneConfigured
          end
  end.

(** The code the process exits with. *)
Definition exitCode (outcome : ScriptError + list TestResult) : Z :=
  match outcome with
  | inr results =>
      if existsb (fun r => bool_decide (tr_status r = success)) results then 0 else 1
  | inl _ => 1
  end.

End TestAuth.

(** A connection goes through: nothing throws, it connects and the
    statement runs. *)
Definition probe_ok (p : TestAuth.Probe) : bool :=
  match TestAuth.pr_create p, TestAuth.pr_connect p, TestAuth.pr_execute p with
  | None, None, inr _ => true
  | _, _, _ => false
  end.

(** The status the test of a method is expected to end with. *)
Definition expected_status (w : World) (probes : AuthMethod -> TestAuth.Probe)
    (m : AuthMethod) : TestAuth.Status :=
  match m with
  | browser => TestAuth.skipped
  | _ => if applies w m
         then if probe_ok (probes m) then TestAuth.success else TestAuth.failed
         else TestAuth.skipped
  end.

Definition case_status (probes : AuthMethod -> TestAuth.Probe) (c : TestAuth.TestCase)
    : TestAuth.Status :=
  if TestAuth.tc_configured c
  then if probe_ok (probes (TestAuth.tc_method c)) then TestAuth.success else TestAuth.failed
  else TestAuth.skipped.

Definition is_sc_connect (ev : TestAuth.ScriptEvent) : bool :=
  match ev with TestAuth.ScConnect _ => true | _ => false end.
Definition is_sc_execute (ev : TestAuth.ScriptEvent) : bool :=
  match ev with TestAuth.ScExecute _ _ => true | _ => false end.
Definition is_sc_destroy (ev : TestAuth.ScriptEvent) : bool :=
  match ev with TestAuth.ScDestroy _ => true | _ => false end.

Definition sc_connects (evs : list TestAuth.ScriptEvent) : nat :=
  length (List.filter is_sc_connect evs).
Definition sc_executes (evs : list TestAuth.ScriptEvent) : nat :=
  length (List.filter is_sc_execute evs).
Definition sc_destroys (evs : list TestAuth.ScriptEvent) : nat :=
  length (List.filter is_sc_destroy evs).

(** The methods the script can test. *)
Definition testable : list AuthMethod := [oauth; keypair; pat; password].

Definition good_probe : TestAuth.Probe :=
  {| TestAuth.pr_create := None; TestAuth.pr_connect := None;
     TestAuth.pr_execute := inr (Some [{[ "USER" := "BOB"; "ROLE" := "SYSADMIN" ]}]) |}.

Definition bad_probe : TestAuth.Probe :=
  {| TestAuth.pr_create := None; TestAuth.pr_connect := Some syntaxError;
     TestAuth.pr_execute := inr None |}.

(** A key pair that is rejected and a PAT that is accepted. *)
Definition world_key_and_pat : World :=
  {| env := env_of [("SNOWFLAKE_PRIVATE_KEY", "-----BEGIN"); ("SNOWFLAKE_USER", "bob");
                    ("SNOWFLAKE_ACCOUNT", "xy12345"); ("SNOWFLAKE_PAT", "abc123")];
     files := ∅ |}.

Definition key_rejected (m : AuthMethod) : TestAuth.Probe :=
  match m with keypair => bad_probe | _ => good_probe end.

(** The key file is there and cannot be read. *)
Definition world_unreadable_key : World :=
  {| env := env_of [("SNOWFLAKE_PRIVATE_KEY_PATH", "/keys/rsa.p8"); ("SNOWFLAKE_USER", "bob");
                    ("SNOWFLAKE_PAT", "abc123")];
     files := {[ "/keys/rsa.p8" := Unreadable ]} |}.

(** ** Authentication test script: the [.env.local] loader *)

Module DotEnv.

(** [s.split(sep)] for a separator of one character: never an empty list. *)
Fixpoint split (sep : ascii) (s : string) : list string :=
  match s with
  | EmptyString => [EmptyString]
  | String c s' =>
      if decide (c = sep) then EmptyString :: split sep s'
      else match split sep s' with
           | x :: rest => String c x :: rest
           | [] => [String c EmptyString]
           end
  end.

(** The characters [trim] removes, which are the white space and the line
    terminators of the language, as they stand in UTF-8 text: tab to
    carriage return and the space; U+00A0; U+1680, U+2000 to U+200A, U+2028,
    U+2029, U+202F, U+205F, U+3000 and U+FEFF. *)
Definition ws1 (a : ascii) : bool :=
  let x := N_of_ascii a in
  ((9 <=? x) && (x <=? 13) || (x =? 32))%N.

Definition ws2 (a b : ascii) : bool :=
  ((N_of_ascii a =? 194) && (N_of_ascii b =? 160))%N.

Definition ws3 (a b c : ascii) : bool :=
  let x := N_of_ascii a in
  let y := N_of_ascii b in
  let z := N_of_ascii c in
  ((x =? 225) && (y =? 154) && (z =? 128)
   || (x =? 226) && (y =? 128)
      && ((128 <=? z) && (z <=? 138) || (z =? 168) || (z =? 169) || (z =? 175))
   || (x =? 226) && (y =? 129) && (z =? 159)
   || (x =? 227) && (y =? 128) && (z =? 128)
   || (x =? 239) && (y =? 187) && (z =? 191))%N.

(** Remove the white space a text starts with; with [backwards] the text is
    read from its end, so the bytes of a character come in reverse. *)
Fixpoint strip_front (backwards : bool) (s : string) : string :=
  match s with
  | String c1 s1 =>
      if ws1 c1 then strip_front backwards s1
      else
        match s1 with
        | String c2 s2 =>
            if (if backwards then ws2 c2 c1 else ws2 c1 c2) then strip_front backwards s2
            else
              match s2 with
              | String c3 s3 =>
                  if (if backwards then ws3 c3 c2 c1 else ws3 c1 c2 c3)
                  then strip_front backwards s3
                  else s
              | EmptyString => s
              end
        | EmptyString => s
        end
  | EmptyString => s
  end.

Fixpoint rev_onto (s acc : string) : string :=
  match s with
  | EmptyString => acc
  | String c s' => rev_onto s' (String c acc)
  end.

Definition reverse (s : string) : string := rev_onto s EmptyString.

(** [s.trim()] *)
Definition trim (s : string) : string :=
  reverse (strip_front true (reverse (strip_front false s))).

Definition is_quote (c : ascii) : bool :=
  bool_decide (c = chr_dq) || bool_decide (c = chr_sq).

Fixpoint drop_last_quote (s : string) : string :=
  match s with
  | EmptyString => EmptyString
  | String c EmptyString => if is_quote c then EmptyString else s
  | String c s' => String c (drop_last_quote s')
  end.

(** The replacement of the loader: a quote of either kind is removed at the
    start of the text, and one at the end of what is left. *)
Definition stripQuotes (s : string) : string :=
  drop_last_quote
    match s with
    | String c s' => if is_quote c then s' else s
    | EmptyString => EmptyString
    end.

(** The names every object inherits from [Object.prototype]. *)
Definition inherited (name : string) : bool :=
  existsb (String.eqb name)
    ["constructor"; "hasOwnProperty"; "isPrototypeOf"; "propertyIsEnumerable";
     "toLocaleString"; "toString"; "valueOf"; "__proto__";
     "__defineGetter__"; "__defineSetter__"; "__lookupGetter__"; "__lookupSetter__"].

(** [process.env[name]] read as a condition.  A variable that is set gives
    its value.  For a name that is not set the lookup goes on to
    [Object.prototype], and what is found there, a function or an object,
    counts as true. *)
Definition env_truthy (e : gmap string string) (name : string) : bool :=
  match e !! name with
  | Some value => str_truthy value
  | None => inherited name
  end.

(** [process.env[name] = value]: no variable has the empty name, and the
    assignment to it sets nothing. *)
Definition env_set (name value : string) (e : gmap string string) : gmap string string :=
  if decide (name = EmptyString) then e else <[name := value]> e.

(** The body of the [forEach]: one line of the file, on [process.env]. *)
Definition loadLine (e : gmap string string) (line : string) : gmap string string :=
  match split "=" line with
  | key :: valueParts =>
      if str_truthy key && negb (starts_with "#" key) then
        let value := trim (join "=" valueParts) in
        if str_truthy value && negb (env_truthy e (trim key))
        then env_set (trim key) (stripQuotes value) e
        else e
      else e
  | [] => e
  end.

(** What the script does to [process.env] with the content of the file. *)
Definition loadEnv (envContent : string) (e : gmap string string) : gmap string string :=
  foldl loadLine e (split chr_nl envContent).

End DotEnv.

(** What a line offers: the name and the value it would set. *)
Definition parseLine (line : string) : option (string * string) :=
  match DotEnv.split "=" line with
  | key :: valueParts =>
      if str_truthy key && negb (starts_with "#" key) then
        let value := DotEnv.trim (join "=" valueParts) in
        if str_truthy value then Some (DotEnv.trim key, DotEnv.stripQuotes value) else None
      else None
  | [] => None
  end.

(** A value offered for a name is taken while the name is unset or empty. *)
Definition offer (cur : option string) (v : string) : option string :=
  if truthy cur then cur else Some v.

(** The names the loader can set: not the empty name, and not a name that
    is unset and found on [Object.prototype]. *)
Definition assignable (e : gmap string string) (k : string) : bool :=
  negb (String.eqb k EmptyString)
  && match e !! k with
     | Some _ => true
     | None => negb (DotEnv.inherited k)
     end.

(** The values the lines offer for one name, in order. *)
Definition offers (k : string) (lines : list string) : list string :=
  omap (fun line => match parseLine line with
                    | Some (k', v) => if decide (k' = k) then Some v else None
                    | None => None
                    end) lines.

(** A visible ASCII character. *)
Definition graphic (c : ascii) : bool :=
  ((33 <=? N_of_ascii c) && (N_of_ascii c <=? 126))%N.

(** A text that starts and ends with a visible ASCII character. *)
Definition graphic_ends (s : string) : bool :=
  match s with
  | String c _ => graphic c
  | EmptyString => false
  end
  && match DotEnv.reverse s with
     | String c _ => graphic c
     | EmptyString => false
     end.

(** A text of ASCII blanks: spaces, tabs, carriage returns and the like. *)
Fixpoint blank (s : string) : bool :=
  match s with
  | EmptyString => true
  | String c s' => DotEnv.ws1 c && blank s'
  end.

(** ** Chat panel: the caller of the analyst route *)

Module ChatPanel.

Record QueryResult := mkQueryResult {
  qr_sql : option string;
  qr_results : option (list Row);
  qr_rowCount : Z;
  qr_toolName : option string;
  qr_agentName : option string;
  qr_usedAgent : bool;
  qr_duration : string
}.

Inductive Role := user | assistant.

Record Message := mkMessage {
  msg_role : Role;
  msg_content : string;
  msg_queryResult : option QueryResult
}.

(** How the [fetch] of the panel ends: with the JSON of a response of the
    route, whatever its status; with the abort of the panel's own timer; or
    with another failure. *)
Inductive FetchResult :=
| Responded (data : HttpResponse)
| AbortError
| OtherError.

Definition unable : string := "Unable to process your request.".

(** The assistant message built from the JSON of a response. *)
Definition assistantMessage (data : HttpResponse) : Message :=
  match data with
  | JsonAnswer body =>
      {| msg_role := assistant;
         msg_content := if str_truthy (ab_answer body) then ab_answer body else unable;
         msg_queryResult :=
           if truthy (ab_sql body) || bool_decide (ab_results body <> None)
              || ab_usedAgent body
           then Some {| qr_sql := ab_sql body; qr_results := ab_results body;
                        qr_rowCount := ab_rowCount body;
                        qr_toolName := ab_toolName body;
                        qr_agentName := ab_agentName body;
                        qr_usedAgent := ab_usedAgent body;
                        qr_duration := ab_duration body |}
           else None |}
  | JsonError _ error =>
      {| msg_role := assistant;
         msg_content := if str_truthy error then error else unable;
         msg_queryResult := None |}
  end.

Definition reply (r : FetchResult) : Message :=
  match r with
  | Responded data => assistantMessage data
  | AbortError =>
      {| msg_role := assistant;
         msg_content :=
           "Request timed out. The Cortex Agent may be processing a complex query.";
         msg_queryResult := None |}
  | OtherError =>
      {| msg_role := assistant;
         msg_content := "Connection error. Please try again.";
         msg_queryResult := None |}
  end.

(** [handleSubmit]: the messages after the exchange; [fetch] is given the
    question put in the body of the request. *)
Definition handleSubmit (input : string) (isLoading : bool)
    (fetch : string -> FetchResult) (messages : list Message) : list Message :=
  if negb (str_truthy (DotEnv.trim input)) || isLoading then messages
  else
    messages
    ++ [{| msg_role := user; msg_content := input; msg_queryResult := None |};
        reply (fetch input)].

End ChatPanel.

(** ** Dashboard components *)

Module NeonGauge.

Record Threshold := mkThreshold {
  th_value : Z;
  th_color : string
}.

(** The colour of the gauge, for a whole-number value (the dashboard passes
    rounded values and counts): each threshold the value reaches replaces
    the colour, in the order of the list. *)
Definition activeColor (value : Z) (color : string) (thresholds : option (list Threshold))
    : string :=
  match thresholds with
  | Some ts =>
      foldl (fun activeColor t => if bool_decide (th_value t <= value)
                                  then th_color t else activeColor) color ts
  | None => color
  end.

End NeonGauge.

Module DataTable.

(** A cell of a column whose values, when present, are all of one type
    [V] compared by [<], numbers other than NaN or strings. *)
Inductive Cell (V : Type) :=
| CNull
| CUndefined
| CValue (v : V).

Arguments CNull {V}.
Arguments CUndefined {V}.
Arguments CValue {V} v.

Inductive SortDir := asc | desc.

Definition nullish {V} (c : Cell V) : bool :=
  match c with CValue _ => false | _ => true end.

(** The comparison function handed to [sort]; [lt] is [<] on the values and
    [eqb] is [===]. *)
Definition compare {V} (eqb lt : V -> V -> bool) (sortDir : SortDir) (aVal bVal : Cell V)
    : Z :=
  match aVal, bVal with
  | CNull, CNull | CUndefined, CUndefined => 0
  | CNull, _ | CUndefined, _ => 1
  | CValue _, CNull | CValue _, CUndefined => -1
  | CValue a, CValue b =>
      if eqb a b then 0
      else
        let comparison := if lt a b then -1 else 1 in
        match sortDir with asc => comparison | desc => - comparison end
  end.

End DataTable.

(** The thresholds are listed in increasing order of value. *)
Fixpoint increasing (ts : list NeonGauge.Threshold) : Prop :=
  match ts with
  | [] => True
  | t :: rest =>
      Forall (fun t' => NeonGauge.th_value t <= NeonGauge.th_value t') rest /\ increasing rest
  end.

(** The thresholds of the temperature gauge of the dashboard. *)
Definition temperatureThresholds : list NeonGauge.Threshold :=
  [ {| NeonGauge.th_value := 0; NeonGauge.th_color := "#00d4ff" |};
    {| NeonGauge.th_value := 60; NeonGauge.th_color := "#00ff88" |};
    {| NeonGauge.th_value := 85; NeonGauge.th_color := "#ffd000" |};
    {| NeonGauge.th_value := 95; NeonGauge.th_color := "#ff3333" |} ].

(** [eqb] and [lt] are the equality and the strict order of a total order. *)
Definition total_order {V} (eqb lt : V -> V -> bool) : Prop :=
  (forall a b, eqb a b = true <-> a = b)
  /\ (forall a b, lt a b = true -> lt b a = false)
  /\ (forall a b, a <> b -> lt a b = false -> lt b a = true)
  /\ (forall a, lt a a = false).

(** ** Facts about the string primitives *)

Lemma app_cons c s t : String c s +:+ t = String c (s +:+ t).
Proof. reflexivity. Qed.

Lemma app_empty_l s : EmptyString +:+ s = s.
Proof. reflexivity. Qed.

Lemma app_empty_r s : s +:+ EmptyString = s.
Proof. induction s as [|c s IH]; [reflexivity|]. rewrite app_cons, IH. reflexivity. Qed.

Lemma app_assoc_str s t u : (s +:+ t) +:+ u = s +:+ (t +:+ u).
Proof. induction s as [|c s IH]; [reflexivity|]. rewrite !app_cons, IH. reflexivity. Qed.

Lemma starts_with_app p t : starts_with p (p +:+ t) = true.
Proof.
  induction p as [|c p IH]; [reflexivity|].
  rewrite app_cons. simpl. rewrite decide_True by reflexivity. exact IH.
Qed.

Lemma starts_with_spec p s : starts_with p s = true <-> exists t, s = p +:+ t.
Proof.
  split.
  - revert s. induction p as [|c p IH]; intros s H.
    + exists s. reflexivity.
    + destruct s as [|d s]; simpl in H; [discriminate|].
      destruct (decide (c = d)) as [->|]; [|discriminate].
      destruct (IH _ H) as [t ->]. exists t. reflexivity.
  - intros [t ->]. apply starts_with_app.
Qed.

Lemma includes_spec p s : includes p s = true <-> occurs_in p s.
Proof.
  split.
  - induction s as [|c s IH]; simpl; intros H.
    + rewrite orb_false_r in H. apply starts_with_spec in H as [t Ht].
      exists EmptyString, t. exact Ht.
    + apply orb_true_iff in H as [H|H].
      * apply starts_with_spec in H as [t Ht]. exists EmptyString, t. exact Ht.
      * destruct (IH H) as (a & b & ->). exists (String c a), b. reflexivity.
  - intros (a & b & ->). induction a as [|c a IH].
    + rewrite app_empty_l. destruct (p +:+ b) eqn:E; simpl; rewrite <- E;
        rewrite starts_with_app; reflexivity.
    + rewrite app_cons. simpl. rewrite IH. apply orb_true_r.
Qed.

Lemma includes_false_tail p c s : includes p (String c s) = false -> includes p s = false.
Proof. simpl. intros H. apply orb_false_iff in H as [_ H]. exact H. Qed.

(** *** Newline unescaping *)

Lemma unescape_newlines_truthy s : str_truthy (unescape_newlines s) = str_truthy s.
Proof.
  destruct s as [|c [|d s]]; simpl; try reflexivity.
  destruct (decide _); reflexivity.
Qed.

(** Induction two characters at a time. *)
Lemma string_ind2 (P : string -> Prop) :
  P EmptyString ->
  (forall c, P (String c EmptyString)) ->
  (forall c d s, P s -> P (String d s) -> P (String c (String d s))) ->
  forall s, P s.
Proof.
  intros H0 H1 H2 s.
  assert (P s /\ forall c, P (String c s)) as [H _]; [|exact H].
  induction s as [|d s [IHa IHb]]; split; auto.
Qed.

Lemma unescape_newlines_cons c s :
  unescape_newlines (String c s) =
  match s with
  | String d s'' =>
      if decide (c = chr_bs /\ d = "n"%char)
      then String chr_nl (unescape_newlines s'')
      else String c (unescape_newlines s)
  | EmptyString => String c EmptyString
  end.
Proof. destruct s; reflexivity. Qed.

Lemma unescape_newlines_clean s : includes escaped_newline (unescape_newlines s) = false.
Proof.
  induction s as [|c|c d s IH1 IH2] using string_ind2; [reflexivity| |].
  - simpl. destruct (decide (_ = c)); reflexivity.
  - rewrite unescape_newlines_cons.
    destruct (decide (c = chr_bs /\ d = "n"%char)) as [[-> ->]|Hn].
    + change (includes escaped_newline (String chr_nl ?x))
        with (false || includes escaped_newline x). exact IH1.
    + change (includes escaped_newline (String c ?x))
        with (starts_with escaped_newline (String c x) || includes escaped_newline x).
      rewrite IH2, orb_false_r.
      rewrite unescape_newlines_cons. simpl.
      destruct (decide (chr_bs = c)) as [<-|]; [|reflexivity].
      destruct s as [|e s].
      * destruct (decide ("n"%char = d)) as [<-|]; [|reflexivity].
        exfalso. apply Hn. split; reflexivity.
      * destruct (decide (d = chr_bs /\ e = "n"%char)) as [[-> ->]|]; [reflexivity|].
        destruct (decide ("n"%char = d)) as [<-|]; [|reflexivity].
        exfalso. apply Hn. split; reflexivity.
Qed.

Lemma unescape_newlines_id s :
  includes escaped_newline s = false -> unescape_newlines s = s.
Proof.
  induction s as [|c|c d s IH1 IH2] using string_ind2; intros H; [reflexivity..|].
  rewrite unescape_newlines_cons.
  destruct (decide (c = chr_bs /\ d = "n"%char)) as [[-> ->]|Hn]; [discriminate H|].
  f_equal. apply IH2. eapply includes_false_tail, H.
Qed.

Lemma unescape_newlines_app a b :
  unescape_newlines (a +:+ escaped_newline +:+ b)
  = unescape_newlines a +:+ String chr_nl (unescape_newlines b).
Proof.
  induction a as [|c|c d a IH1 IH2] using string_ind2.
  - reflexivity.
  - rewrite app_cons, app_empty_l.
    change (escaped_newline +:+ b) with (String chr_bs (String "n" b)).
    rewrite unescape_newlines_cons.
    rewrite decide_False by (intros [_ H]; discriminate H).
    change (unescape_newlines (String c EmptyString)) with (String c EmptyString).
    rewrite app_cons, app_empty_l. f_equal.
  - rewrite !app_cons. rewrite unescape_newlines_cons.
    rewrite (unescape_newlines_cons c (String d a)).
    destruct (decide (c = chr_bs /\ d = "n"%char)).
    + rewrite app_cons. f_equal. exact IH1.
    + rewrite app_cons. f_equal. rewrite <- app_cons. exact IH2.
Qed.

(** *** Segments, first-occurrence replacement, suffixes *)

Lemma first_segment_app_sep sep v t :
  first_segment sep (v +:+ String sep t) = first_segment sep v.
Proof.
  induction v as [|c v IH].
  - rewrite app_empty_l. simpl. rewrite decide_True by reflexivity. reflexivity.
  - rewrite app_cons. simpl. destruct (decide (c = sep)); [reflexivity|].
    rewrite IH. reflexivity.
Qed.

Lemma segment_decomposition sep s :
  s = first_segment sep s +:+ after_first_segment sep s.
Proof.
  induction s as [|c s IH]; [reflexivity|]. simpl.
  destruct (decide (c = sep)); [reflexivity|].
  rewrite app_cons, <- IH. reflexivity.
Qed.

Lemma strip_suffix_cases p s :
  strip_suffix p s = s \/ s = strip_suffix p s +:+ p.
Proof.
  induction s as [|c s IH]; cbn [strip_suffix].
  - destruct (String.eqb EmptyString p); left; reflexivity.
  - destruct (String.eqb (String c s) p) eqn:E.
    + apply String.eqb_eq in E. right. rewrite <- E. reflexivity.
    + destruct IH as [IH|IH]; [left|right].
      * rewrite IH. reflexivity.
      * rewrite app_cons, <- IH. reflexivity.
Qed.

Lemma first_segment_strip_suffix sep p s :
  first_segment sep (strip_suffix (String sep p) s) = first_segment sep s.
Proof.
  destruct (strip_suffix_cases (String sep p) s) as [->|H]; [reflexivity|].
  rewrite H at 2. rewrite first_segment_app_sep. reflexivity.
Qed.

Lemma first_segment_replace_first sep p s :
  first_segment sep (replace_first (String sep p) EmptyString s)
  = first_segment sep s
    +:+ (if starts_with (String sep p) (after_first_segment sep s)
         then first_segment sep
                (drop_chars (String.length (String sep p)) (after_first_segment sep s))
         else EmptyString).
Proof.
  induction s as [|c s IH]; [reflexivity|].
  cbn [replace_first first_segment after_first_segment].
  destruct (decide (c = sep)) as [->|Hc].
  - rewrite app_empty_l.
    destruct (starts_with (String sep p) (String sep s)); [reflexivity|].
    simpl. rewrite decide_True by reflexivity. reflexivity.
  - assert (starts_with (String sep p) (String c s) = false) as ->.
    { simpl. rewrite decide_False by congruence. reflexivity. }
    simpl first_segment. rewrite decide_False by assumption.
    rewrite app_cons. f_equal. exact IH.
Qed.

Lemma spec_normalizeAccount_first_segment account :
  spec_normalizeAccount account = first_segment chr_dot (toUpperCase account).
Proof. apply (first_segment_strip_suffix chr_dot "GLOBAL"). Qed.

Lemma normalizeAccount_glue account :
  normalizeAccount account
  = spec_normalizeAccount account +:+ glued_after_global (toUpperCase account).
Proof.
  rewrite spec_normalizeAccount_first_segment.
  apply (first_segment_replace_first chr_dot "GLOBAL").
Qed.

(** *** Quote doubling and the SQL literal reader *)

Lemma double_quotes_app a b :
  double_quotes (a +:+ b) = double_quotes a +:+ double_quotes b.
Proof.
  induction a as [|c a IH]; [reflexivity|].
  rewrite app_cons. simpl. destruct (decide (c = chr_sq)); rewrite IH; reflexivity.
Qed.

Lemma includes_char_cons c d s :
  includes (String c EmptyString) (String d s) = false ->
  c <> d /\ includes (String c EmptyString) s = false.
Proof.
  intros H. split; [|eapply includes_false_tail, H].
  intros ->. simpl in H. rewrite decide_True in H by reflexivity. discriminate H.
Qed.

Lemma double_quotes_id s :
  includes "'" s = false -> double_quotes s = s.
Proof.
  induction s as [|c s IH]; [reflexivity|]. intros H.
  apply includes_char_cons in H as [Hc H].
  simpl. rewrite decide_False by (unfold chr_sq; congruence).
  f_equal. apply IH. exact H.
Qed.

Lemma push_string_text t u rest :
  push_string t (SqlText u :: rest) = SqlText (t +:+ u) :: rest.
Proof. induction t as [|c t IH]; [reflexivity|]. simpl. rewrite IH. reflexivity. Qed.

Lemma push_string_literal t u rest :
  push_string t (SqlLiteral u :: rest) = SqlLiteral (t +:+ u) :: rest.
Proof. induction t as [|c t IH]; [reflexivity|]. simpl. rewrite IH. reflexivity. Qed.

(** Quote-free text is read character by character, in either mode. *)
Lemma sql_lex_plain mode t s :
  includes "'" t = false ->
  sql_lex mode (t +:+ s) = push_string t <$> sql_lex mode s.
Proof.
  induction t as [|c t IH]; intros H.
  - rewrite app_empty_l. destruct (sql_lex mode s); reflexivity.
  - rewrite app_cons. apply includes_char_cons in H as [Hc H].
    destruct mode; cbn [sql_lex]; rewrite decide_False by (unfold chr_sq; congruence);
      rewrite IH by exact H; destruct (sql_lex _ s); reflexivity.
Qed.

(** A quote-doubled text followed by a closing quote is read back as one
    literal holding the original text. *)
Lemma sql_lex_doubled q rest :
  starts_with "'" rest = false ->
  sql_lex true (double_quotes q +:+ String chr_sq rest)
  = (fun toks => push_string q (SqlLiteral EmptyString :: toks)) <$> sql_lex false rest.
Proof.
  intros Hrest. induction q as [|c q IH].
  - rewrite app_empty_l. cbn [sql_lex]. rewrite decide_True by reflexivity.
    destruct rest as [|d rest]; [destruct (sql_lex false _); reflexivity|].
    assert (d <> chr_sq) as Hd.
    { intros ->. vm_compute in Hrest. discriminate Hrest. }
    rewrite decide_False by assumption.
    destruct (sql_lex false _); reflexivity.
  - simpl double_quotes. destruct (decide (c = chr_sq)) as [->|Hc].
    + rewrite !app_cons. cbn [sql_lex]. rewrite !decide_True by reflexivity.
      rewrite IH. destruct (sql_lex false rest); reflexivity.
    + rewrite app_cons. cbn [sql_lex]. rewrite decide_False by assumption.
      rewrite IH. destruct (sql_lex false rest); reflexivity.
Qed.

(** ** Credential resolver *)

Lemma truthy_Some s : s <> EmptyString -> truthy (Some s) = true.
Proof. destruct s; [congruence|reflexivity]. Qed.

Lemma truthy_inv v : truthy v = true -> exists s, v = Some s /\ s <> EmptyString.
Proof.
  destruct v as [[|c s]|]; simpl; try discriminate.
  intros _. eexists. split; [reflexivity|discriminate].
Qed.

Lemma getOAuthToken_present w tok :
  files w !! tokenPath = Some (Readable tok) -> getOAuthToken w = Some tok.
Proof. unfold getOAuthToken, read_if_exists. intros ->. reflexivity. Qed.

Lemma getOAuthToken_absent w :
  files w !! tokenPath = None -> getOAuthToken w = None.
Proof. unfold getOAuthToken, read_if_exists. intros ->. reflexivity. Qed.

(** C2. [detectAuthMethod] returns the first method of the order
    oauth > keypair > pat > password > browser that applies: oauth as soon
    as the token file is there and non-empty, whatever else is set; keypair
    when there is no token file, a private key resolves and a username is
    set, whatever the PAT and the password are; browser exactly when none of
    the four others applies. *)
Theorem detectAuthMethod_priority (w : World) :
  detectAuthMethod w = first_applicable w
  /\ (forall tok, files w !! tokenPath = Some (Readable tok) -> tok <> EmptyString ->
        detectAuthMethod w = oauth)
  /\ (forall key user,
        files w !! tokenPath = None ->
        getPrivateKey w = Some key -> key <> EmptyString ->
        env w !! "SNOWFLAKE_USER" = Some user -> user <> EmptyString ->
        detectAuthMethod w = keypair)
  /\ (detectAuthMethod w = browser <-> forall m, m <> browser -> applies w m = false).
Proof.
  repeat split.
  - unfold first_applicable, priority, detectAuthMethod.
    rewrite !filter_cons, filter_nil. simpl applies.
    destruct (truthy (getOAuthToken w)); simpl; [reflexivity|].
    destruct (truthy (getPrivateKey w) && truthy (env w !! "SNOWFLAKE_USER")); simpl;
      [reflexivity|].
    destruct (truthy (env w !! "SNOWFLAKE_PAT")); simpl; [reflexivity|].
    destruct (truthy (env w !! "SNOWFLAKE_PASSWORD")); reflexivity.
  - intros tok Hf Hne. unfold detectAuthMethod.
    rewrite (getOAuthToken_present _ _ Hf), (truthy_Some _ Hne). reflexivity.
  - intros key user Hf Hk Hkne Hu Hune. unfold detectAuthMethod.
    rewrite (getOAuthToken_absent _ Hf), Hk, Hu, !truthy_Some by assumption.
    reflexivity.
  - intros H m Hm. unfold detectAuthMethod in H.
    destruct m; simpl; try congruence;
      repeat match type of H with
             | (if ?b then _ else _) = _ => destruct b eqn:?; try discriminate H
             end; try reflexivity; try congruence.
  - intros H. unfold detectAuthMethod.
    pose proof (H oauth ltac:(discriminate)) as H1.
    pose proof (H keypair ltac:(discriminate)) as H2.
    pose proof (H pat ltac:(discriminate)) as H3.
    pose proof (H password ltac:(discriminate)) as H4.
    simpl in H1, H2, H3, H4. rewrite H1, H2, H3, H4. reflexivity.
Qed.

Lemma detectAuthMethod_priority_witness :
  detectAuthMethod (world_oauth "tok1") = oauth
  /\ detectAuthMethod world_inline_key = keypair
  /\ detectAuthMethod world_empty = browser.
Proof.
  split; [|split].
  - apply (proj1 (proj2 (detectAuthMethod_priority (world_oauth "tok1"))) "tok1");
      [reflexivity | discriminate].
  - apply (proj1 (proj2 (proj2 (detectAuthMethod_priority world_inline_key)))
             (unescape_newlines "-----BEGIN\nMIIE\n-----END") "Alice");
      [reflexivity | reflexivity | discriminate | reflexivity | discriminate].
  - apply (proj2 (proj2 (proj2 (detectAuthMethod_priority world_empty)))).
    intros [] H; try reflexivity. congruence.
Defined.

(** C9. Inline key material wins over the key-file path, and each literal
    backslash-n in it comes out as one newline character, none being left;
    with no inline material and no readable key file, no key is resolved. *)
Theorem getPrivateKey_resolution (w : World) :
  (forall inline,
      env w !! "SNOWFLAKE_PRIVATE_KEY" = Some inline -> inline <> EmptyString ->
      getPrivateKey w = Some (unescape_newlines inline)
      /\ includes escaped_newline (unescape_newlines inline) = false)
  /\ (forall a b,
        unescape_newlines (a +:+ escaped_newline +:+ b)
        = unescape_newlines a +:+ String chr_nl (unescape_newlines b))
  /\ (forall s, includes escaped_newline s = false -> unescape_newlines s = s)
  /\ (truthy (env w !! "SNOWFLAKE_PRIVATE_KEY") = false ->
      (truthy (env w !! "SNOWFLAKE_PRIVATE_KEY_PATH") = false
       \/ exists path, env w !! "SNOWFLAKE_PRIVATE_KEY_PATH" = Some path
                       /\ read_if_exists w path = None) ->
      getPrivateKey w = None)
  /\ (forall path content,
        truthy (env w !! "SNOWFLAKE_PRIVATE_KEY") = false ->
        env w !! "SNOWFLAKE_PRIVATE_KEY_PATH" = Some path -> path <> EmptyString ->
        files w !! path = Some (Readable content) ->
        getPrivateKey w = Some content).
Proof.
  split; [|split; [|split; [|split]]].
  - intros inline Hi Hne. split; [|apply unescape_newlines_clean].
    unfold getPrivateKey. rewrite Hi, (truthy_Some _ Hne). reflexivity.
  - apply unescape_newlines_app.
  - apply unescape_newlines_id.
  - intros Hk Hp. unfold getPrivateKey. rewrite Hk.
    destruct Hp as [->|(path & -> & Hr)]; [reflexivity|].
    destruct (truthy (Some path)); [exact Hr|reflexivity].
  - intros path content Hk Hp Hne Hf. unfold getPrivateKey.
    rewrite Hk, Hp, (truthy_Some _ Hne). simpl. unfold read_if_exists.
    rewrite Hf. reflexivity.
Qed.

Lemma getPrivateKey_resolution_witness :
  getPrivateKey world_inline_key
  = Some ("-----BEGIN" +:+ String chr_nl ("MIIE" +:+ String chr_nl "-----END"))
  /\ getPrivateKey (world_pat "abc123") = None.
Proof.
  split.
  - destruct (proj1 (getPrivateKey_resolution world_inline_key)
                "-----BEGIN\nMIIE\n-----END" eq_refl ltac:(discriminate)) as [H _].
    exact H.
  - apply (proj1 (proj2 (proj2 (proj2 (getPrivateKey_resolution (world_pat "abc123")))))).
    + reflexivity.
    + left. reflexivity.
Defined.

Lemma sql_lex_close rest :
  starts_with "'" rest = false ->
  sql_lex true (String chr_sq rest) = cons (SqlLiteral EmptyString) <$> sql_lex false rest.
Proof.
  intros H. rewrite <- (app_empty_l (String chr_sq rest)).
  change EmptyString with (double_quotes EmptyString) at 1.
  rewrite sql_lex_doubled by exact H. reflexivity.
Qed.

(** ** Account normalisation *)

(** C6, as the code has it. The qualified identity is the account
    identifier uppercased, the FIRST occurrence of [.GLOBAL] removed wherever
    it stands, cut before the first remaining dot, then a dot and the
    uppercased username.  Against the suffix-stripping description this
    glues onto the first segment whatever stands between a [.GLOBAL] at the
    first dot and the next dot; when nothing stands there the two agree, as
    for account XY12345.US-EAST-1.aws and user Alice, which give
    XY12345.ALICE. *)
Theorem qualifiedUsername_first_occurrence (account user : string) :
  qualifiedUsername account user
  = (spec_normalizeAccount account +:+ glued_after_global (toUpperCase account))
      +:+ "." +:+ toUpperCase user
  /\ (glued_after_global (toUpperCase account) = EmptyString ->
      qualifiedUsername account user = spec_qualifiedUsername account user)
  /\ qualifiedUsername "XY12345.US-EAST-1.aws" "Alice" = "XY12345.ALICE".
Proof.
  split; [|split].
  - unfold qualifiedUsername. rewrite normalizeAccount_glue. reflexivity.
  - intros H. unfold qualifiedUsername, spec_qualifiedUsername.
    rewrite normalizeAccount_glue, H, app_empty_r. reflexivity.
  - reflexivity.
Qed.

Lemma qualifiedUsername_first_occurrence_witness :
  qualifiedUsername "myorg-acct1.global" "svc_user" = "MYORG-ACCT1.SVC_USER".
Proof.
  rewrite (proj1 (proj2 (qualifiedUsername_first_occurrence "myorg-acct1.global" "svc_user")))
    by reflexivity.
  reflexivity.
Defined.

(** C6 as stated fails: for account acme.globalx the code answers ACMEX,
    where stripping a suffix and cutting at the first dot gives ACME. *)
Lemma qualifiedUsername_not_suffix_stripping :
  qualifiedUsername "acme.globalx" "alice" = "ACMEX.ALICE"
  /\ spec_qualifiedUsername "acme.globalx" "alice" = "ACME.ALICE"
  /\ ~ (forall account user,
          qualifiedUsername account user = spec_qualifiedUsername account user).
Proof.
  split; [reflexivity|]. split; [reflexivity|].
  intros H. specialize (H "acme.globalx" "alice"). discriminate H.
Qed.

(** ** Fallback statement *)

(** Under the standard quoting rule, where a backslash is a character like
    any other: in the fallback statement every single quote of the question
    is doubled, and the statement reads as text, the model-name literal,
    text, ONE literal whose value is the prompt followed by the question as
    the caller wrote it, text. *)
Theorem fallbackSql_single_literal (question : string) :
  (forall a b, double_quotes (a +:+ "'" +:+ b) = double_quotes a +:+ "''" +:+ double_quotes b)
  /\ (includes "'" question = false -> double_quotes question = question)
  /\ sql_lex false (fallbackSql question)
     = Some [SqlText (nl +:+ "    SELECT SNOWFLAKE.CORTEX.COMPLETE(" +:+ nl +:+ "      ");
             SqlLiteral "mistral-large2";
             SqlText ("," +:+ nl +:+ "      ");
             SqlLiteral (fallbackPrompt +:+ question);
             SqlText fallbackAfter].
Proof.
  split; [|split].
  - intros a b. rewrite double_quotes_app. reflexivity.
  - apply double_quotes_id.
  - change (fallbackSql question) with
      ((nl +:+ "    SELECT SNOWFLAKE.CORTEX.COMPLETE(" +:+ nl +:+ "      ")
         +:+ String chr_sq ("mistral-large2"
         +:+ String chr_sq (("," +:+ nl +:+ "      ")
         +:+ String chr_sq (fallbackPrompt
         +:+ (double_quotes question +:+ String chr_sq fallbackAfter))))).
    rewrite sql_lex_plain by reflexivity. cbn [sql_lex]. rewrite decide_True by reflexivity.
    rewrite sql_lex_plain by reflexivity.
    rewrite sql_lex_close by reflexivity.
    rewrite sql_lex_plain by reflexivity. cbn [sql_lex]. rewrite decide_True by reflexivity.
    rewrite sql_lex_plain by reflexivity.
    rewrite sql_lex_doubled by reflexivity.
    change (sql_lex false fallbackAfter) with (Some [SqlText fallbackAfter]).
    cbn [fmap option_fmap option_map].
    rewrite !push_string_literal, !push_string_text, !app_empty_r.
    reflexivity.
Qed.

Lemma fallbackSql_single_literal_witness :
  sql_lex false (fallbackSql "what's up")
  = Some [SqlText (nl +:+ "    SELECT SNOWFLAKE.CORTEX.COMPLETE(" +:+ nl +:+ "      ");
          SqlLiteral "mistral-large2";
          SqlText ("," +:+ nl +:+ "      ");
          SqlLiteral "You are an NYC Operations assistant. Answer this question concisely: what's up";
          SqlText fallbackAfter]
  /\ double_quotes "who" = "who".
Proof.
  split.
  - exact (proj2 (proj2 (fallbackSql_single_literal "what's up"))).
  - apply (proj1 (proj2 (fallbackSql_single_literal "who"))). reflexivity.
Defined.

Lemma sf_of_sql_push c toks :
  sf_tokens (push_char c toks) = sf_push c (sf_tokens toks).
Proof. destruct toks as [|[t|v] rest]; reflexivity. Qed.

(** Without a backslash the two readings agree. *)
Lemma snowflake_lex_standard s : forall mode,
  includes (String chr_bs EmptyString) s = false ->
  snowflake_lex mode s = sf_tokens <$> sql_lex mode s.
Proof.
  assert (forall n s mode, (String.length s <= n)%nat ->
            includes (String chr_bs EmptyString) s = false ->
            snowflake_lex mode s = sf_tokens <$> sql_lex mode s) as H;
    [|intros mode; apply (H (String.length s)); lia].
  clear s. induction n as [|n IH]; intros s mode Hlen Hs.
  - destruct s; [destruct mode; reflexivity|simpl in Hlen; lia].
  - destruct s as [|c s]; [destruct mode; reflexivity|].
    apply includes_char_cons in Hs as [Hc Hs]. simpl in Hlen.
    assert (forall m, snowflake_lex m s
                      = sf_tokens <$> sql_lex m s) as IHs
      by (intros m; apply IH; [lia|exact Hs]).
    destruct mode; cbn [snowflake_lex sql_lex].
    + rewrite (decide_False (P := c = chr_bs)) by congruence.
      destruct (decide (c = chr_sq)) as [->|Hq].
      * destruct s as [|d s]; [rewrite IHs; reflexivity|].
        destruct (decide (d = chr_sq)) as [->|Hd].
        -- apply includes_char_cons in Hs as [_ Hs]. simpl in Hlen.
           rewrite (IH s true ltac:(lia) Hs).
           destruct (sql_lex true s) as [toks|]; [|reflexivity].
           cbn. rewrite sf_of_sql_push. reflexivity.
        -- rewrite IHs. destruct (sql_lex false _); reflexivity.
      * rewrite IHs. destruct (sql_lex true s) as [toks|]; [|reflexivity].
        cbn. rewrite sf_of_sql_push. reflexivity.
    + destruct (decide (c = chr_sq)) as [->|Hq]; rewrite IHs.
      * destruct (sql_lex true s); reflexivity.
      * destruct (sql_lex false s) as [toks|]; [|reflexivity].
        cbn. rewrite sf_of_sql_push. reflexivity.
Qed.

Lemma includes_char_app c a b :
  includes (String c EmptyString) a = false ->
  includes (String c EmptyString) b = false ->
  includes (String c EmptyString) (a +:+ b) = false.
Proof.
  intros Ha Hb. induction a as [|d a IH]; [exact Hb|].
  apply includes_char_cons in Ha as [Hd Ha]. rewrite app_cons.
  cbn [includes starts_with]. rewrite decide_False by congruence. apply (IH Ha).
Qed.

Lemma double_quotes_no_backslash q :
  includes (String chr_bs EmptyString) q = false ->
  includes (String chr_bs EmptyString) (double_quotes q) = false.
Proof.
  induction q as [|c q IH]; [reflexivity|]. intros H.
  apply includes_char_cons in H as [Hc H]. simpl double_quotes.
  destruct (decide (c = chr_sq)) as [->|Hq]; cbn [includes starts_with];
    rewrite !decide_False by (first [exact Hc|discriminate]); apply (IH H).
Qed.

(** Snowflake reads the fallback statement in the same way when the
    question holds no backslash. *)
Lemma fallbackSql_without_backslash question :
  includes (String chr_bs EmptyString) question = false ->
  snowflake_lex false (fallbackSql question)
  = Some [SfText (nl +:+ "    SELECT SNOWFLAKE.CORTEX.COMPLETE(" +:+ nl +:+ "      ");
          SfLiteral (SfChar <$> list_ascii_of_string "mistral-large2");
          SfText ("," +:+ nl +:+ "      ");
          SfLiteral (SfChar <$> list_ascii_of_string (fallbackPrompt +:+ question));
          SfText fallbackAfter].
Proof.
  intros H. rewrite snowflake_lex_standard.
  - rewrite (proj2 (proj2 (fallbackSql_single_literal question))). reflexivity.
  - unfold fallbackSql. cbn zeta.
    repeat (apply includes_char_app; [first [reflexivity
                                                  |apply double_quotes_no_backslash, H]|]).
    reflexivity.
Qed.

(** ** Base64url *)

Lemma char_sextet_sextet_char x : char_sextet (sextet_char x) = Some x.
Proof. destruct x as [[[[[[] []] []] []] []] []]; vm_compute; reflexivity. Qed.

Lemma index_of_sextet_char x :
  index_of (sextet_char x) base64url_alphabet = Some (sextet_index x).
Proof. destruct x as [[[[[[] []] []] []] []] []]; vm_compute; reflexivity. Qed.

(** Induction three characters at a time. *)
Lemma string_ind3 (P : string -> Prop) :
  P EmptyString ->
  (forall a, P (String a EmptyString)) ->
  (forall a b, P (String a (String b EmptyString))) ->
  (forall a b c s, P s -> P (String a (String b (String c s)))) ->
  forall s, P s.
Proof.
  intros H0 H1 H2 H3 s.
  assert (P s /\ (forall a, P (String a s)) /\ forall a b, P (String a (String b s)))
    as [H _]; [|exact H].
  induction s as [|c s (IHa & IHb & IHc)]; repeat split; auto.
Qed.

Lemma base64url_decode_encode s : base64url_decode (base64url s) = Some s.
Proof.
  induction s as [|a|a b|a b c s IH] using string_ind3.
  - reflexivity.
  - cbn [base64url base64url_decode]. rewrite !char_sextet_sextet_char.
    destruct a. reflexivity.
  - cbn [base64url base64url_decode]. rewrite !char_sextet_sextet_char.
    destruct a, b. reflexivity.
  - cbn [base64url base64url_decode]. rewrite !char_sextet_sextet_char, IH.
    destruct a, b, c. reflexivity.
Qed.

(** A character outside the alphabet never appears in encoded text. *)
Lemma base64url_alphabet_only c s :
  index_of c base64url_alphabet = None ->
  includes (String c EmptyString) (base64url s) = false.
Proof.
  intros Hc.
  assert (forall x t, includes (String c EmptyString) (String (sextet_char x) t)
                      = includes (String c EmptyString) t) as Hstep.
  { intros x t. simpl. destruct (decide (c = sextet_char x)) as [->|]; [|reflexivity].
    rewrite index_of_sextet_char in Hc. discriminate Hc. }
  induction s as [|a|a b|a b d s IH] using string_ind3;
    cbn [base64url]; rewrite ?Hstep; [reflexivity..|exact IH].
Qed.

(** ** JWT signer *)

(** C8, as the code has it. Signing raises its own error, with no crypto
    work started, exactly when no private key resolves.  With a key, the
    first thing done is to hand that key to the crypto library, and signing
    fails only if the library does, on the fingerprint or on the signature,
    with the library's error; when the library answers both, a token is
    returned.  So signing fails exactly when no key resolves or the library
    fails. *)
Theorem generateJWT_key_check (lib : Crypto) (w : World) (nowMs : Z) :
  (truthy (getPrivateKey w) = false
   <-> generateJWT lib w nowMs = (inl keyUnavailable, []))
  /\ (forall key, getPrivateKey w = Some key -> key <> EmptyString ->
        exists text,
          (forall e, (generateJWT lib w nowMs).1 = inl e ->
             (spkiFingerprint lib key = inl e
              /\ (generateJWT lib w nowMs).2 = [CallFingerprint key])
             \/ (rsaSha256Sign lib key text = inl e
                 /\ (generateJWT lib w nowMs).2 = [CallFingerprint key; CallSign key text]))
          /\ (forall fp signature,
                spkiFingerprint lib key = inr fp ->
                rsaSha256Sign lib key text = inr signature ->
                exists token, (generateJWT lib w nowMs).1 = inr token)
          /\ (forall fp, spkiFingerprint lib key = inr fp ->
                text = encode jwtHeader +:+ "." +:+
                       encode (jwtPayload
                                 (qualifiedUsername
                                    (or_default (env w !! "SNOWFLAKE_ACCOUNT") EmptyString)
                                    (or_default (env w !! "SNOWFLAKE_USER") EmptyString))
                                 fp (nowMs `div` 1000))))
  /\ ((exists e, (generateJWT lib w nowMs).1 = inl e)
      <-> truthy (getPrivateKey w) = false
          \/ exists key, getPrivateKey w = Some key
                         /\ ((exists e, spkiFingerprint lib key = inl e)
                             \/ exists e text, rsaSha256Sign lib key text = inl e
                                  /\ In (CallSign key text) (generateJWT lib w nowMs).2)).
Proof.
  unfold generateJWT.
  destruct (getPrivateKey w) as [[|c key]|] eqn:Hk; cbn [truthy str_truthy].
  - split; [split; done|]. split; [intros key H Hne; injection H as <-; congruence|].
    split; [intros _; left; reflexivity|]. intros _. eexists. reflexivity.
  - split.
    { split; [discriminate|].
      destruct (spkiFingerprint lib _); [discriminate|].
      destruct (rsaSha256Sign lib _ _); discriminate. }
    split.
    { intros key' H _. injection H as <-. cbn zeta.
      destruct (spkiFingerprint lib (String c key)) as [e1|fp] eqn:Hfp.
      - exists EmptyString. split; [|split].
        + intros e H. injection H as <-. left. split; reflexivity.
        + intros fp sig H. discriminate H.
        + intros fp H. discriminate H.
      - eexists. split; [|split].
        + intros e H.
          destruct (rsaSha256Sign lib (String c key) _) as [e2|sig] eqn:Hsig;
            [|discriminate H].
          injection H as <-. right. split; [exact Hsig|reflexivity].
        + intros fp' sig H Hs. cbn [fst] in *. rewrite Hs. eexists. reflexivity.
        + intros fp' H. injection H as <-. reflexivity. }
    split.
    + intros [e He]. right. exists (String c key). split; [reflexivity|].
      cbn zeta in He.
      destruct (spkiFingerprint lib (String c key)) as [e1|fp] eqn:Hfp; [left; eauto|].
      destruct (rsaSha256Sign lib (String c key) _) as [e2|sig] eqn:Hsig;
        [|discriminate He].
      right. eexists _, _. split; [exact Hsig|]. cbn. auto.
    + intros [H|(key' & H & Hfail)]; [discriminate H|]. injection H as <-. cbn zeta.
      destruct (spkiFingerprint lib (String c key)) as [e1|fp] eqn:Hfp;
        [eexists; reflexivity|].
      destruct (rsaSha256Sign lib (String c key) _) as [e2|sig] eqn:Hsig;
        [eexists; reflexivity|].
      destruct Hfail as [[e He]|(e & text & Hs & Hin)]; [discriminate He|].
      cbn in Hin. destruct Hin as [Hin|[Hin|[]]]; [discriminate Hin|].
      injection Hin as <-. congruence.
  - split; [split; done|]. split; [intros key H; discriminate H|].
    split; [intros _; left; reflexivity|]. intros _. eexists. reflexivity.
Qed.

Lemma generateJWT_key_check_witness :
  generateJWT sample_crypto (world_pat "abc123") 1700000000123 = (inl keyUnavailable, [])
  /\ exists token, (generateJWT sample_crypto world_inline_key 1700000000123).1 = inr token.
Proof.
  split.
  - apply (proj1 (proj1 (generateJWT_key_check sample_crypto (world_pat "abc123")
                           1700000000123))).
    reflexivity.
  - destruct (proj1 (proj2 (generateJWT_key_check sample_crypto world_inline_key
                              1700000000123)) _ eq_refl ltac:(discriminate))
      as (text & _ & H & _).
    apply (H "FP+/=" "c2ln"); reflexivity.
Defined.

(** C8 as stated fails: with a key that resolves and a crypto library that
    cannot parse it, signing raises an error, the library's, although a key
    is there. *)
Lemma key_check_as_stated_fails :
  generateJWT refusing_crypto world_inline_key 1700000000123
  = (inl unsupportedKey,
     [CallFingerprint ("-----BEGIN" +:+ String chr_nl ("MIIE" +:+ String chr_nl "-----END"))])
  /\ truthy (getPrivateKey world_inline_key) = true
  /\ ~ key_check_as_stated.
Proof.
  split; [reflexivity|]. split; [reflexivity|].
  intros H.
  destruct (H refusing_crypto world_inline_key 1700000000123) as [Hto _].
  discriminate (Hto (ex_intro _ unsupportedKey eq_refl)).
Qed.

(** C7. With a key that resolves and a crypto library that answers, the
    token is header, dot, payload, dot, signature; the header segment is the
    unpadded base64url text of the object alg RS256 / typ JWT; the payload
    segment is the unpadded base64url text of the object with iss = identity
    .SHA256: fingerprint, sub = identity, iat = now and exp = now + 3600;
    neither segment holds a padding character or a dot; and signing again
    with the same account, user, key and clock gives the same two segments
    even if the signature bytes differ. *)
Theorem generateJWT_structure (lib : Crypto) (w : World) (nowMs : Z)
    (key fp signature : string) :
  let account := or_default (env w !! "SNOWFLAKE_ACCOUNT") EmptyString in
  let user := or_default (env w !! "SNOWFLAKE_USER") EmptyString in
  let identity := qualifiedUsername account user in
  let now := nowMs `div` 1000 in
  let headerText :=
    "{" +:+ quoted "alg" +:+ ":" +:+ quoted "RS256" +:+ ","
        +:+ quoted "typ" +:+ ":" +:+ quoted "JWT" +:+ "}" in
  let payloadText :=
    "{" +:+ quoted "iss" +:+ ":" +:+ json_string (identity +:+ ".SHA256:" +:+ fp) +:+ ","
        +:+ quoted "sub" +:+ ":" +:+ json_string identity +:+ ","
        +:+ quoted "iat" +:+ ":" +:+ show_Z now +:+ ","
        +:+ quoted "exp" +:+ ":" +:+ show_Z (now + 3600) +:+ "}" in
  let headerB64 := base64url headerText in
  let payloadB64 := base64url payloadText in
  getPrivateKey w = Some key -> key <> EmptyString ->
  spkiFingerprint lib key = inr fp ->
  rsaSha256Sign lib key (headerB64 +:+ "." +:+ payloadB64) = inr signature ->
  (generateJWT lib w nowMs).1
    = inr (headerB64 +:+ "." +:+ payloadB64 +:+ "." +:+ signature)
  /\ headerB64 = "eyJhbGciOiJSUzI1NiIsInR5cCI6IkpXVCJ9"
  /\ base64url_decode headerB64 = Some headerText
  /\ base64url_decode payloadB64 = Some payloadText
  /\ includes "=" headerB64 = false /\ includes "=" payloadB64 = false
  /\ includes "." headerB64 = false /\ includes "." payloadB64 = false
  /\ (forall lib' signature',
        spkiFingerprint lib' key = inr fp ->
        rsaSha256Sign lib' key (headerB64 +:+ "." +:+ payloadB64) = inr signature' ->
        (generateJWT lib' w nowMs).1
          = inr (headerB64 +:+ "." +:+ payloadB64 +:+ "." +:+ signature')).
Proof.
  intros account user identity now headerText payloadText headerB64 payloadB64
    Hkey Hne Hfp Hsig.
  assert (encode jwtHeader = headerB64) as Hh by reflexivity.
  assert (encode (jwtPayload identity fp now) = payloadB64) as Hp.
  { unfold encode, payloadB64, payloadText. f_equal.
    unfold json_stringify, jwtPayload, json_fields, json_field, json_value. cbn [fst snd].
    change (json_string "iss") with (quoted "iss").
    change (json_string "sub") with (quoted "sub").
    change (json_string "iat") with (quoted "iat").
    change (json_string "exp") with (quoted "exp").
    rewrite !app_assoc_str. reflexivity. }
  assert (forall lib' signature',
            spkiFingerprint lib' key = inr fp ->
            rsaSha256Sign lib' key (headerB64 +:+ "." +:+ payloadB64) = inr signature' ->
            (generateJWT lib' w nowMs).1
            = inr (headerB64 +:+ "." +:+ payloadB64 +:+ "." +:+ signature')) as Hgen.
  { intros lib' signature' Hfp' Hsig'. unfold generateJWT.
    rewrite Hkey. destruct key as [|k key]; [congruence|]. cbn [str_truthy].
    rewrite Hfp'. fold account user identity now. rewrite Hh, Hp, Hsig'. reflexivity. }
  split; [apply Hgen; assumption|].
  split; [reflexivity|].
  split; [apply base64url_decode_encode|].
  split; [apply base64url_decode_encode|].
  repeat split; try (apply base64url_alphabet_only; reflexivity).
  exact Hgen.
Qed.

Lemma generateJWT_structure_witness :
  (generateJWT sample_crypto world_inline_key 1700000000123).1
  = inr ("eyJhbGciOiJSUzI1NiIsInR5cCI6IkpXVCJ9"
         +:+ "." +:+
         "eyJpc3MiOiJYWTEyMzQ1LkFMSUNFLlNIQTI1NjpGUCsvPSIsInN1YiI6IlhZMTIzNDUuQUxJQ0UiLCJpYXQiOjE3MDAwMDAwMDAsImV4cCI6MTcwMDAwMzYwMH0"
         +:+ "." +:+ "c2ln").
Proof.
  exact (proj1 (generateJWT_structure sample_crypto world_inline_key 1700000000123
                  (unescape_newlines "-----BEGIN\nMIIE\n-----END") "FP+/=" "c2ln"
                  eq_refl ltac:(discriminate) eq_refl eq_refl)).
Defined.

(** ** Query executor *)

Lemma query_body sql retries o st :
  query sql retries o st =
  match attempt sql (o 0%nat) st with
  | (inr rows, st', evs) => (inr rows, st', evs)
  | (inl err, st', evs) =>
      if (0 <? retries) && isRetryableError err then
        let '(r, st'', evs') := query sql (retries - 1) (later o) (dropConnection st') in
        (r, st'', evs ++ [EvQueryError (err_message err)] ++ evs')
      else (inl err, st', evs ++ [EvQueryError (err_message err)])
  end.
Proof.
  rewrite query_equation_1.
  destruct (attempt sql (o 0%nat) st) as [[[err|rows] st'] evs]; simpl; [|reflexivity].
  destruct (Z_lt_dec 0 retries) as [H|H]; simpl.
  - rewrite (proj2 (Z.ltb_lt 0 retries) H). simpl. destruct (isRetryableError err); reflexivity.
  - rewrite (proj2 (Z.ltb_nlt 0 retries) H). reflexivity.
Qed.

Lemma executes_app a b : executes (a ++ b) = (executes a + executes b)%nat.
Proof. unfold executes. rewrite filter_app, length_app. reflexivity. Qed.
Lemma connects_app a b : connects (a ++ b) = (connects a + connects b)%nat.
Proof. unfold connects. rewrite filter_app, length_app. reflexivity. Qed.
Lemma failures_app a b : failures (a ++ b) = (failures a + failures b)%nat.
Proof. unfold failures. rewrite filter_app, length_app. reflexivity. Qed.

Lemma executes_one e : executes [e] = Nat.b2n (is_execute e).
Proof. destruct e; reflexivity. Qed.
Lemma connects_one e : connects [e] = Nat.b2n (is_connect e).
Proof. destruct e; reflexivity. Qed.
Lemma failures_one e : failures [e] = Nat.b2n (is_failure e).
Proof. destruct e; reflexivity. Qed.

Create Rewrite HintDb counts.
#[local] Hint Rewrite executes_app connects_app failures_app
  executes_one connects_one failures_one : counts.

Ltac count_events :=
  autorewrite with counts in *;
  cbn [Nat.b2n is_execute is_connect is_failure] in *.

Lemma getConnection_events w co st :
  let evs := (getConnection w co st).2 in
  executes evs = 0%nat /\ failures evs = 0%nat /\ (connects evs <= 1)%nat.
Proof.
  unfold getConnection.
  destruct (connection st) as [c|]; destruct (getConfig w) as [cfg [|]];
    repeat match goal with
           | |- context [if ?b then _ else _] => destruct b
           | |- context [match ?x with Some _ => _ | None => _ end] => destruct x
           end; unfold executes, connects, failures; simpl; repeat split; lia.
Qed.

Lemma attempt_events sql a st :
  let evs := (attempt sql a st).2 in
  (executes evs <= 1)%nat /\ failures evs = 0%nat /\ (connects evs <= 1)%nat.
Proof.
  unfold attempt.
  pose proof (getConnection_events (at_world a) (at_connect a) st) as (He & Hf & Hc).
  destruct (getConnection (at_world a) (at_connect a) st) as [[[e|conn] st'] evs];
    cbn [snd] in *.
  - repeat split; lia.
  - destruct (at_execute a) as [e|rows]; cbn [snd]; count_events; repeat split; lia.
Qed.

(** However large the budget, the recursion ends, and a call makes at most
    one attempt more than its budget. *)
Lemma query_bounded sql retries o st :
  let evs := (query sql retries o st).2 in
  (executes evs <= S (Z.to_nat retries))%nat
  /\ (connects evs <= S (Z.to_nat retries))%nat
  /\ (failures evs <= S (Z.to_nat retries))%nat.
Proof.
  remember (Z.to_nat retries) as n eqn:Hn.
  revert retries o st Hn. induction n as [|n IH]; intros retries o st Hn;
    rewrite query_body;
    pose proof (attempt_events sql (o 0%nat) st) as (He & Hf & Hc);
    destruct (attempt sql (o 0%nat) st) as [[[err|rows] st'] evs]; cbn [snd] in *;
    try (repeat split; lia).
  - assert ((0 <? retries) = false) as -> by lia. cbn [andb snd].
    count_events. repeat split; lia.
  - destruct ((0 <? retries) && isRetryableError err) eqn:Hb.
    + apply andb_true_iff in Hb as [Hpos _]. apply Z.ltb_lt in Hpos.
      specialize (IH (retries - 1) (later o) (dropConnection st') ltac:(lia)).
      destruct (query sql (retries - 1) (later o) (dropConnection st')) as [[r st2] evs'].
      cbn [snd] in *. destruct IH as (IHe & IHc & IHf).
      count_events. repeat split; lia.
    + cbn [snd]. count_events. repeat split; lia.
Qed.

Lemma query_no_retry sql retries o st e st1 evs1 :
  attempt sql (o 0%nat) st = (inl e, st1, evs1) ->
  isRetryableError e = false \/ retries <= 0 ->
  query sql retries o st = (inl e, st1, evs1 ++ [EvQueryError (err_message e)]).
Proof.
  intros Ha Hc. rewrite query_body, Ha.
  destruct Hc as [->|Hr].
  - rewrite andb_false_r. reflexivity.
  - assert ((0 <? retries) = false) as -> by lia. reflexivity.
Qed.

Lemma query_success sql retries o st rows st1 evs1 :
  attempt sql (o 0%nat) st = (inr rows, st1, evs1) ->
  query sql retries o st = (inr rows, st1, evs1).
Proof. intros Ha. rewrite query_body, Ha. reflexivity. Qed.

Lemma getConnection_absent w co st :
  connection st = None ->
  connects (getConnection w co st).2 = 1%nat.
Proof.
  intros Hc. unfold getConnection. rewrite Hc.
  destruct (getConfig w) as [cfg [|]]; destruct (connect_failure co); reflexivity.
Qed.

(** C3. With the default budget of one retry a call makes at most two
    attempts: when the first attempt fails with a retryable error the cached
    session is dropped, the statement is attempted once more on a new
    connection, and whatever that second attempt gives, rows or a failure of
    either kind, is what the caller gets.  For any budget the recursion ends
    after at most one attempt more than the budget. *)
Theorem query_retries_once (sql : string) (o : nat -> Attempt) (st : Process) :
  (forall retries,
      (executes (query sql retries o st).2 <= S (Z.to_nat retries))%nat
      /\ (failures (query sql retries o st).2 <= S (Z.to_nat retries))%nat)
  /\ (executes (query sql defaultRetries o st).2 <= 2)%nat
  /\ (forall e1 st1 evs1 r2 st2 evs2,
        attempt sql (o 0%nat) st = (inl e1, st1, evs1) ->
        isRetryableError e1 = true ->
        attempt sql (o 1%nat) (dropConnection st1) = (r2, st2, evs2) ->
        connection (dropConnection st1) = None
        /\ connects evs2 = 1%nat
        /\ query sql defaultRetries o st
           = (r2, st2,
              evs1 ++ [EvQueryError (err_message e1)] ++ evs2
                ++ match r2 with
                   | inl e2 => [EvQueryError (err_message e2)]
                   | inr _ => []
                   end)).
Proof.
  split; [|split].
  - intros retries. pose proof (query_bounded sql retries o st) as (H1 & _ & H3).
    split; assumption.
  - apply (query_bounded sql defaultRetries o st).
  - intros e1 st1 evs1 r2 st2 evs2 Ha1 Hr Ha2.
    split; [reflexivity|]. split.
    + unfold attempt in Ha2.
      pose proof (getConnection_absent (at_world (o 1%nat)) (at_connect (o 1%nat))
                    (dropConnection st1) eq_refl) as Hc.
      destruct (getConnection _ _ (dropConnection st1)) as [[[e|conn] st'] evs];
        cbn [snd] in Hc.
      * injection Ha2 as _ _ <-. exact Hc.
      * destruct (at_execute (o 1%nat)); injection Ha2 as _ _ <-;
          count_events; lia.
    + rewrite query_body, Ha1. unfold defaultRetries. rewrite Hr. simpl.
      destruct r2 as [e2|rows].
      * rewrite (query_no_retry sql (1 - 1) (later o) (dropConnection st1) e2 st2 evs2);
          [|exact Ha2|right; lia].
        reflexivity.
      * rewrite (query_success sql (1 - 1) (later o) (dropConnection st1) rows st2 evs2 Ha2).
        simpl. rewrite ?app_nil_r. reflexivity.
Qed.

Lemma query_retries_once_witness :
  (query "SELECT 1" defaultRetries
     (always (failing_attempt (world_oauth "tok1") expiredToken)) initialProcess).1.1
  = inl expiredToken
  /\ executes (query "SELECT 1" defaultRetries
       (always (failing_attempt (world_oauth "tok1") expiredToken)) initialProcess).2 = 2%nat.
Proof.
  destruct (proj2 (proj2 (query_retries_once "SELECT 1"
              (always (failing_attempt (world_oauth "tok1") expiredToken)) initialProcess))
              _ _ _ _ _ _ eq_refl eq_refl eq_refl) as (_ & _ & H).
  rewrite H. split; reflexivity.
Defined.

(** ** Fallback statement: what is submitted *)

Lemma statements_app a b : statements (a ++ b) = statements a ++ statements b.
Proof. apply omap_app. Qed.

Lemma statements_none evs : executes evs = 0%nat -> statements evs = [].
Proof.
  induction evs as [|ev evs IH]; [reflexivity|]. intros H.
  change (ev :: evs) with ([ev] ++ evs) in *. rewrite statements_app.
  count_events. destruct ev; cbn in *; try lia; apply IH; lia.
Qed.

Lemma attempt_statements sql a st :
  Forall (eq sql) (statements (attempt sql a st).2).
Proof.
  unfold attempt.
  pose proof (getConnection_events (at_world a) (at_connect a) st) as (He & _).
  destruct (getConnection (at_world a) (at_connect a) st) as [[[e|conn] st'] evs];
    cbn [snd] in *.
  - rewrite statements_none by exact He. constructor.
  - destruct (at_execute a); cbn [snd]; rewrite statements_app, statements_none by exact He;
      repeat constructor.
Qed.

(** Every statement [query] submits is the one it was given. *)
Lemma query_statements sql retries o st :
  Forall (eq sql) (statements (query sql retries o st).2).
Proof.
  remember (Z.to_nat retries) as n eqn:Hn.
  revert retries o st Hn. induction n as [|n IH]; intros retries o st Hn;
    rewrite query_body;
    pose proof (attempt_statements sql (o 0%nat) st) as Ha;
    destruct (attempt sql (o 0%nat) st) as [[[err|rows] st'] evs]; cbn [snd] in *;
    try exact Ha.
  - assert ((0 <? retries) = false) as -> by lia. cbn [andb snd].
    rewrite statements_app. apply Forall_app. split; [exact Ha|constructor].
  - destruct ((0 <? retries) && isRetryableError err) eqn:Hb.
    + apply andb_true_iff in Hb as [Hpos _]. apply Z.ltb_lt in Hpos.
      specialize (IH (retries - 1) (later o) (dropConnection st') ltac:(lia)).
      destruct (query sql (retries - 1) (later o) (dropConnection st')) as [[r st2] evs'].
      cbn [snd] in *. rewrite !statements_app.
      apply Forall_app. split; [exact Ha|]. apply Forall_app. split; [constructor|exact IH].
    + cbn [snd]. rewrite statements_app. apply Forall_app. split; [exact Ha|constructor].
Qed.

(** C10, where the code misses. For the question [Is the FDR open] followed
    by a backslash there is no single quote to double, so the question goes
    into the statement as it is; the statement built from it is the only
    one [fallbackToDirectQuery] submits, whatever the engine answers; and
    Snowflake reads the backslash and the quote after it as an escaped
    quote, so the literal that holds the question is never closed. *)
Theorem fallback_backslash_question :
  double_quotes slashQuestion = slashQuestion
  /\ fallbackSql slashQuestion
     = fallbackBefore +:+ "'" +:+ fallbackPrompt +:+ "Is the FDR open"
       +:+ String chr_bs (String chr_sq fallbackAfter)
  /\ (forall o st,
        Forall (eq (fallbackSql slashQuestion))
          (statements (fallbackToDirectQuery slashQuestion o st).2))
  /\ statements (fallbackToDirectQuery slashQuestion
                   (always (ok_attempt (world_pat "abc123") [])) initialProcess).2
     = [fallbackSql slashQuestion]
  /\ snowflake_lex false (fallbackSql slashQuestion) = None.
Proof.
  split; [reflexivity|]. split; [reflexivity|]. split; [|split].
  - intros o st. unfold fallbackToDirectQuery.
    pose proof (query_statements (fallbackSql slashQuestion) defaultRetries o st) as H.
    destruct (query _ _ o st) as [[[e|rows] st'] evs]; exact H.
  - vm_compute. reflexivity.
  - vm_compute. reflexivity.
Qed.

(** ** Failure classification *)

(** C4. A failure is retryable exactly when its message mentions an
    expired OAuth access token or a terminated connection, or its code is
    407002.  A failure that is not retryable, or that comes when no retry is
    left, reaches the caller as the very same error value, after one log
    line carrying its message. *)
Theorem isRetryableError_classification :
  (forall e,
      isRetryableError e = true
      <-> (exists m, err_message e = Some m
                     /\ (occurs_in "OAuth access token expired" m
                         \/ occurs_in "terminated connection" m))
          \/ err_code e = Some 407002)
  /\ (forall sql retries o st e st1 evs1,
        attempt sql (o 0%nat) st = (inl e, st1, evs1) ->
        isRetryableError e = false \/ retries <= 0 ->
        query sql retries o st = (inl e, st1, evs1 ++ [EvQueryError (err_message e)])).
Proof.
  split; [|apply query_no_retry].
  intros e. unfold isRetryableError, message_includes.
  rewrite !orb_true_iff, bool_decide_eq_true. split.
  - intros [[H|H]|H]; [left|left|right; exact H];
      destruct (err_message e) as [m|]; try discriminate H;
      exists m; (split; [reflexivity|]); apply includes_spec in H; auto.
  - intros [(m & -> & [H|H])|H]; [left; left|left; right|right; exact H];
      apply includes_spec; exact H.
Qed.

Lemma isRetryableError_classification_witness :
  query "SELECT * FROM nowhere" defaultRetries
    (always (failing_attempt (world_pat "abc123") syntaxError)) initialProcess
  = (inl syntaxError,
     (attempt "SELECT * FROM nowhere" (failing_attempt (world_pat "abc123") syntaxError)
        initialProcess).1.2,
     (attempt "SELECT * FROM nowhere" (failing_attempt (world_pat "abc123") syntaxError)
        initialProcess).2 ++ [EvQueryError (Some "SQL compilation error")]).
Proof.
  apply (proj2 isRetryableError_classification "SELECT * FROM nowhere" defaultRetries
           (always (failing_attempt (world_pat "abc123") syntaxError)) initialProcess
           syntaxError _ _ eq_refl).
  left. reflexivity.
Defined.

(** ** Session manager *)

Lemma detect_oauth_truthy w : detectAuthMethod w = oauth -> truthy (getOAuthToken w) = true.
Proof.
  unfold detectAuthMethod.
  repeat match goal with |- context [if ?b then _ else _] => destruct b eqn:? end;
    congruence.
Qed.

Lemma detect_oauth_iff w : detectAuthMethod w = oauth <-> truthy (getOAuthToken w) = true.
Proof.
  split; [apply detect_oauth_truthy|].
  unfold detectAuthMethod. intros ->. reflexivity.
Qed.

(** The test that guards the early return of [getConnection]. *)
Lemma reuse_test w st :
  bool_decide (Some (detectAuthMethod w) = cachedAuthMethod st)
  && (negb (truthy (if decide (detectAuthMethod w = oauth) then getOAuthToken w else None))
      || bool_decide ((if decide (detectAuthMethod w = oauth) then getOAuthToken w else None)
                      = cachedToken st)) = true
  <-> Some (detectAuthMethod w) = cachedAuthMethod st
      /\ (detectAuthMethod w = oauth -> getOAuthToken w = cachedToken st).
Proof.
  rewrite andb_true_iff, orb_true_iff, bool_decide_eq_true, negb_true_iff, bool_decide_eq_true.
  destruct (decide (detectAuthMethod w = oauth)) as [Ho|Ho].
  - rewrite (detect_oauth_truthy _ Ho). split.
    + intros [Hm [Ht|Ht]]; [discriminate Ht|]. auto.
    + intros [Hm Ht]. auto.
  - split.
    + intros [Hm _]. split; [exact Hm|]. intros H. contradiction.
    + intros [Hm _]. split; [exact Hm|]. left. reflexivity.
Qed.

Lemma getConnection_live w co st c :
  connection st = Some c ->
  (reused w co st c
   <-> Some (detectAuthMethod w) = cachedAuthMethod st
       /\ (detectAuthMethod w = oauth -> getOAuthToken w = cachedToken st))
  /\ (~ reused w co st c ->
      exists conn,
        conn_options conn = (getConfig w).1
        /\ conn_id conn = created st
        /\ (getConnection w co st).2
           = [EvLog "Auth method or token changed, reconnecting"; EvDestroy c;
              EvLog ("Connecting with " +:+ show_method (detectAuthMethod w)
                     +:+ " authentication")]
             ++ (if (getConfig w).2 then [EvWarn browserWarning] else [])
             ++ [EvConnect conn]
        /\ connects (getConnection w co st).2 = 1%nat
        /\ match connect_failure co with
           | None =>
               (getConnection w co st).1
               = (inr conn,
                  {| connection := Some conn;
                     cachedToken := if decide (detectAuthMethod w = oauth)
                                    then getOAuthToken w else None;
                     cachedAuthMethod := Some (detectAuthMethod w);
                     created := S (created st) |})
           | Some e =>
               (getConnection w co st).1
               = (inl e,
                  {| connection := Some c; cachedToken := cachedToken st;
                     cachedAuthMethod := cachedAuthMethod st;
                     created := S (created st) |})
           end).
Proof.
  intros Hc. rewrite <- reuse_test. unfold reused, getConnection. rewrite Hc.
  destruct (bool_decide _ && _) eqn:Hb.
  - split; [split; reflexivity|]. intros H. exfalso. apply H. reflexivity.
  - split.
    + split; [|discriminate].
      destruct (getConfig w) as [cfg warned]. destruct (connect_failure co); intros H; discriminate H.
    + intros _. destruct (getConfig w) as [cfg warned].
      exists {| conn_id := created st; conn_options := cfg |}.
      destruct (connect_failure co), warned; repeat split; reflexivity.
Qed.

(** ** Session manager: coherence *)

Lemma detect_pat_truthy w : detectAuthMethod w = pat -> truthy (env w !! "SNOWFLAKE_PAT") = true.
Proof.
  unfold detectAuthMethod.
  repeat match goal with |- context [if ?b then _ else _] => destruct b eqn:? end;
    congruence.
Qed.

Lemma coherent_initial : coherent initialProcess.
Proof. intros c H. discriminate H. Qed.

Lemma coherent_drop st : coherent (dropConnection st).
Proof. intros c H. discriminate H. Qed.

Lemma coherent_fresh w n :
  coherent {| connection := Some {| conn_id := n; conn_options := (getConfig w).1 |};
              cachedToken := if decide (detectAuthMethod w = oauth)
                             then getOAuthToken w else None;
              cachedAuthMethod := Some (detectAuthMethod w);
              created := S n |}.
Proof.
  intros c Hc. injection Hc as <-. exists (detectAuthMethod w). split; [reflexivity|].
  pose proof (detect_oauth_truthy w) as Ho. pose proof (detect_pat_truthy w) as Hp.
  unfold getConfig. cbn [conn_options cachedToken].
  destruct (detectAuthMethod w); cbn; auto.
Qed.

Lemma coherent_created st n :
  coherent st ->
  coherent {| connection := connection st; cachedToken := cachedToken st;
              cachedAuthMethod := cachedAuthMethod st; created := n |}.
Proof. intros H c Hc. exact (H c Hc). Qed.

Lemma coherent_getConnection w co st :
  coherent st -> coherent (getConnection w co st).1.2.
Proof.
  intros H. unfold getConnection.
  pose proof (coherent_fresh w (created st)) as Hf.
  destruct (connection st) as [c|] eqn:Hc.
  - destruct (bool_decide _ && _); [exact H|].
    destruct (getConfig w) as [cfg warned]. destruct (connect_failure co); cbn [fst snd].
    + rewrite <- Hc. apply coherent_created, H.
    + exact Hf.
  - destruct (getConfig w) as [cfg warned]. destruct (connect_failure co); cbn [fst snd].
    + intros c Hc'. discriminate Hc'.
    + exact Hf.
Qed.

Lemma coherent_attempt sql a st : coherent st -> coherent (attempt sql a st).1.2.
Proof.
  intros H. unfold attempt.
  pose proof (coherent_getConnection (at_world a) (at_connect a) st H) as H'.
  destruct (getConnection (at_world a) (at_connect a) st) as [[[e|conn] st'] evs];
    [exact H'|]. destruct (at_execute a); exact H'.
Qed.

(** Every state a sequence of queries can reach from the start is coherent. *)
Lemma coherent_query sql retries o st : coherent st -> coherent (query sql retries o st).1.2.
Proof.
  remember (Z.to_nat retries) as n eqn:Hn.
  revert retries o st Hn. induction n as [|n IH]; intros retries o st Hn H;
    rewrite query_body;
    pose proof (coherent_attempt sql (o 0%nat) st H) as Ha;
    destruct (attempt sql (o 0%nat) st) as [[[err|rows] st'] evs]; cbn [fst snd] in *;
    try exact Ha.
  - assert ((0 <? retries) = false) as -> by lia. exact Ha.
  - destruct ((0 <? retries) && isRetryableError err) eqn:Hb; [|exact Ha].
    apply andb_true_iff in Hb as [Hpos _]. apply Z.ltb_lt in Hpos.
    specialize (IH (retries - 1) (later o) (dropConnection st') ltac:(lia)
                  (coherent_drop st')).
    destruct (query sql (retries - 1) (later o) (dropConnection st')) as [[r st2] evs'].
    exact IH.
Qed.

(** ** Session manager: reuse *)

(** For a coherent state the cached token of an oauth session is the token
    in the options the session was built from. *)
Lemma reuse_iff_coherent w co st c :
  coherent st -> connection st = Some c ->
  (reused w co st c
   <-> Some (detectAuthMethod w) = cachedAuthMethod st
       /\ (detectAuthMethod w = oauth -> getOAuthToken w = opt_token (conn_options c))).
Proof.
  intros Hcoh Hc.
  destruct (getConnection_live w co st c Hc) as [Hiff _].
  rewrite Hiff. destruct (Hcoh c Hc) as (m & Hm & Hshape).
  split; intros [Hsame Htok]; (split; [exact Hsame|]); intros Ho;
    assert (m = oauth) as -> by congruence;
    destruct Hshape as (Ht & _ & _); rewrite (Htok Ho); congruence.
Qed.

(** As long as the PAT on offer is still the one a pat session was built
    with, comparing the token for every token-bearing method and comparing
    it for oauth alone decide the same. *)
Lemma reuse_rule_when_pat_unchanged w co st c :
  coherent st -> connection st = Some c ->
  (cachedAuthMethod st = Some pat ->
   env w !! "SNOWFLAKE_PAT" = opt_token (conn_options c)) ->
  (reused w co st c
   <-> Some (detectAuthMethod w) = cachedAuthMethod st
       /\ (token_bearing (detectAuthMethod w) = true ->
           available_token w (detectAuthMethod w) = opt_token (conn_options c))).
Proof.
  intros Hcoh Hc Hpat. rewrite (reuse_iff_coherent w co st c Hcoh Hc).
  split; intros [Hsame Htok]; (split; [exact Hsame|]).
  - destruct (detectAuthMethod w) eqn:Hm; cbn; try discriminate; intros _.
    + apply Htok. reflexivity.
    + apply Hpat. symmetry. exact Hsame.
  - intros Ho. rewrite Ho in Htok. apply Htok. reflexivity.
Qed.

Lemma built_in_initial E : built_in E initialProcess.
Proof. split; [apply coherent_initial|]. intros c H. discriminate H. Qed.

Lemma built_in_drop E st : built_in E (dropConnection st).
Proof. split; [apply coherent_drop|]. intros c H. discriminate H. Qed.

Lemma built_in_getConnection E w co st :
  env w = E -> built_in E st -> built_in E (getConnection w co st).1.2.
Proof.
  intros HE [Hcoh Hpat]. split; [apply coherent_getConnection, Hcoh|].
  unfold getConnection.
  assert (forall n c,
            Some {| conn_id := n; conn_options := (getConfig w).1 |} = Some c ->
            Some (detectAuthMethod w) = Some pat ->
            opt_token (conn_options c) = E !! "SNOWFLAKE_PAT") as Hnew.
  { intros n c Hc Hm. injection Hc as <-. injection Hm as Hm.
    unfold getConfig. rewrite Hm, <- HE. reflexivity. }
  destruct (connection st) as [c0|] eqn:Hc0.
  - destruct (bool_decide _ && _); [rewrite <- Hc0 in *; exact Hpat|].
    destruct (getConfig w) as [cfg warned] eqn:Hcfg.
    destruct (connect_failure co); cbn [fst snd connection cachedAuthMethod].
    + exact Hpat.
    + apply Hnew.
  - destruct (getConfig w) as [cfg warned] eqn:Hcfg.
    destruct (connect_failure co); cbn [fst snd connection cachedAuthMethod].
    + intros c H. discriminate H.
    + apply Hnew.
Qed.

Lemma built_in_attempt E sql a st :
  env (at_world a) = E -> built_in E st -> built_in E (attempt sql a st).1.2.
Proof.
  intros HE H. unfold attempt.
  pose proof (built_in_getConnection E (at_world a) (at_connect a) st HE H) as H'.
  destruct (getConnection (at_world a) (at_connect a) st) as [[[e|conn] st'] evs];
    [exact H'|]. destruct (at_execute a); exact H'.
Qed.

(** Every state a sequence of queries reaches in one process is built in
    the environment of that process. *)
Lemma built_in_query E sql retries o st :
  (forall n, env (at_world (o n)) = E) ->
  built_in E st -> built_in E (query sql retries o st).1.2.
Proof.
  remember (Z.to_nat retries) as n eqn:Hn.
  revert retries o st Hn. induction n as [|n IH]; intros retries o st Hn HE H;
    rewrite query_body;
    pose proof (built_in_attempt E sql (o 0%nat) st (HE 0%nat) H) as Ha;
    destruct (attempt sql (o 0%nat) st) as [[[err|rows] st'] evs]; cbn [fst snd] in *;
    try exact Ha.
  - assert ((0 <? retries) = false) as -> by lia. exact Ha.
  - destruct ((0 <? retries) && isRetryableError err) eqn:Hb; [|exact Ha].
    apply andb_true_iff in Hb as [Hpos _]. apply Z.ltb_lt in Hpos.
    specialize (IH (retries - 1) (later o) (dropConnection st') ltac:(lia)
                  (fun n => HE (S n)) (built_in_drop E st')).
    destruct (query sql (retries - 1) (later o) (dropConnection st')) as [[r st2] evs'].
    exact IH.
Qed.

(** C1. In a process whose environment variables are [E], a live session
    is handed back, with no driver call, exactly when the method resolved
    now is the one it was built under and, for the token-bearing methods
    oauth and pat, the token on offer now is the token the session was built
    with.  Otherwise the old session is destroyed and a new connection is
    requested before anything is submitted: when the driver makes it, the
    statement runs on the new session, which is the one now cached; when the
    driver fails, the attempt fails with the driver's error and nothing is
    submitted.  A token file whose content differs from the session's token
    always forces that.  Every state the process reaches from its start is
    built in [E], so the rule holds between any two consecutive queries. *)
Theorem session_reuse_rule (E : gmap string string) (w : World) (co : ConnectOutcome)
    (st : Process) (c : Connection) :
  env w = E -> built_in E st -> connection st = Some c ->
  (reused w co st c
   <-> Some (detectAuthMethod w) = cachedAuthMethod st
       /\ (token_bearing (detectAuthMethod w) = true ->
           available_token w (detectAuthMethod w) = opt_token (conn_options c)))
  /\ (reused w co st c ->
      forall sql a, at_world a = w -> at_connect a = co ->
        (attempt sql a st).2 = [EvExecute c sql])
  /\ (~ reused w co st c ->
      exists conn,
        conn_options conn = (getConfig w).1
        /\ (getConnection w co st).2
           = [EvLog "Auth method or token changed, reconnecting"; EvDestroy c;
              EvLog ("Connecting with " +:+ show_method (detectAuthMethod w)
                     +:+ " authentication")]
             ++ (if (getConfig w).2 then [EvWarn browserWarning] else [])
             ++ [EvConnect conn]
        /\ (forall sql a, at_world a = w -> at_connect a = co ->
              match connect_failure co with
              | None =>
                  (attempt sql a st).2 = (getConnection w co st).2 ++ [EvExecute conn sql]
                  /\ connection (attempt sql a st).1.2 = Some conn
              | Some e =>
                  (attempt sql a st).1.1 = inl e
                  /\ (attempt sql a st).2 = (getConnection w co st).2
                  /\ executes (attempt sql a st).2 = 0%nat
              end))
  /\ (forall tok,
        files w !! tokenPath = Some (Readable tok) -> tok <> EmptyString ->
        opt_token (conn_options c) <> Some tok ->
        ~ reused w co st c)
  /\ built_in E (getConnection w co st).1.2
  /\ (forall sql retries o,
        (forall n, env (at_world (o n)) = E) ->
        built_in E (query sql retries o st).1.2).
Proof.
  intros HE Hb Hc. pose proof Hb as [Hcoh Hpat].
  destruct (getConnection_live w co st c Hc) as [_ Hnew].
  pose proof (reuse_iff_coherent w co st c Hcoh Hc) as Hrule.
  split; [|split; [|split; [|split; [|split]]]].
  - apply (reuse_rule_when_pat_unchanged w co st c Hcoh Hc).
    intros Hm. rewrite HE. symmetry. apply (Hpat c Hc Hm).
  - intros Hre sql a <- <-. unfold attempt. unfold reused in Hre. rewrite Hre.
    destruct (at_execute a); reflexivity.
  - intros Hnot. destruct (Hnew Hnot) as (conn & Hopt & _ & Hevs & _ & Hres).
    exists conn. split; [exact Hopt|]. split; [exact Hevs|].
    intros sql a <- Hca. unfold attempt. rewrite Hca.
    pose proof (getConnection_events (at_world a) co st) as (Hex & _).
    destruct (connect_failure co) as [e|];
      destruct (getConnection (at_world a) co st) as [[r st'] evs];
      cbn [fst snd] in *; injection Hres as -> ->.
    + repeat split. exact Hex.
    + destruct (at_execute a); split; reflexivity.
  - intros tok Hf Hne Hdiff Hre. apply Hrule in Hre as [_ Htok].
    apply Hdiff. rewrite <- Htok, (getOAuthToken_present _ _ Hf); [reflexivity|].
    apply detect_oauth_iff. rewrite (getOAuthToken_present _ _ Hf).
    apply truthy_Some, Hne.
  - apply built_in_getConnection; assumption.
  - intros sql retries o Ho. apply built_in_query; assumption.
Qed.

Lemma after_oauth_query_coherent : coherent after_oauth_query.
Proof. apply coherent_query, coherent_initial. Qed.

Lemma after_oauth_query_built_in : built_in (env (world_oauth "tok1")) after_oauth_query.
Proof. apply built_in_query; [reflexivity|apply built_in_initial]. Qed.

Lemma session_reuse_rule_witness :
  (exists c, connection after_oauth_query = Some c
             /\ reused (world_oauth "tok1") Connects after_oauth_query c
             /\ ~ reused (world_oauth "tok2") Connects after_oauth_query c)
  /\ connects (query "SELECT 2" defaultRetries
                 (always (ok_attempt (world_oauth "tok1") [])) after_oauth_query).2 = 0%nat
  /\ connects (query "SELECT 2" defaultRetries
                 (always (ok_attempt (world_oauth "tok2") [])) after_oauth_query).2 = 1%nat.
Proof.
  split; [|split; reflexivity].
  eexists. split; [reflexivity|].
  split.
  - apply (proj1 (session_reuse_rule (env (world_oauth "tok1")) (world_oauth "tok1")
                    Connects after_oauth_query _ eq_refl after_oauth_query_built_in
                    eq_refl)).
    split; [reflexivity|]. intros _. reflexivity.
  - apply (proj1 (proj2 (proj2 (proj2 (session_reuse_rule (env (world_oauth "tok1"))
                    (world_oauth "tok2") Connects after_oauth_query _ eq_refl
                    after_oauth_query_built_in eq_refl)))) "tok2");
      [reflexivity | discriminate | discriminate].
Defined.

(** ** Natural-language gateway *)

(** C5, as the code has it. When the agent call fails and the failure is
    not an abort, the handler issues the text-completion statement holding
    the question through [query]; if that succeeds the caller receives the
    answer text with null sql and null results, and if it fails an error
    response.  When the failure is an abort, as raised when the timeout
    ceiling passes, no fallback runs and the caller receives the 504 error. *)
Theorem POST_fallback (lib : Crypto) (w : World) (rq : Request) (o : nat -> Attempt)
    (st : Process) (question : string) (e : JsError) :
  rq_body rq = inr (Some question) -> question <> EmptyString ->
  callCortexAgent lib w (rq_jwt_now rq) question (rq_fetch rq) = inl e ->
  (is_abort e = false ->
   POST lib w rq o st
   = match query (fallbackSql question) defaultRetries o st with
     | (inr rows, st', evs) =>
         (JsonAnswer {| ab_answer := fallbackAnswer rows; ab_sql := None;
                        ab_results := None; ab_rowCount := 0; ab_toolName := None;
                        ab_usedAgent := false; ab_agentName := None;
                        ab_duration := show_Z (rq_end rq - rq_start rq) +:+ "ms" |},
          st', EvLog "Falling back to direct query" :: evs)
     | (inl e', st', evs) =>
         (errorResponse e', st', EvLog "Falling back to direct query" :: evs)
     end)
  /\ (is_abort e = true ->
      POST lib w rq o st
      = (JsonError 504 "Request timed out. Please try a simpler question.", st, []))
  /\ is_abort abortError = true.
Proof.
  intros Hbody Hne Hagent. unfold POST. rewrite Hbody.
  rewrite (truthy_Some _ Hne). cbn [negb from_option id]. rewrite Hagent.
  fold (is_abort e).
  split; [|split; [|reflexivity]].
  - intros ->. unfold fallbackToDirectQuery.
    destruct (query (fallbackSql question) defaultRetries o st) as [[[e'|rows] st'] evs];
      reflexivity.
  - intros ->. reflexivity.
Qed.

Lemma POST_fallback_witness :
  POST sample_crypto (world_pat "abc123") (sample_request (FetchNotOk 503 "unavailable"))
    (always (ok_attempt (world_pat "abc123") [answer_row "Light traffic."])) initialProcess
  = (JsonAnswer {| ab_answer := "Light traffic."; ab_sql := None; ab_results := None;
                   ab_rowCount := 0; ab_toolName := None; ab_usedAgent := false;
                   ab_agentName := None; ab_duration := "250ms" |},
     (query (fallbackSql "How's traffic?") defaultRetries
        (always (ok_attempt (world_pat "abc123") [answer_row "Light traffic."]))
        initialProcess).1.2,
     EvLog "Falling back to direct query"
       :: (query (fallbackSql "How's traffic?") defaultRetries
             (always (ok_attempt (world_pat "abc123") [answer_row "Light traffic."]))
             initialProcess).2)
  /\ POST sample_crypto (world_pat "abc123") (sample_request (FetchRejected abortError))
       (always (ok_attempt (world_pat "abc123") [answer_row "Light traffic."])) initialProcess
     = (JsonError 504 "Request timed out. Please try a simpler question.",
        initialProcess, []).
Proof.
  split.
  - rewrite (proj1 (POST_fallback sample_crypto (world_pat "abc123")
                      (sample_request (FetchNotOk 503 "unavailable"))
                      (always (ok_attempt (world_pat "abc123") [answer_row "Light traffic."]))
                      initialProcess "How's traffic?"
                      (newError "Cortex Agent API error: 503 - unavailable")
                      eq_refl ltac:(discriminate) eq_refl) eq_refl).
    reflexivity.
  - apply (proj1 (proj2 (POST_fallback sample_crypto (world_pat "abc123")
                      (sample_request (FetchRejected abortError))
                      (always (ok_attempt (world_pat "abc123") [answer_row "Light traffic."]))
                      initialProcess "How's traffic?" abortError
                      eq_refl ltac:(discriminate) eq_refl)) eq_refl).
Defined.

(** C5 as stated fails: when the agent call is aborted by the timeout, no
    fallback statement is issued, although it would have succeeded, and the
    caller gets the 504 error. *)
Lemma fallback_as_stated_fails :
  POST sample_crypto (world_pat "abc123") (sample_request (FetchRejected abortError))
    (always (ok_attempt (world_pat "abc123") [answer_row "Light traffic."])) initialProcess
  = (JsonError 504 "Request timed out. Please try a simpler question.", initialProcess, [])
  /\ ~ fallback_as_stated.
Proof.
  split; [reflexivity|].
  intros H.
  destruct (H sample_crypto (world_pat "abc123") (sample_request (FetchRejected abortError))
              (always (ok_attempt (world_pat "abc123") [answer_row "Light traffic."]))
              initialProcess "How's traffic?" abortError _ _ _
              eq_refl ltac:(discriminate) eq_refl eq_refl) as (body & Hpost & _).
  discriminate Hpost.
Qed.

(** ** Connection options *)

Lemma detect_keypair_truthy w :
  detectAuthMethod w = keypair ->
  truthy (getPrivateKey w) = true /\ truthy (env w !! "SNOWFLAKE_USER") = true.
Proof.
  unfold detectAuthMethod.
  repeat match goal with |- context [if ?b then _ else _] => destruct b eqn:? end;
    try congruence.
  intros _. apply andb_true_iff. assumption.
Qed.

Lemma detect_password_truthy w :
  detectAuthMethod w = password -> truthy (env w !! "SNOWFLAKE_PASSWORD") = true.
Proof.
  unfold detectAuthMethod.
  repeat match goal with |- context [if ?b then _ else _] => destruct b eqn:? end;
    congruence.
Qed.

Lemma or_default_truthy v d : str_truthy d = true -> str_truthy (or_default v d) = true.
Proof. intros Hd. destruct v as [[|c s]|]; simpl; auto. Qed.

Lemma truthy_not_None v : truthy v = true -> v <> None.
Proof. destruct v; [discriminate|discriminate]. Qed.

(** X1. The options handed to the driver carry the credential of the
    selected method and of no other: a token only under oauth and pat, a
    private key only under keypair, a password only under password; the
    credential of the selected method is never empty; the authenticator is
    the one of the method; the account, warehouse, database and schema are
    never empty; and the warning is printed exactly under browser. *)
Theorem getConfig_credentials (w : World) :
  let cfg := (getConfig w).1 in
  let m := detectAuthMethod w in
  opt_authenticator cfg = authenticator_of m
  /\ (carries_token cfg = true <-> m = oauth \/ m = pat)
  /\ (carries_key cfg = true <-> m = keypair)
  /\ (carries_password cfg = true <-> m = password)
  /\ (m = oauth -> truthy (opt_token cfg) = true /\ opt_username cfg = None)
  /\ (m = pat -> opt_token cfg = env w !! "SNOWFLAKE_PAT" /\ truthy (opt_token cfg) = true)
  /\ (m = keypair -> truthy (opt_privateKey cfg) = true)
  /\ (m = password -> truthy (opt_password cfg) = true)
  /\ (m <> oauth -> truthy (opt_username cfg) = true)
  /\ (str_truthy (opt_account cfg) && str_truthy (opt_warehouse cfg)
      && str_truthy (opt_database cfg) && str_truthy (opt_schema cfg) = true)
  /\ ((getConfig w).2 = true <-> m = browser).
Proof.
  intros cfg m. subst cfg m. unfold getConfig.
  pose proof (detect_oauth_truthy w) as Ho.
  pose proof (detect_pat_truthy w) as Hp.
  pose proof (detect_keypair_truthy w) as Hk.
  pose proof (detect_password_truthy w) as Hw.
  unfold carries_token, carries_key, carries_password.
  destruct (detectAuthMethod w) eqn:Hm; cbn;
    rewrite ?bool_decide_eq_true, ?or_default_truthy by reflexivity;
    try specialize (Ho eq_refl); try specialize (Hp eq_refl);
    try (destruct (Hk eq_refl) as [Hk1 Hk2]); try specialize (Hw eq_refl);
    repeat split; intros; try discriminate; try congruence; auto using truthy_not_None;
    match goal with H : _ \/ _ |- _ => destruct H; discriminate end.
Qed.

Lemma getConfig_credentials_witness :
  opt_token (getConfig (world_pat "abc123")).1 = Some "abc123"
  /\ opt_authenticator (getConfig (world_pat "abc123")).1 = Some "PROGRAMMATIC_ACCESS_TOKEN"
  /\ carries_password (getConfig (world_oauth "tok1")).1 = false.
Proof.
  pose proof (getConfig_credentials (world_pat "abc123")) as (Ha & _ & _ & _ & _ & Hp & _).
  pose proof (getConfig_credentials (world_oauth "tok1")) as (_ & _ & _ & Hw & _).
  split; [|split].
  - rewrite (proj1 (Hp eq_refl)). reflexivity.
  - rewrite Ha. reflexivity.
  - destruct (carries_password (getConfig (world_oauth "tok1")).1) eqn:E; [|reflexivity].
    discriminate (proj1 Hw eq_refl).
Defined.

(** ** Session manager: failed connects *)

Lemma getConnection_ok_live w co st conn st' evs :
  getConnection w co st = (inr conn, st', evs) -> connection st' = Some conn.
Proof.
  unfold getConnection. destruct (connection st) as [c|] eqn:Hc.
  - destruct (bool_decide _ && _).
    + intros H. injection H as <- <- _. exact Hc.
    + destruct (getConfig w) as [cfg warned]. destruct (connect_failure co); intros H; [discriminate H|].
      injection H as <- <- _. reflexivity.
  - destruct (getConfig w) as [cfg warned]. destruct (connect_failure co); intros H; [discriminate H|].
    injection H as <- <- _. reflexivity.
Qed.

(** X2. [getConnection] fails only because the driver failed on the
    request of a new connection, [createConnection] throwing or
    [connectAsync] rejecting, and then with that very error; one connection
    was requested; the cached connection, token and method are left as they
    were.  If a session was cached it has been destroyed by then, yet it
    stays cached: a later call made under the method and token it was built
    with hands the destroyed session back without any driver call. *)
Theorem failed_connect_keeps_cache (w : World) (co : ConnectOutcome) (st st' : Process)
    (e : JsError) (evs : list Event) :
  getConnection w co st = (inl e, st', evs) ->
  (co = CreateThrows e \/ co = ConnectRejects e)
  /\ connection st' = connection st
  /\ cachedToken st' = cachedToken st
  /\ cachedAuthMethod st' = cachedAuthMethod st
  /\ connects evs = 1%nat
  /\ (forall c, connection st = Some c ->
        In (EvDestroy c) evs
        /\ forall w' co',
             Some (detectAuthMethod w') = cachedAuthMethod st ->
             (detectAuthMethod w' = oauth -> getOAuthToken w' = cachedToken st) ->
             getConnection w' co' st' = (inr c, st', [])).
Proof.
  intros H.
  assert ((co = CreateThrows e \/ co = ConnectRejects e)
          /\ connection st' = connection st
          /\ cachedToken st' = cachedToken st
          /\ cachedAuthMethod st' = cachedAuthMethod st
          /\ connects evs = 1%nat
          /\ forall c, connection st = Some c -> In (EvDestroy c) evs) as Hmain.
  { revert H. unfold getConnection. destruct (connection st) as [c|] eqn:Hc.
    - destruct (bool_decide _ && _); [discriminate|].
      destruct (getConfig w) as [cfg [|]]; destruct co as [|e0|e0];
        cbn [connect_failure]; intros H;
        try discriminate H; injection H as <- <- <-; cbn;
        repeat split; auto; intros c' Hc'; injection Hc' as <-; simpl; auto.
    - destruct (getConfig w) as [cfg [|]]; destruct co as [|e0|e0];
        cbn [connect_failure]; intros H;
        try discriminate H; injection H as <- <- <-; cbn;
        repeat split; auto; intros c' Hc'; discriminate Hc'. }
  destruct Hmain as (H1 & H2 & H3 & H4 & H5 & H6).
  repeat split; try assumption.
  - apply H6. assumption.
  - intros w' co' Hm Ht.
    assert (connection st' = Some c) as Hc' by congruence.
    apply (proj1 (getConnection_live w' co' st' c Hc')).
    rewrite H3, H4. split; assumption.
Qed.

Lemma failed_connect_keeps_cache_witness :
  exists st' evs c,
    getConnection (world_oauth "tok2") (CreateThrows refusedOptions) after_oauth_query
    = (inl refusedOptions, st', evs)
    /\ In (EvDestroy c) evs
    /\ getConnection (world_oauth "tok1") Connects st' = (inr c, st', []).
Proof.
  eexists _, _, _.
  pose proof (failed_connect_keeps_cache (world_oauth "tok2") (CreateThrows refusedOptions)
                after_oauth_query _ refusedOptions _ eq_refl) as (_ & _ & _ & _ & _ & H).
  destruct (H _ eq_refl) as [Hd Hr].
  split; [reflexivity|]. split; [exact Hd|].
  apply Hr; [reflexivity|]. intros _. reflexivity.
Defined.

(** ** Query executor: what a success leaves behind *)

Lemma attempt_ok_last sql a st rows st' evs :
  attempt sql a st = (inr rows, st', evs) ->
  exists conn, connection st' = Some conn /\ last evs = Some (EvExecute conn sql)
               /\ failures evs = 0%nat.
Proof.
  unfold attempt.
  pose proof (getConnection_events (at_world a) (at_connect a) st) as (_ & Hf & _).
  destruct (getConnection (at_world a) (at_connect a) st) as [[[e|conn] st1] evs1] eqn:Hg;
    [discriminate|].
  cbn [snd] in Hf.
  destruct (at_execute a) as [e|r]; [discriminate|].
  intros H. injection H as _ <- <-. exists conn.
  split; [eapply getConnection_ok_live, Hg|]. split; [apply last_snoc|].
  count_events. lia.
Qed.

Lemma query_ok_last sql retries o st rows st' evs :
  query sql retries o st = (inr rows, st', evs) ->
  exists conn, connection st' = Some conn /\ last evs = Some (EvExecute conn sql)
               /\ (failures evs <= Z.to_nat retries)%nat.
Proof.
  remember (Z.to_nat retries) as n eqn:Hn.
  revert retries o st evs Hn. induction n as [|n IH]; intros retries o st evs Hn;
    rewrite query_body;
    pose proof (attempt_events sql (o 0%nat) st) as (_ & Hf1 & _);
    destruct (attempt sql (o 0%nat) st) as [[[err|rows1] st1] evs1] eqn:Ha;
    cbn [snd] in Hf1.
  - assert ((0 <? retries) = false) as -> by lia. discriminate.
  - intros H. injection H as <- <- <-.
    destruct (attempt_ok_last _ _ _ _ _ _ Ha) as (conn & Hc & Hl & Hf).
    exists conn. repeat split; auto. lia.
  - destruct ((0 <? retries) && isRetryableError err) eqn:Hb; [|discriminate].
    apply andb_true_iff in Hb as [Hpos _]. apply Z.ltb_lt in Hpos.
    destruct (query sql (retries - 1) (later o) (dropConnection st1)) as [[r st2] evs2] eqn:Hq.
    intros H. injection H as -> <- <-.
    destruct (IH (retries - 1) (later o) (dropConnection st1) evs2 ltac:(lia) Hq)
      as (conn & Hc & Hl & Hf).
    exists conn. split; [exact Hc|]. split.
    + cbn [app]. rewrite last_app, last_cons, Hl. reflexivity.
    + change (EvQueryError (err_message err) :: evs2)
        with ([EvQueryError (err_message err)] ++ evs2).
      count_events. lia.
  - intros H. injection H as <- <- <-.
    destruct (attempt_ok_last _ _ _ _ _ _ Ha) as (conn & Hc & Hl & Hf).
    exists conn. repeat split; auto. lia.
Qed.

(** X3. When [query] returns rows, a session is cached, the statement was
    the last thing submitted and it ran on that cached session, at most
    [retries] failures were logged on the way, and the process is coherent
    if it was. *)
Theorem query_success_leaves_session (sql : string) (retries : Z) (o : nat -> Attempt)
    (st st' : Process) (rows : list Row) (evs : list Event) :
  query sql retries o st = (inr rows, st', evs) ->
  (exists conn, connection st' = Some conn /\ last evs = Some (EvExecute conn sql))
  /\ (failures evs <= Z.to_nat retries)%nat
  /\ (1 <= executes evs)%nat
  /\ (coherent st -> coherent st').
Proof.
  intros H. destruct (query_ok_last _ _ _ _ _ _ _ H) as (conn & Hc & Hl & Hf).
  split; [exists conn; auto|]. split; [exact Hf|]. split.
  - destruct evs as [|ev evs] using rev_ind; [discriminate Hl|].
    rewrite last_snoc in Hl. injection Hl as ->. count_events. lia.
  - intros Hcoh. pose proof (coherent_query sql retries o st Hcoh) as Hq.
    rewrite H in Hq. exact Hq.
Qed.

Lemma query_success_leaves_session_witness :
  exists conn,
    connection (query "SELECT 1" defaultRetries
                  (fail_then_ok (world_oauth "tok1") expiredToken []) initialProcess).1.2
    = Some conn
    /\ last (query "SELECT 1" defaultRetries
               (fail_then_ok (world_oauth "tok1") expiredToken []) initialProcess).2
       = Some (EvExecute conn "SELECT 1").
Proof.
  assert (query "SELECT 1" defaultRetries
            (fail_then_ok (world_oauth "tok1") expiredToken []) initialProcess
          = (inr [],
             (query "SELECT 1" defaultRetries
                (fail_then_ok (world_oauth "tok1") expiredToken []) initialProcess).1.2,
             (query "SELECT 1" defaultRetries
                (fail_then_ok (world_oauth "tok1") expiredToken []) initialProcess).2)) as H
    by (vm_compute; reflexivity).
  exact (proj1 (query_success_leaves_session _ _ _ _ _ _ _ H)).
Defined.

(** ** Cortex Analyst query *)

(** X4. The analyst statement is never retried: when its submission fails,
    at the connect or at the execution, with a retryable error or not,
    [cortexAnalystQuery] fails with that error at once; no failure line is
    logged, at most one statement was submitted and the cached connection
    is left as the attempt left it, where [query] would have dropped it and
    tried again. *)
Theorem cortexAnalystQuery_no_retry (eng : Engine) (question semanticView : string)
    (o : nat -> Attempt) (st st1 : Process) (e : JsError) (evs1 : list Event) :
  attempt (analystSql semanticView question) (o 0%nat) st = (inl e, st1, evs1) ->
  cortexAnalystQuery eng question semanticView o st = (inl e, st1, evs1)
  /\ failures evs1 = 0%nat /\ (executes evs1 <= 1)%nat
  /\ (isRetryableError e = true ->
      (query (analystSql semanticView question) defaultRetries o st).2
      = evs1 ++ [EvQueryError (err_message e)]
        ++ (query (analystSql semanticView question) 0 (later o) (dropConnection st1)).2).
Proof.
  intros Ha.
  pose proof (attempt_events (analystSql semanticView question) (o 0%nat) st) as (He & Hf & _).
  rewrite Ha in He, Hf. cbn [snd] in He, Hf.
  split; [|split; [exact Hf|split; [exact He|]]].
  - revert Ha. unfold attempt, cortexAnalystQuery.
    destruct (getConnection _ _ st) as [[[e0|conn] st0] evs0];
      [intros H; injection H as -> -> ->; reflexivity|].
    cbn zeta.
    destruct (at_execute (o 0%nat)) as [err|rows]; intros H;
      [injection H as -> -> ->; reflexivity|discriminate H].
  - intros Hr. rewrite query_body, Ha. unfold defaultRetries. rewrite Hr.
    cbn [Z.ltb Z.compare andb]. change (1 - 1) with 0.
    destruct (query _ 0 (later o) (dropConnection st1)) as [[r st2] evs2]. reflexivity.
Qed.

Lemma cortexAnalystQuery_no_retry_witness :
  (cortexAnalystQuery sample_engine "How many cameras?" "DEMO.DEMO.NYC_CAMERA_SEMANTIC_VIEW"
     (always (failing_attempt (world_pat "abc123") expiredToken)) initialProcess).1.1
  = inl expiredToken
  /\ executes (cortexAnalystQuery sample_engine "How many cameras?"
                 "DEMO.DEMO.NYC_CAMERA_SEMANTIC_VIEW"
                 (always (failing_attempt (world_pat "abc123") expiredToken))
                 initialProcess).2 = 1%nat.
Proof.
  rewrite (proj1 (cortexAnalystQuery_no_retry sample_engine "How many cameras?"
                    "DEMO.DEMO.NYC_CAMERA_SEMANTIC_VIEW"
                    (always (failing_attempt (world_pat "abc123") expiredToken))
                    initialProcess _ expiredToken _ eq_refl)).
  split; reflexivity.
Defined.

(** X5. When [cortexAnalystQuery] succeeds, either the reply carried a
    statement, and then at least two statements were submitted, that one
    last and on the session now cached; or the reply
    carried none, and then nothing but the analyst statement was submitted,
    the results are empty and the explanation is not empty. *)
Theorem cortexAnalystQuery_success (eng : Engine) (question semanticView : string)
    (o : nat -> Attempt) (st st' : Process) (r : AnalystResult) (evs : list Event) :
  cortexAnalystQuery eng question semanticView o st = (inr r, st', evs) ->
  (an_sql r <> EmptyString
   /\ (2 <= executes evs)%nat
   /\ exists conn, connection st' = Some conn
                   /\ last evs = Some (EvExecute conn (an_sql r)))
  \/ (an_sql r = EmptyString /\ an_results r = []
      /\ str_truthy (an_explanation r) = true
      /\ executes evs = 1%nat
      /\ exists conn, connection st' = Some conn
                      /\ last evs = Some (EvExecute conn (analystSql semanticView question))).
Proof.
  unfold cortexAnalystQuery.
  pose proof (getConnection_events (at_world (o 0%nat)) (at_connect (o 0%nat)) st)
    as (He & _ & _).
  destruct (getConnection _ _ st) as [[[e0|conn] st0] evs0] eqn:Hg; [discriminate|].
  cbn [snd] in He. cbn zeta.
  destruct (at_execute (o 0%nat)) as [err|[rows|]]; [discriminate| |discriminate].
  destruct (json_parse eng _) as [perr|parsed]; [discriminate|].
  destruct (truthy (reply_sql parsed)) eqn:Hsql.
  - destruct (query _ defaultRetries (later o) st0) as [[[e1|results] st1] evs1] eqn:Hq;
      [discriminate|].
    intros H. injection H as <- <- <-. left. cbn [an_sql].
    apply truthy_inv in Hsql as (s & Hs1 & Hs). rewrite Hs1 in *. cbn in *.
    destruct (query_ok_last _ _ _ _ _ _ _ Hq) as (c & Hc & Hl & _).
    split; [exact Hs|]. split.
    + destruct evs1 as [|ev evs1] using rev_ind; [discriminate Hl|].
      rewrite last_snoc in Hl. injection Hl as ->. count_events. lia.
    + exists c. split; [exact Hc|]. rewrite last_app. cbn in Hl. rewrite Hl. reflexivity.
  - intros H. injection H as <- <- <-. right. cbn [an_sql an_results an_explanation].
    repeat split.
    + apply or_default_truthy. reflexivity.
    + count_events. lia.
    + exists conn. split; [eapply getConnection_ok_live, Hg|]. apply last_snoc.
Qed.

Lemma cortexAnalystQuery_success_witness :
  exists r st' evs,
    cortexAnalystQuery sample_engine "How many cameras?" "DEMO.DEMO.NYC_CAMERA_SEMANTIC_VIEW"
      (always (ok_attempt (world_pat "abc123") [answer_row "no-sql"])) initialProcess
    = (inr r, st', evs)
    /\ an_explanation r = "No SQL generated" /\ executes evs = 1%nat.
Proof.
  eexists _, _, _. split; [reflexivity|].
  destruct (cortexAnalystQuery_success sample_engine "How many cameras?"
              "DEMO.DEMO.NYC_CAMERA_SEMANTIC_VIEW"
              (always (ok_attempt (world_pat "abc123") [answer_row "no-sql"]))
              initialProcess _ _ _ eq_refl) as [(H & _)|(_ & _ & _ & H & _)].
  - exfalso. apply H. reflexivity.
  - split; [reflexivity|exact H].
Defined.

(** X6. In the analyst statement the question is quote-doubled and the name
    of the semantic view is written as it is.  When that name holds no single
    quote, the statement reads as: text, one literal holding the name, text,
    one literal holding the question as the caller wrote it, text. *)
Theorem analystSql_literals (semanticView question : string) :
  includes "'" semanticView = false ->
  sql_lex false (analystSql semanticView question)
  = Some [SqlText ("SELECT SNOWFLAKE.CORTEX.ANALYST(" +:+ nl +:+ "        ");
          SqlLiteral semanticView;
          SqlText ("," +:+ nl +:+ "        ");
          SqlLiteral question;
          SqlText (nl +:+ "      ) as response")].
Proof.
  intros Hview.
  change (analystSql semanticView question) with
    (("SELECT SNOWFLAKE.CORTEX.ANALYST(" +:+ nl +:+ "        ")
       +:+ String chr_sq (semanticView
       +:+ String chr_sq (("," +:+ nl +:+ "        ")
       +:+ String chr_sq (double_quotes question
       +:+ String chr_sq (nl +:+ "      ) as response"))))).
  rewrite sql_lex_plain by reflexivity. cbn [sql_lex]. rewrite decide_True by reflexivity.
  rewrite sql_lex_plain by exact Hview.
  rewrite sql_lex_close by reflexivity.
  rewrite sql_lex_plain by reflexivity. cbn [sql_lex]. rewrite decide_True by reflexivity.
  rewrite sql_lex_doubled by reflexivity.
  change (sql_lex false (nl +:+ "      ) as response"))
    with (Some [SqlText (nl +:+ "      ) as response")]).
  cbn [fmap option_fmap option_map].
  rewrite !push_string_literal, !push_string_text, !app_empty_r.
  reflexivity.
Qed.

Lemma analystSql_literals_witness :
  sql_lex false (analystSql "DEMO.DEMO.NYC_CAMERA_SEMANTIC_VIEW" "what's live?")
  = Some [SqlText ("SELECT SNOWFLAKE.CORTEX.ANALYST(" +:+ nl +:+ "        ");
          SqlLiteral "DEMO.DEMO.NYC_CAMERA_SEMANTIC_VIEW";
          SqlText ("," +:+ nl +:+ "        ");
          SqlLiteral "what's live?";
          SqlText (nl +:+ "      ) as response")].
Proof.
  apply (analystSql_literals "DEMO.DEMO.NYC_CAMERA_SEMANTIC_VIEW" "what's live?").
  reflexivity.
Defined.

(** ** Gateway: account URL and bearer token *)

Lemma occurs_in_app_r p a b : occurs_in p b -> occurs_in p (a +:+ b).
Proof.
  intros (x & y & ->). exists (a +:+ x), y. rewrite app_assoc_str. reflexivity.
Qed.

Lemma occurs_in_app_l p a b : occurs_in p a -> occurs_in p (a +:+ b).
Proof.
  intros (x & y & ->). exists x, (y +:+ b). rewrite !app_assoc_str. reflexivity.
Qed.

(** X7. The agent URL base always starts with https:// and always names
    the snowflakecomputing.com domain; the domain is appended only when the
    account does not already hold it; with no account configured the host
    is the bare domain, and no error is raised. *)
Theorem getAccountUrl_shape (w : World) :
  starts_with "https://" (getAccountUrl w) = true
  /\ includes ".snowflakecomputing.com" (getAccountUrl w) = true
  /\ (forall account,
        env w !! "SNOWFLAKE_ACCOUNT" = Some account ->
        includes ".snowflakecomputing.com" account = true ->
        getAccountUrl w = "https://" +:+ account)
  /\ (forall account,
        env w !! "SNOWFLAKE_ACCOUNT" = Some account ->
        includes ".snowflakecomputing.com" account = false ->
        getAccountUrl w = "https://" +:+ account +:+ ".snowflakecomputing.com")
  /\ (truthy (env w !! "SNOWFLAKE_ACCOUNT") = false ->
      getAccountUrl w = "https://.snowflakecomputing.com").
Proof.
  unfold getAccountUrl.
  split; [|split; [|split; [|split]]].
  - destruct (includes _ _); apply starts_with_app.
  - destruct (includes _ (or_default _ _)) eqn:E; apply includes_spec.
    + apply occurs_in_app_r, includes_spec, E.
    + apply occurs_in_app_r, occurs_in_app_r. exists EmptyString, EmptyString.
      rewrite app_empty_r. reflexivity.
  - intros account Ha Hi. rewrite Ha.
    destruct account as [|c account]; [discriminate Hi|]. cbn [or_default str_truthy].
    rewrite Hi. reflexivity.
  - intros account Ha Hi. rewrite Ha.
    destruct account as [|c account]; [reflexivity|]. cbn [or_default str_truthy].
    rewrite Hi. reflexivity.
  - intros Ht. destruct (env w !! "SNOWFLAKE_ACCOUNT") as [[|c s]|]; try discriminate Ht;
      reflexivity.
Qed.

Lemma getAccountUrl_shape_witness :
  getAccountUrl world_password = "https://xy12345.us-east-1.snowflakecomputing.com"
  /\ getAccountUrl world_empty = "https://.snowflakecomputing.com".
Proof.
  split.
  - apply (proj1 (proj2 (proj2 (proj2 (getAccountUrl_shape world_password))))
             "xy12345.us-east-1"); reflexivity.
  - apply (proj2 (proj2 (proj2 (proj2 (getAccountUrl_shape world_empty))))). reflexivity.
Defined.

(** X8. For the agent API a PAT comes first: when one is set it is the
    bearer token, whatever else is configured and with no signing done;
    without a PAT, a resolvable key with a username gives a signed JWT; and
    without either the call fails for lack of a method, even when an OAuth
    token file or a password would let the SQL session connect.  With no
    token file and PAT, key and username all set, the SQL session uses the
    key pair while the agent call uses the PAT. *)
Theorem getAuthToken_precedence (lib : Crypto) (w : World) (nowMs : Z) :
  (forall p, env w !! "SNOWFLAKE_PAT" = Some p -> p <> EmptyString ->
     getAuthToken lib w nowMs = inr (p, "PROGRAMMATIC_ACCESS_TOKEN"))
  /\ (truthy (env w !! "SNOWFLAKE_PAT") = false ->
      forall token kind, getAuthToken lib w nowMs = inr (token, kind) ->
        kind = "KEYPAIR_JWT" /\ (generateJWT lib w nowMs).1 = inr token
        /\ truthy (getPrivateKey w) = true /\ truthy (env w !! "SNOWFLAKE_USER") = true)
  /\ (truthy (env w !! "SNOWFLAKE_PAT") = false ->
      truthy (getPrivateKey w) && truthy (env w !! "SNOWFLAKE_USER") = false ->
      getAuthToken lib w nowMs = inl noAuthMethod)
  /\ (forall p, env w !! "SNOWFLAKE_PAT" = Some p -> p <> EmptyString ->
      truthy (getOAuthToken w) = false ->
      truthy (getPrivateKey w) && truthy (env w !! "SNOWFLAKE_USER") = true ->
      detectAuthMethod w = keypair
      /\ getAuthToken lib w nowMs = inr (p, "PROGRAMMATIC_ACCESS_TOKEN")).
Proof.
  assert (forall p, env w !! "SNOWFLAKE_PAT" = Some p -> p <> EmptyString ->
            getAuthToken lib w nowMs = inr (p, "PROGRAMMATIC_ACCESS_TOKEN")) as Hpat.
  { intros p Hp Hne. unfold getAuthToken. rewrite Hp, (truthy_Some _ Hne). reflexivity. }
  split; [exact Hpat|]. split; [|split].
  - intros Hno token kind. unfold getAuthToken. rewrite Hno.
    destruct (truthy (getPrivateKey w) && truthy (env w !! "SNOWFLAKE_USER")) eqn:Hk;
      [|discriminate].
    apply andb_true_iff in Hk as [Hk1 Hk2].
    destruct (generateJWT lib w nowMs).1 as [e|t]; [discriminate|].
    intros H. injection H as <- <-. auto.
  - intros Hno Hk. unfold getAuthToken. rewrite Hno, Hk. reflexivity.
  - intros p Hp Hne Ho Hk. split; [|apply Hpat; assumption].
    unfold detectAuthMethod. rewrite Ho, Hk. reflexivity.
Qed.

Lemma getAuthToken_precedence_witness :
  detectAuthMethod world_inline_key = keypair
  /\ getAuthToken sample_crypto world_inline_key 1700000000123
     = inr ("abc123", "PROGRAMMATIC_ACCESS_TOKEN")
  /\ getAuthToken sample_crypto (world_oauth EmptyString) 1700000000123
     = inr ("abc123", "PROGRAMMATIC_ACCESS_TOKEN")
  /\ getAuthToken sample_crypto world_password 1700000000123 = inl noAuthMethod.
Proof.
  destruct (proj2 (proj2 (proj2 (getAuthToken_precedence sample_crypto world_inline_key
              1700000000123))) "abc123" eq_refl ltac:(discriminate) eq_refl eq_refl)
    as [H1 H2].
  split; [exact H1|]. split; [exact H2|]. split.
  - apply (proj1 (getAuthToken_precedence sample_crypto (world_oauth EmptyString)
                    1700000000123) "abc123"); [reflexivity|discriminate].
  - apply (proj1 (proj2 (proj2 (getAuthToken_precedence sample_crypto world_password
                                  1700000000123)))); reflexivity.
Defined.

(** ** Gateway: reading the agent's reply *)

Lemma absorb_tool_content_answer acc content :
  exists suffix,
    aa_answer (absorb_tool_content acc content) = aa_answer acc +:+ suffix.
Proof.
  unfold absorb_tool_content.
  destruct (trc_json content) as [json|]; [|exists EmptyString; symmetry; apply app_empty_r].
  destruct (String.eqb _ _); [|exists EmptyString; symmetry; apply app_empty_r].
  cbn [aa_answer].
  destruct (truthy (tj_text json) && negb (str_truthy (aa_answer acc))) eqn:E;
    [|exists EmptyString; symmetry; apply app_empty_r].
  apply andb_true_iff in E as [_ E]. apply negb_true_iff in E.
  destruct (aa_answer acc); [|discriminate E].
  eexists. reflexivity.
Qed.

Lemma absorb_tool_contents_answer contents acc :
  exists suffix,
    aa_answer (foldl absorb_tool_content acc contents) = aa_answer acc +:+ suffix.
Proof.
  revert acc. induction contents as [|c contents IH]; intros acc.
  - exists EmptyString. symmetry. apply app_empty_r.
  - cbn [foldl]. destruct (IH (absorb_tool_content acc c)) as [s2 ->].
    destruct (absorb_tool_content_answer acc c) as [s1 ->].
    exists (s1 +:+ s2). apply app_assoc_str.
Qed.

Lemma absorb_item_answer acc item :
  exists suffix, aa_answer (absorb_item acc item) = aa_answer acc +:+ suffix.
Proof.
  unfold absorb_item.
  set (acc1 := if String.eqb (ci_type item) "text" && truthy (ci_text item) then _ else acc).
  assert (exists s1, aa_answer acc1 = aa_answer acc +:+ s1) as [s1 H1].
  { subst acc1. destruct (_ && _); [eexists; reflexivity|].
    exists EmptyString. symmetry. apply app_empty_r. }
  destruct (ci_tool_result item) as [tool|]; [|exists s1; exact H1].
  destruct (String.eqb _ "tool_result"); [|exists s1; exact H1].
  match goal with |- context [foldl absorb_tool_content ?a ?l] =>
    destruct (absorb_tool_contents_answer l a) as [s2 ->] end.
  cbn [aa_answer]. rewrite H1. exists (s1 +:+ s2). apply app_assoc_str.
Qed.

Lemma absorb_items_answer items acc :
  exists suffix, aa_answer (foldl absorb_item acc items) = aa_answer acc +:+ suffix.
Proof.
  revert acc. induction items as [|i items IH]; intros acc.
  - exists EmptyString. symmetry. apply app_empty_r.
  - cbn [foldl]. destruct (IH (absorb_item acc i)) as [s2 ->].
    destruct (absorb_item_answer acc i) as [s1 ->].
    exists (s1 +:+ s2). apply app_assoc_str.
Qed.

Lemma absorb_text_items items acc :
  Forall (fun item => ci_type item = "text" /\ ci_tool_result item = None) items ->
  foldl absorb_item acc items
  = {| aa_answer := aa_answer acc +:+ item_texts items; aa_sql := aa_sql acc;
       aa_results := aa_results acc; aa_toolName := aa_toolName acc |}.
Proof.
  intros H. revert acc. induction H as [|item items [Ht Hn] _ IH]; intros acc.
  - cbn. rewrite app_empty_r. destruct acc; reflexivity.
  - cbn [foldl item_texts foldr]. rewrite IH. unfold absorb_item. rewrite Ht, Hn.
    cbn [String.eqb Ascii.eqb Bool.eqb andb].
    destruct (ci_text item) as [[|c t]|]; cbn [truthy str_truthy from_option id aa_answer
      aa_sql aa_results aa_toolName]; rewrite ?app_assoc_str; reflexivity.
Qed.

(** X9. While a reply is read the answer only grows: what has been
    collected is never replaced, every item can only append to it (the text
    of a tool result is taken only while the answer is still empty).  For a
    reply made of text items only, the answer is their texts in order, and
    no statement, result set or tool name is reported. *)
Theorem parseAgentResponse_answer (items rest : list ContentItem) :
  (exists suffix,
      aa_answer (parseAgentResponse {| ar_content := Some (items ++ rest) |})
      = aa_answer (parseAgentResponse {| ar_content := Some items |}) +:+ suffix)
  /\ (Forall (fun item => ci_type item = "text" /\ ci_tool_result item = None) items ->
      parseAgentResponse {| ar_content := Some items |}
      = {| aa_answer := item_texts items; aa_sql := None; aa_results := None;
           aa_toolName := None |}).
Proof.
  unfold parseAgentResponse. cbn [ar_content from_option id]. split.
  - rewrite foldl_app. apply absorb_items_answer.
  - intros H. rewrite (absorb_text_items _ _ H). reflexivity.
Qed.

Lemma parseAgentResponse_answer_witness :
  parseAgentResponse {| ar_content := Some [text_item "Light "; text_item "traffic."] |}
  = {| aa_answer := "Light traffic."; aa_sql := None; aa_results := None;
       aa_toolName := None |}.
Proof.
  rewrite (proj2 (parseAgentResponse_answer [text_item "Light "; text_item "traffic."] [])).
  - reflexivity.
  - repeat constructor.
Defined.

(** ** Gateway: result rows as objects *)

Lemma set_property_ne name val obj k :
  name <> k -> set_property name val obj !! k = obj !! k.
Proof.
  intros H. unfold set_property. destruct (decide _); [reflexivity|].
  apply lookup_insert_ne, H.
Qed.

Lemma set_property_proto name val obj :
  set_property name val obj !! "__proto__" = obj !! "__proto__".
Proof.
  unfold set_property. destruct (decide (name = "__proto__")) as [|H]; [reflexivity|].
  apply lookup_insert_ne, H.
Qed.

Lemma row_object_miss columns row : forall idx obj k,
  (forall j, (j < length row)%nat -> columns !! (idx + j)%nat <> Some k) ->
  (idx + length row <= length columns)%nat ->
  row_object columns idx row obj !! k = obj !! k.
Proof.
  induction row as [|val row IH]; intros idx obj k Hk Hlen; [reflexivity|].
  cbn [row_object length] in *.
  rewrite IH.
  - destruct (lookup_lt_is_Some_2 columns idx ltac:(lia)) as [c Hc].
    rewrite Hc. cbn. apply set_property_ne. intros ->.
    apply (Hk 0%nat ltac:(lia)). rewrite Nat.add_0_r. exact Hc.
  - intros j Hj. replace (S idx + j)%nat with (idx + S j)%nat by lia.
    apply Hk. lia.
  - lia.
Qed.

Lemma row_object_hit columns row : NoDup columns -> forall idx obj j val col,
  (idx + length row <= length columns)%nat ->
  row !! j = Some val -> columns !! (idx + j)%nat = Some col -> col <> "__proto__" ->
  row_object columns idx row obj !! col = Some val.
Proof.
  intros Hnd. induction row as [|v row IH]; intros idx obj j val col Hlen Hj Hcol Hp;
    [discriminate Hj|].
  cbn [row_object length] in *. destruct j as [|j].
  - injection Hj as ->. rewrite Nat.add_0_r in Hcol. rewrite Hcol. cbn.
    rewrite row_object_miss; [| |lia].
    + unfold set_property. rewrite decide_False by exact Hp. apply lookup_insert_eq.
    + intros i Hi Hc. pose proof (NoDup_lookup _ _ _ _ Hnd Hcol Hc). lia.
  - eapply IH; [lia|exact Hj| |exact Hp].
    replace (S idx + j)%nat with (idx + S j)%nat by lia. exact Hcol.
Qed.

Lemma row_object_proto columns row : forall idx obj,
  row_object columns idx row obj !! "__proto__" = obj !! "__proto__".
Proof.
  induction row as [|val row IH]; intros idx obj; [reflexivity|].
  cbn [row_object]. rewrite IH. apply set_property_proto.
Qed.

(** X10. With column names that are pairwise distinct and a row no longer
    than the list of columns, the object built for a result row maps each
    column name other than [__proto__] to the cell at the same position, and
    holds no other key.  A column named [__proto__] gives no key: its cell
    is lost, whatever the columns and the row are. *)
Theorem row_object_columns (columns row : list string) :
  NoDup columns -> (length row <= length columns)%nat ->
  (forall j val col,
      row !! j = Some val -> columns !! j = Some col -> col <> "__proto__" ->
      row_object columns 0 row ∅ !! col = Some val)
  /\ (forall k, k ∉ take (length row) columns -> row_object columns 0 row ∅ !! k = None)
  /\ row_object columns 0 row ∅ !! "__proto__" = None.
Proof.
  intros Hnd Hlen. split; [|split].
  - intros j val col Hj Hc Hp.
    eapply row_object_hit; [exact Hnd|lia|exact Hj|exact Hc|exact Hp].
  - intros k Hk. rewrite row_object_miss; [apply lookup_empty| |lia].
    intros j Hj Hc. apply Hk. apply list_elem_of_lookup. exists j.
    rewrite lookup_take_lt by exact Hj. exact Hc.
  - rewrite row_object_proto. apply lookup_empty.
Qed.

Lemma row_object_columns_witness :
  row_object ["ROADWAY"; "SEVERITY"] 0 ["FDR Drive"; "high"] ∅ !! "SEVERITY" = Some "high"
  /\ row_object ["ROADWAY"; "SEVERITY"] 0 ["FDR Drive"] ∅ !! "SEVERITY" = None
  /\ row_object ["ROADWAY"; "__proto__"] 0 ["FDR Drive"; "high"] ∅ !! "__proto__" = None.
Proof.
  split; [|split].
  - apply (proj1 (row_object_columns ["ROADWAY"; "SEVERITY"] ["FDR Drive"; "high"]
                    ltac:(compute_done) ltac:(simpl; lia)) 1%nat);
      [reflexivity|reflexivity|discriminate].
  - apply (proj1 (proj2 (row_object_columns ["ROADWAY"; "SEVERITY"] ["FDR Drive"]
                           ltac:(compute_done) ltac:(simpl; lia)))).
    compute_done.
  - apply (proj2 (proj2 (row_object_columns ["ROADWAY"; "__proto__"] ["FDR Drive"; "high"]
                           ltac:(compute_done) ltac:(simpl; lia)))).
Defined.

(** ** Gateway: the handler *)

(** X11. The handler submits SQL, and changes the session state, only on
    the fallback path: if a request leaves an event or a changed process
    behind, its question was present and the agent call failed with
    something other than an abort.  A missing or empty question is answered
    400 before anything else is done. *)
Theorem POST_sql_only_in_fallback (lib : Crypto) (w : World) (rq : Request)
    (o : nat -> Attempt) (st : Process) :
  ((POST lib w rq o st).2 <> [] \/ (POST lib w rq o st).1.2 <> st ->
   exists question e,
     rq_body rq = inr (Some question) /\ question <> EmptyString
     /\ callCortexAgent lib w (rq_jwt_now rq) question (rq_fetch rq) = inl e
     /\ is_abort e = false)
  /\ (forall body, rq_body rq = inr body -> truthy body = false ->
        POST lib w rq o st = (JsonError 400 "Question is required", st, [])).
Proof.
  unfold POST. split.
  - destruct (rq_body rq) as [e|[question|]]; cbn [negb truthy];
      try (intros [H|H]; exfalso; apply H; reflexivity).
    destruct (str_truthy question) eqn:Hq; cbn [negb];
      [|intros [H|H]; exfalso; apply H; reflexivity].
    cbn [from_option id].
    destruct (callCortexAgent lib w (rq_jwt_now rq) question (rq_fetch rq)) as [e|a] eqn:Ha;
      [|intros [H|H]; exfalso; apply H; reflexivity].
    fold (is_abort e). destruct (is_abort e) eqn:Hab;
      [intros [H|H]; exfalso; apply H; reflexivity|].
    intros _. exists question, e. repeat split; auto.
    intros ->. discriminate Hq.
  - intros body Hb Ht. rewrite Hb, Ht. reflexivity.
Qed.

Lemma POST_sql_only_in_fallback_witness :
  POST sample_crypto (world_pat "abc123")
    {| rq_body := inr (Some EmptyString); rq_start := 0; rq_jwt_now := 0; rq_end := 5;
       rq_fetch := FetchNotOk 503 "unavailable" |}
    (always (ok_attempt (world_pat "abc123") [])) initialProcess
  = (JsonError 400 "Question is required", initialProcess, []).
Proof.
  apply (proj2 (POST_sql_only_in_fallback sample_crypto (world_pat "abc123") _
                  (always (ok_attempt (world_pat "abc123") [])) initialProcess)
           (Some EmptyString)); reflexivity.
Defined.

Lemma fallbackAnswer_truthy rows : str_truthy (fallbackAnswer rows) = true.
Proof. apply or_default_truthy. reflexivity. Qed.

(** X12. Every answer the handler returns is of one of two kinds.  One
    that did not use the agent has a non-empty answer text, no statement,
    no results, row count 0, no tool and no agent name.  One that used the
    agent names the agent DEMO.DEMO.NYC_OPS_CENTER_AGENT, carries a row
    count equal to the number of result rows (0 without results), and was
    produced without touching the session. *)
Theorem POST_answer_kinds (lib : Crypto) (w : World) (rq : Request)
    (o : nat -> Attempt) (st st' : Process) (body : AnswerBody) (evs : list Event) :
  POST lib w rq o st = (JsonAnswer body, st', evs) ->
  (ab_usedAgent body = false ->
     str_truthy (ab_answer body) = true /\ ab_sql body = None /\ ab_results body = None
     /\ ab_rowCount body = 0 /\ ab_toolName body = None /\ ab_agentName body = None
     /\ (1 <= executes evs)%nat)
  /\ (ab_usedAgent body = true ->
      ab_agentName body = Some "DEMO.DEMO.NYC_OPS_CENTER_AGENT"
      /\ ab_rowCount body = from_option (fun r => Z.of_nat (length r)) 0 (ab_results body)
      /\ st' = st /\ evs = [])
  /\ ab_duration body = show_Z (rq_end rq - rq_start rq) +:+ "ms".
Proof.
  unfold POST.
  destruct (rq_body rq) as [e|b]; [unfold errorResponse; destruct (_ || _); discriminate|].
  destruct (negb (truthy b)); [discriminate|].
  destruct (callCortexAgent _ _ _ _ _) as [e|a].
  - destruct (_ || _); [unfold errorResponse; cbn; discriminate|].
    unfold fallbackToDirectQuery.
    destruct (query _ defaultRetries o st) as [[[e'|rows] st1] evs1] eqn:Hq;
      [unfold errorResponse; destruct (_ || _); discriminate|].
    assert (1 <= executes (EvLog "Falling back to direct query" :: evs1))%nat as Hex.
    { destruct (query_ok_last _ _ _ _ _ _ _ Hq) as (c & _ & Hl & _).
      destruct evs1 as [|ev evs1 _] using rev_ind; [discriminate Hl|].
      rewrite last_snoc in Hl. injection Hl as ->.
      change (EvLog "Falling back to direct query" :: evs1 ++ [EvExecute c ?s])
        with ([EvLog "Falling back to direct query"] ++ evs1 ++ [EvExecute c s]).
      count_events. lia. }
    intros H. injection H as <- <- <-.
    unfold answerBody. cbn [ab_usedAgent ab_answer ab_sql ab_results ab_rowCount
      ab_toolName ab_agentName ab_duration aa_answer aa_sql aa_results aa_toolName
      from_option].
    split; [|split; [discriminate|reflexivity]].
    intros _. repeat split; [apply fallbackAnswer_truthy|exact Hex].
  - intros H. injection H as <- <- <-.
    unfold answerBody. cbn [ab_usedAgent ab_answer ab_sql ab_results ab_rowCount
      ab_toolName ab_agentName ab_duration].
    split; [discriminate|]. split; [|reflexivity]. intros _. repeat split.
Qed.

Lemma POST_answer_kinds_witness :
  exists body st' evs,
    POST sample_crypto (world_pat "abc123")
      (sample_request (FetchOk {| ar_content := Some [text_item "12 cameras."] |}))
      (always (ok_attempt (world_pat "abc123") [])) initialProcess
    = (JsonAnswer body, st', evs)
    /\ ab_agentName body = Some "DEMO.DEMO.NYC_OPS_CENTER_AGENT" /\ evs = [].
Proof.
  eexists _, _, _. split; [reflexivity|].
  destruct (proj1 (proj2 (POST_answer_kinds sample_crypto (world_pat "abc123")
              (sample_request (FetchOk {| ar_content := Some [text_item "12 cameras."] |}))
              (always (ok_attempt (world_pat "abc123") [])) initialProcess _ _ _ eq_refl))
              eq_refl) as (H1 & _ & _ & H2).
  split; assumption.
Defined.

(** X13. When neither a PAT nor a key pair with a username is configured,
    the agent is never reached: whatever [fetch] would have done, every
    request with a question is served by the fallback statement through
    [query], even though the SQL session itself may well connect, under
    oauth or password. *)
Theorem POST_without_agent_credential (lib : Crypto) (w : World) (rq : Request)
    (o : nat -> Attempt) (st : Process) (question : string) :
  truthy (env w !! "SNOWFLAKE_PAT") = false ->
  truthy (getPrivateKey w) && truthy (env w !! "SNOWFLAKE_USER") = false ->
  rq_body rq = inr (Some question) -> question <> EmptyString ->
  callCortexAgent lib w (rq_jwt_now rq) question (rq_fetch rq) = inl noAuthMethod
  /\ (POST lib w rq o st).2
     = EvLog "Falling back to direct query"
         :: (query (fallbackSql question) defaultRetries o st).2
  /\ (forall rows st' evs,
        query (fallbackSql question) defaultRetries o st = (inr rows, st', evs) ->
        exists body, (POST lib w rq o st).1 = (JsonAnswer body, st')
                     /\ ab_usedAgent body = false
                     /\ ab_answer body = fallbackAnswer rows).
Proof.
  intros Hpat Hkey Hbody Hne.
  assert (callCortexAgent lib w (rq_jwt_now rq) question (rq_fetch rq) = inl noAuthMethod)
    as Hagent.
  { unfold callCortexAgent, getAuthToken. rewrite Hpat, Hkey. reflexivity. }
  split; [exact Hagent|].
  unfold POST. rewrite Hbody, (truthy_Some _ Hne). cbn [negb from_option id].
  rewrite Hagent.
  change (includes "aborted" (message_of noAuthMethod) || err_is_DOMException noAuthMethod)
    with false.
  cbn match. unfold fallbackToDirectQuery.
  destruct (query (fallbackSql question) defaultRetries o st) as [[[e|rows] st1] evs1].
  - split; [reflexivity|]. intros rows st' evs H. discriminate H.
  - split; [reflexivity|]. intros rows' st' evs H. injection H as <- <- <-.
    eexists. split; [reflexivity|]. split; reflexivity.
Qed.

Lemma POST_without_agent_credential_witness :
  exists body st',
    (POST sample_crypto world_password
       (sample_request (FetchOk {| ar_content := Some [text_item "never read"] |}))
       (always (ok_attempt world_password [answer_row "Light traffic."])) initialProcess).1
    = (JsonAnswer body, st')
    /\ ab_usedAgent body = false /\ ab_answer body = "Light traffic.".
Proof.
  destruct (proj2 (proj2 (POST_without_agent_credential sample_crypto world_password
              (sample_request (FetchOk {| ar_content := Some [text_item "never read"] |}))
              (always (ok_attempt world_password [answer_row "Light traffic."]))
              initialProcess "How's traffic?" eq_refl eq_refl eq_refl ltac:(discriminate)))
              _ _ _ eq_refl) as (body & H1 & H2 & H3).
  exists body. eexists. split; [exact H1|]. split; [exact H2|].
  rewrite H3. reflexivity.
Defined.

(** ** Data routes *)

(** X14. Each data route answers either the rows with its own
    [Cache-Control] header or a 500 carrying its own fixed message: nothing
    of the failure reaches the caller.  A request submits at most two
    statements, and a first attempt that fails with a retryable error is
    invisible to the caller when the second succeeds. *)
Theorem dataGET_responses (r : RouteSpec) (o : nat -> Attempt) (st : Process) :
  ((dataGET r o st).1.1 = DataError 500 (rt_failure r)
   \/ exists rows, (dataGET r o st).1.1 = DataRows rows (rt_cache r))
  /\ (executes (dataGET r o st).2 <= 2)%nat
  /\ (forall e st1 evs1 rows st2 evs2,
        attempt (rt_sql r) (o 0%nat) st = (inl e, st1, evs1) ->
        isRetryableError e = true ->
        attempt (rt_sql r) (o 1%nat) (dropConnection st1) = (inr rows, st2, evs2) ->
        (dataGET r o st).1 = (DataRows rows (rt_cache r), st2))
  /\ (forall e st1 evs1,
        attempt (rt_sql r) (o 0%nat) st = (inl e, st1, evs1) ->
        isRetryableError e = false ->
        dataGET r o st
        = (DataError 500 (rt_failure r), st1, evs1 ++ [EvQueryError (err_message e)])).
Proof.
  unfold dataGET.
  pose proof (query_bounded (rt_sql r) defaultRetries o st) as (Hb & _ & _).
  split; [|split; [|split]].
  - destruct (query _ _ o st) as [[[e|rows] st'] evs]; [left|right; exists rows]; reflexivity.
  - destruct (query _ _ o st) as [[[e|rows] st'] evs]; exact Hb.
  - intros e st1 evs1 rows st2 evs2 Ha1 Hr Ha2.
    rewrite query_body, Ha1. unfold defaultRetries. rewrite Hr. cbn [Z.ltb Z.compare andb].
    rewrite (query_success _ (1 - 1) (later o) (dropConnection st1) rows st2 evs2 Ha2).
    reflexivity.
  - intros e st1 evs1 Ha Hr.
    rewrite (query_no_retry _ _ o st e st1 evs1 Ha (or_introl Hr)). reflexivity.
Qed.

Lemma dataGET_responses_witness :
  (dataGET thermalRoute (fail_then_ok (world_oauth "tok1") expiredToken [answer_row "21.5"])
     initialProcess).1.1
  = DataRows [answer_row "21.5"] "public, s-maxage=30, stale-while-revalidate=60"
  /\ (dataGET camerasRoute (always (failing_attempt (world_pat "abc123") syntaxError))
        initialProcess).1.1
     = DataError 500 "Failed to fetch camera data".
Proof.
  split.
  - rewrite (proj1 (proj2 (proj2 (dataGET_responses thermalRoute
               (fail_then_ok (world_oauth "tok1") expiredToken [answer_row "21.5"])
               initialProcess)))
               expiredToken _ _ [answer_row "21.5"] _ _ eq_refl eq_refl eq_refl).
    reflexivity.
  - rewrite (proj2 (proj2 (proj2 (dataGET_responses camerasRoute
               (always (failing_attempt (world_pat "abc123") syntaxError)) initialProcess)))
               syntaxError _ _ eq_refl eq_refl).
    reflexivity.
Defined.

(** ** Export route: the CSV text *)

Lemma option_fmap_id {A} (x : option A) : (fun t => t) <$> x = x.
Proof. destruct x; reflexivity. Qed.

Lemma option_fmap_fmap {A B C} (f : A -> B) (g : B -> C) (x : option A) :
  g <$> (f <$> x) = (fun t => g (f t)) <$> x.
Proof. destruct x; reflexivity. Qed.

Lemma plain_text_cons c s :
  plain_text (String c s) = true ->
  c <> ","%char /\ c <> chr_dq /\ c <> chr_nl /\ plain_text s = true.
Proof.
  unfold plain_text. rewrite !negb_true_iff, !orb_false_iff.
  intros [[H1 H2] H3].
  apply includes_char_cons in H1 as [H1 H1'].
  apply includes_char_cons in H2 as [H2 H2'].
  apply includes_char_cons in H3 as [H3 H3'].
  repeat split; try congruence; assumption.
Qed.

Lemma csv_read_start_end rest :
  cell_end rest -> csv_read CsvStart rest = csv_read CsvPlain rest.
Proof.
  destruct rest as [|c rest]; [reflexivity|]. intros [->| ->]; reflexivity.
Qed.

Lemma csv_read_plain t rest :
  plain_text t = true ->
  csv_read CsvPlain (t +:+ rest) = push_cell t <$> csv_read CsvPlain rest.
Proof.
  induction t as [|c t IH]; intros H.
  - rewrite app_empty_l. symmetry. apply option_fmap_id.
  - apply plain_text_cons in H as (H1 & H2 & H3 & H).
    rewrite app_cons. cbn [csv_read push_cell].
    rewrite !decide_False by assumption. rewrite (IH H), option_fmap_fmap. reflexivity.
Qed.

Lemma csv_read_start_plain t rest :
  plain_text t = true -> cell_end rest ->
  csv_read CsvStart (t +:+ rest) = push_cell t <$> csv_read CsvPlain rest.
Proof.
  intros H Hend. destruct t as [|c t].
  - rewrite app_empty_l, csv_read_start_end by exact Hend. symmetry. apply option_fmap_id.
  - apply plain_text_cons in H as (H1 & H2 & H3 & H).
    rewrite app_cons. cbn [csv_read push_cell].
    rewrite !decide_False by assumption.
    rewrite (csv_read_plain _ _ H), option_fmap_fmap. reflexivity.
Qed.

Lemma csv_read_quoted s rest :
  cell_end rest ->
  csv_read CsvQuoted (double_dquotes s +:+ String chr_dq rest)
  = push_cell s <$> csv_read CsvPlain rest.
Proof.
  intros Hend. induction s as [|c s IH].
  - rewrite app_empty_l. cbn [csv_read push_cell]. rewrite decide_True by reflexivity.
    rewrite option_fmap_id.
    destruct rest as [|d rest]; [reflexivity|].
    destruct Hend as [->| ->]; reflexivity.
  - cbn [double_dquotes push_cell]. destruct (decide (c = chr_dq)) as [->|Hc].
    + rewrite !app_cons. cbn [csv_read]. rewrite !decide_True by reflexivity.
      rewrite IH, option_fmap_fmap. reflexivity.
    + rewrite app_cons. cbn [csv_read]. rewrite decide_False by assumption.
      rewrite IH, option_fmap_fmap. reflexivity.
Qed.

Lemma csv_read_cell v rest :
  cell_end rest ->
  csv_read CsvStart (csv_cell v +:+ rest)
  = push_cell (default EmptyString v) <$> csv_read CsvPlain rest.
Proof.
  intros Hend. destruct v as [s|]; cbn [csv_cell from_option id].
  - destruct (includes "," s || includes dq s || includes nl s) eqn:E.
    + rewrite !app_assoc_str. unfold dq.
      change (String chr_dq EmptyString +:+ rest) with (String chr_dq rest).
      change (String chr_dq EmptyString +:+ ?x) with (String chr_dq x).
      cbn [csv_read]. rewrite decide_True by reflexivity.
      apply csv_read_quoted, Hend.
    + apply csv_read_start_plain; [|exact Hend]. unfold plain_text. rewrite E. reflexivity.
  - rewrite app_empty_l, csv_read_start_end by exact Hend. symmetry. apply option_fmap_id.
Qed.

Lemma push_cell_head s cell cells rest :
  push_cell s ((cell :: cells) :: rest) = ((s +:+ cell) :: cells) :: rest.
Proof. induction s as [|c s IH]; [reflexivity|]. cbn [push_cell]. rewrite IH. reflexivity. Qed.

Lemma with_cells_record cells rest :
  cells <> [] -> with_cells cells ([EmptyString] :: rest) = cells :: rest.
Proof.
  induction cells as [|c [|c2 cells] IH]; intros H; [congruence| |].
  - cbn. rewrite push_cell_head, app_empty_r. reflexivity.
  - change (with_cells (c :: c2 :: cells) ([EmptyString] :: rest))
      with (push_cell c (new_cell (with_cells (c2 :: cells) ([EmptyString] :: rest)))).
    rewrite IH by discriminate. cbn [new_cell]. rewrite push_cell_head, app_empty_r.
    reflexivity.
Qed.

Lemma csv_read_line cells rest :
  cells <> [] -> cell_end rest ->
  csv_read CsvStart (join "," (csv_cell <$> cells) +:+ rest)
  = with_cells (default EmptyString <$> cells) <$> csv_read CsvPlain rest.
Proof.
  intros Hne Hend. induction cells as [|v [|v2 cells] IH]; [congruence| |].
  - cbn [fmap list_fmap join with_cells]. apply csv_read_cell, Hend.
  - change (join "," (csv_cell <$> v :: v2 :: cells))
      with (csv_cell v +:+ "," +:+ join "," (csv_cell <$> v2 :: cells)).
    rewrite !app_assoc_str. rewrite csv_read_cell by (left; reflexivity).
    change ("," +:+ ?x) with (String ","%char x).
    cbn [csv_read]. rewrite decide_True by reflexivity.
    rewrite IH by discriminate. rewrite !option_fmap_fmap. reflexivity.
Qed.

Lemma csv_read_table (table : list (list (option string))) :
  table <> [] -> Forall (fun cells => cells <> []) table ->
  csv_read CsvStart (join nl ((fun cells : list (option string) => join "," (csv_cell <$> cells)) <$> table))
  = Some ((fun cells : list (option string) => default EmptyString <$> cells) <$> table).
Proof.
  intros Hne Hall. induction table as [|cells [|cells2 table] IH]; [congruence| |].
  - apply Forall_cons in Hall as [Hc _].
    cbn [fmap list_fmap join].
    rewrite <- (app_empty_r (join "," _)).
    rewrite csv_read_line by (auto; exact I).
    cbn. change [[EmptyString]] with ([EmptyString] :: @nil (list string)).
    rewrite with_cells_record; [reflexivity|]. destruct cells; [congruence|discriminate].
  - apply Forall_cons in Hall as [Hc Hall].
    change (join nl ((fun cells : list (option string) => join "," (csv_cell <$> cells)) <$> cells :: cells2 :: table))
      with (join "," (csv_cell <$> cells) +:+ nl
            +:+ join nl ((fun cells : list (option string) => join "," (csv_cell <$> cells)) <$> cells2 :: table)).
    rewrite csv_read_line by (auto; right; reflexivity).
    change (nl +:+ ?x) with (String chr_nl x).
    cbn [csv_read]. rewrite decide_False by discriminate.
    rewrite decide_True by reflexivity.
    rewrite IH by (auto; discriminate). cbn [fmap option_fmap option_map new_record].
    rewrite with_cells_record; [reflexivity|]. destruct cells; [congruence|discriminate].
Qed.

Lemma plain_headers_line headers :
  Forall (fun h => plain_text h = true) headers ->
  join "," headers = join "," (csv_cell <$> (Some <$> headers)).
Proof.
  intros H. f_equal. induction H as [|h headers Hh _ IH]; [reflexivity|].
  cbn [fmap list_fmap]. rewrite <- IH. f_equal.
  cbn [csv_cell]. unfold plain_text in Hh. apply negb_true_iff in Hh. rewrite Hh. reflexivity.
Qed.

Lemma csv_text_table proto first data :
  Forall (fun h => plain_text h = true) (fst <$> first) ->
  csv_text proto first data
  = join nl ((fun cells : list (option string) => join "," (csv_cell <$> cells))
             <$> ((Some <$> (fst <$> first))
                  :: ((fun row : ExportRow => row_get proto row <$> (fst <$> first)) <$> data))).
Proof.
  intros H. unfold csv_text. cbn [fmap list_fmap]. f_equal.
  rewrite (plain_headers_line _ H). f_equal.
  rewrite <- list_fmap_compose. apply list_fmap_ext. intros _ row _.
  unfold csv_line. cbn [compose]. f_equal.
  rewrite <- (list_fmap_compose (row_get proto row) csv_cell). reflexivity.
Qed.

Lemma default_Some_fmap (l : list string) : default EmptyString <$> (Some <$> l) = l.
Proof. induction l as [|x l IH]; [reflexivity|]. cbn. rewrite IH. reflexivity. Qed.

(** X15. For a non-empty data array whose first row has at least one key,
    all keys free of commas, double quotes and newlines, a CSV export
    answers a [text/csv] attachment whose text reads back, cell for cell, as
    the keys of the first row followed by one record per row holding, for
    each key, what the row gives under it (its own value, or else what it
    inherits; empty for null and for nothing at all): commas, quotes and
    newlines inside values survive. *)
Theorem exportPOST_csv_round_trip (proto : string -> option string)
    (stringify : list ExportRow -> string)
    (payload : ExportPayload) (first : ExportRow) (rest : list ExportRow) :
  ep_data payload = Some (first :: rest) ->
  ep_format payload = Some "csv" ->
  first <> [] ->
  Forall (fun h => plain_text h = true) (fst <$> first) ->
  exists body,
    exportPOST proto stringify (inr payload)
    = ExportFile body "text/csv" (attachment (ep_filename payload) ".csv")
    /\ csv_read CsvStart body
       = Some ((fst <$> first)
               :: ((fun row : ExportRow => (fun h => default EmptyString (row_get proto row h)) <$> (fst <$> first))
                   <$> (first :: rest))).
Proof.
  intros Hdata Hformat Hne Hplain.
  exists (csv_text proto first (first :: rest)). split.
  - unfold exportPOST. rewrite Hdata, Hformat.
    rewrite bool_decide_eq_true_2 by reflexivity. reflexivity.
  - rewrite (csv_text_table _ _ _ Hplain).
    rewrite csv_read_table.
    + rewrite fmap_cons, default_Some_fmap. f_equal. f_equal.
      rewrite <- list_fmap_compose. apply list_fmap_ext. intros _ row _.
      cbn [compose]. rewrite <- list_fmap_compose. reflexivity.
    + discriminate.
    + assert (fst <$> first <> []) as Hh by (destruct first; [congruence|discriminate]).
      constructor.
      * destruct (fst <$> first); [congruence|discriminate].
      * apply Forall_fmap, Forall_forall. intros row _. cbn.
        destruct (fst <$> first); [congruence|discriminate].
Qed.

Lemma exportPOST_csv_round_trip_witness :
  exists body,
    exportPOST sample_proto (fun _ => EmptyString)
      (inr {| ep_data := Some sample_rows; ep_filename := None; ep_format := Some "csv" |})
    = ExportFile body "text/csv" (attachment None ".csv")
    /\ csv_read CsvStart body
       = Some [["ROADWAY"; "DETAILS"];
               ["FDR Drive"; "closed, use " +:+ dq +:+ "alt" +:+ dq +:+ " route"];
               [EmptyString; EmptyString]].
Proof.
  destruct (exportPOST_csv_round_trip sample_proto (fun _ => EmptyString)
              {| ep_data := Some sample_rows; ep_filename := None; ep_format := Some "csv" |}
              _ _ eq_refl eq_refl ltac:(discriminate)
              ltac:(repeat constructor)) as (body & H1 & H2).
  exists body. split; [exact H1|exact H2].
Defined.

(** ** Export route: which columns are written *)

Lemma row_get_restrict proto headers row h :
  h ∈ headers -> row_get proto (restrict headers row) h = row_get proto row h.
Proof.
  intros Hh. unfold restrict. induction row as [|[k v] row IH]; [reflexivity|].
  rewrite filter_cons. cbn [fst row_get].
  destruct (decide (k ∈ headers)) as [Hk|Hk]; cbn [row_get].
  - rewrite IH. reflexivity.
  - rewrite IH. destruct (String.eqb k h) eqn:E; [|reflexivity].
    apply String.eqb_eq in E. subst k. contradiction.
Qed.

(** X16. The columns of a CSV export are the keys of the first row and
    nothing else: an entry of a row under a key the first row does not have
    never reaches the file, so the text is the one obtained from the rows
    cut down to the keys of the first row; and the text has one line of
    keys and then one line per row, each with as many cells as the first
    row has keys. *)
Theorem csv_text_first_row_columns (proto : string -> option string) (first : ExportRow)
    (data : list ExportRow) :
  csv_text proto first data = csv_text proto first (restrict (fst <$> first) <$> data)
  /\ (exists lines,
        csv_text proto first data = join nl (join "," (fst <$> first) :: lines)
        /\ length lines = length data
        /\ Forall (fun line => exists cells,
                      line = join "," cells /\ length cells = length first) lines).
Proof.
  assert (forall row, csv_line proto (fst <$> first) row
                      = csv_line proto (fst <$> first) (restrict (fst <$> first) row))
    as Hline.
  { intros row. unfold csv_line. f_equal. apply list_fmap_ext. intros i h Hi.
    rewrite row_get_restrict; [reflexivity|]. eapply list_elem_of_lookup_2, Hi. }
  split.
  - unfold csv_text. cbn zeta. f_equal. f_equal.
    rewrite <- list_fmap_compose. apply list_fmap_ext. intros _ row _. apply Hline.
  - exists (csv_line proto (fst <$> first) <$> data). split; [reflexivity|].
    split; [apply length_fmap|].
    apply Forall_fmap, Forall_forall. intros row _. cbn. unfold csv_line.
    eexists. split; [reflexivity|]. rewrite !length_fmap. reflexivity.
Qed.

(** ** Session manager: a session obtained is kept *)

(** X17. Once [getConnection] has returned a session, calling it again in
    an unchanged world returns the same session with no driver call and no
    change of state, whether the first call connected or reused. *)
Theorem getConnection_stable (w : World) (co co' : ConnectOutcome) (st st' : Process)
    (conn : Connection) (evs : list Event) :
  getConnection w co st = (inr conn, st', evs) ->
  getConnection w co' st' = (inr conn, st', [])
  /\ (forall sql a, at_world a = w ->
        (attempt sql a st').2 = [EvExecute conn sql]).
Proof.
  intros H.
  assert (forall co2, reused w co2 st' conn) as Hre.
  { intros co2. pose proof (getConnection_ok_live _ _ _ _ _ _ H) as Hc.
    apply (proj1 (getConnection_live w co2 st' conn Hc)).
    revert H. unfold getConnection. destruct (connection st) as [c|] eqn:Hcs.
    - destruct (bool_decide _ && _) eqn:Hb.
      + intros H. injection H as <- <- _. apply reuse_test. exact Hb.
      + destruct (getConfig w) as [cfg warned]. destruct (connect_failure co); [discriminate|].
        intros H. injection H as _ <- _. cbn. split; [reflexivity|].
        intros Ho. rewrite decide_True by exact Ho. reflexivity.
    - destruct (getConfig w) as [cfg warned]. destruct (connect_failure co); [discriminate|].
      intros H. injection H as _ <- _. cbn. split; [reflexivity|].
      intros Ho. rewrite decide_True by exact Ho. reflexivity. }
  split; [apply Hre|].
  intros sql a <-. unfold attempt. rewrite (Hre (at_connect a)).
  destruct (at_execute a); reflexivity.
Qed.

Lemma getConnection_stable_witness :
  exists conn st',
    getConnection (world_pat "abc123") Connects initialProcess
    = (inr conn, st', [EvLog "Connecting with pat authentication"; EvConnect conn])
    /\ getConnection (world_pat "abc123") Connects st' = (inr conn, st', []).
Proof.
  eexists _, _. split; [reflexivity|].
  apply (proj1 (getConnection_stable (world_pat "abc123") Connects Connects initialProcess _ _ _
                  eq_refl)).
Defined.

(** ** JWT signer: the identity and the encoding *)

Lemma first_segment_no_sep sep s : includes (String sep EmptyString) (first_segment sep s) = false.
Proof.
  induction s as [|c s IH]; [reflexivity|]. cbn [first_segment].
  destruct (decide (c = sep)) as [|Hc]; [reflexivity|].
  cbn [includes starts_with]. rewrite decide_False by congruence. exact IH.
Qed.

Lemma first_segment_app_no_sep sep a b :
  includes (String sep EmptyString) a = false ->
  first_segment sep (a +:+ String sep b) = a.
Proof.
  induction a as [|c a IH]; intros H.
  - rewrite app_empty_l. cbn. rewrite decide_True by reflexivity. reflexivity.
  - apply includes_char_cons in H as [Hc H]. rewrite app_cons. cbn [first_segment].
    rewrite decide_False by congruence. rewrite (IH H). reflexivity.
Qed.

Lemma upper_char_idem c : upper_char (upper_char c) = upper_char c.
Proof. destruct c as [[] [] [] [] [] [] [] []]; reflexivity. Qed.

Lemma toUpperCase_idem s : toUpperCase (toUpperCase s) = toUpperCase s.
Proof.
  induction s as [|c s IH]; [reflexivity|]. cbn. rewrite upper_char_idem, IH. reflexivity.
Qed.

(** X18. The account part of the qualified identity never holds a dot, so
    the identity splits at its first dot into the normalised account and
    the rest; and the identity does not depend on the case of the account
    and of the username. *)
Theorem qualifiedUsername_account_part (account user : string) :
  includes "." (normalizeAccount account) = false
  /\ first_segment chr_dot (qualifiedUsername account user) = normalizeAccount account
  /\ qualifiedUsername (toUpperCase account) (toUpperCase user)
     = qualifiedUsername account user.
Proof.
  split; [apply (first_segment_no_sep chr_dot)|]. split.
  - unfold qualifiedUsername.
    change ("." +:+ toUpperCase user) with (String chr_dot (toUpperCase user)).
    apply first_segment_app_no_sep, (first_segment_no_sep chr_dot).
  - unfold qualifiedUsername, normalizeAccount. rewrite !toUpperCase_idem. reflexivity.
Qed.

Lemma after_first_segment_app_no_sep sep a b :
  includes (String sep EmptyString) a = false ->
  after_first_segment sep (a +:+ String sep b) = String sep b.
Proof.
  induction a as [|c a IH]; intros H.
  - rewrite app_empty_l. cbn. rewrite decide_True by reflexivity. reflexivity.
  - apply includes_char_cons in H as [Hc H]. rewrite app_cons. cbn [after_first_segment].
    rewrite decide_False by congruence. apply (IH H).
Qed.

(** X19. A token that [generateJWT] returns can be taken apart again: cut
    at its first dot it gives a segment that decodes to the JSON text of the
    header; what follows, cut at the next dot, gives a segment that decodes
    to the JSON text of the payload built from the configured account and
    user, the fingerprint the crypto library gave for the resolved key and
    the clock in whole seconds; and what is left is the signature the
    library gave for the first two segments joined by a dot. *)
Theorem generateJWT_token_parts (lib : Crypto) (w : World) (nowMs : Z) (token : string) :
  (generateJWT lib w nowMs).1 = inr token ->
  let headerB64 := first_segment chr_dot token in
  let afterHeader := drop_chars 1 (after_first_segment chr_dot token) in
  let payloadB64 := first_segment chr_dot afterHeader in
  let signature := drop_chars 1 (after_first_segment chr_dot afterHeader) in
  exists key fp,
    getPrivateKey w = Some key /\ key <> EmptyString
    /\ spkiFingerprint lib key = inr fp
    /\ rsaSha256Sign lib key (headerB64 +:+ "." +:+ payloadB64) = inr signature
    /\ base64url_decode headerB64 = Some (json_stringify jwtHeader)
    /\ base64url_decode payloadB64
       = Some (json_stringify
                 (jwtPayload
                    (qualifiedUsername (or_default (env w !! "SNOWFLAKE_ACCOUNT") EmptyString)
                       (or_default (env w !! "SNOWFLAKE_USER") EmptyString))
                    fp (nowMs `div` 1000)))
    /\ token = headerB64 +:+ "." +:+ payloadB64 +:+ "." +:+ signature.
Proof.
  unfold generateJWT.
  destruct (getPrivateKey w) as [[|c key]|]; try discriminate.
  cbn [str_truthy].
  destruct (spkiFingerprint lib (String c key)) as [e|fp] eqn:Hfp; [discriminate|].
  cbn zeta.
  set (h := encode jwtHeader).
  match goal with
  | |- context [encode (jwtPayload ?q fp ?n)] => set (p := encode (jwtPayload q fp n))
  end.
  destruct (rsaSha256Sign lib (String c key) (h +:+ "." +:+ p)) as [e|sig] eqn:Hsig;
    [discriminate|].
  cbn [fst]. intros H. injection H as <-.
  assert (includes "." h = false) as Hh by (apply base64url_alphabet_only; reflexivity).
  assert (includes "." p = false) as Hp by (apply base64url_alphabet_only; reflexivity).
  change (h +:+ "." +:+ p +:+ "." +:+ sig)
    with (h +:+ String chr_dot (p +:+ String chr_dot sig)).
  cbn zeta.
  rewrite (first_segment_app_no_sep chr_dot h _ Hh).
  rewrite (after_first_segment_app_no_sep chr_dot h _ Hh). cbn [drop_chars].
  rewrite (first_segment_app_no_sep chr_dot p _ Hp).
  rewrite (after_first_segment_app_no_sep chr_dot p _ Hp). cbn [drop_chars].
  exists (String c key), fp.
  split; [reflexivity|]. split; [discriminate|]. split; [exact Hfp|].
  split; [exact Hsig|]. split; [apply base64url_decode_encode|].
  split; [apply base64url_decode_encode|reflexivity].
Qed.

Lemma generateJWT_token_parts_witness :
  exists token,
    (generateJWT sample_crypto world_inline_key 1700000000123).1 = inr token
    /\ first_segment chr_dot token = "eyJhbGciOiJSUzI1NiIsInR5cCI6IkpXVCJ9"
    /\ base64url_decode (first_segment chr_dot token) = Some (json_stringify jwtHeader).
Proof.
  eexists. split; [reflexivity|]. split; [reflexivity|].
  destruct (generateJWT_token_parts sample_crypto world_inline_key 1700000000123 _ eq_refl)
    as (key & fp & _ & _ & _ & _ & H & _).
  exact H.
Defined.

(** ** Authentication test script *)

Lemma script_getPrivateKey_agrees w key :
  TestAuth.getPrivateKey w = inr key -> getPrivateKey w = key.
Proof.
  unfold TestAuth.getPrivateKey, getPrivateKey.
  destruct (truthy (env w !! "SNOWFLAKE_PRIVATE_KEY")); [congruence|].
  destruct (env w !! "SNOWFLAKE_PRIVATE_KEY_PATH") as [p|]; [|cbn; congruence].
  cbn [truthy option_bind mbind]. destruct (str_truthy p); [|congruence].
  cbn. unfold read_if_exists. destruct (files w !! p) as [[c|]|]; congruence.
Qed.

Lemma script_detect_agrees w m :
  TestAuth.detectAuthMethod w = inr m -> detectAuthMethod w = m.
Proof.
  unfold TestAuth.detectAuthMethod, detectAuthMethod.
  destruct (truthy (getOAuthToken w)); [congruence|].
  destruct (TestAuth.getPrivateKey w) as [e|key] eqn:Hk; [discriminate|].
  rewrite (script_getPrivateKey_agrees _ _ Hk).
  destruct (truthy key && _); [congruence|].
  destruct (truthy (env w !! "SNOWFLAKE_PAT")); [congruence|].
  destruct (truthy (env w !! "SNOWFLAKE_PASSWORD")); congruence.
Qed.

Lemma script_detect_total w key :
  TestAuth.getPrivateKey w = inr key ->
  TestAuth.detectAuthMethod w = inr (detectAuthMethod w).
Proof.
  intros Hk. unfold TestAuth.detectAuthMethod, detectAuthMethod.
  destruct (truthy (getOAuthToken w)); [reflexivity|].
  rewrite Hk, (script_getPrivateKey_agrees _ _ Hk).
  destruct (truthy key && _); [reflexivity|].
  destruct (truthy (env w !! "SNOWFLAKE_PAT")); [reflexivity|].
  destruct (truthy (env w !! "SNOWFLAKE_PASSWORD")); reflexivity.
Qed.

Lemma sc_connects_app a b : sc_connects (a ++ b) = (sc_connects a + sc_connects b)%nat.
Proof. unfold sc_connects. rewrite List.filter_app, length_app. reflexivity. Qed.

Lemma sc_executes_app a b : sc_executes (a ++ b) = (sc_executes a + sc_executes b)%nat.
Proof. unfold sc_executes. rewrite List.filter_app, length_app. reflexivity. Qed.

Lemma sc_destroys_app a b : sc_destroys (a ++ b) = (sc_destroys a + sc_destroys b)%nat.
Proof. unfold sc_destroys. rewrite List.filter_app, length_app. reflexivity. Qed.

(** One tested connection: it rejects exactly when [createConnection]
    throws; otherwise it connects once, and it is destroyed exactly when the
    statement was submitted. *)
Lemma testConnection_cases config p :
  (exists e, TestAuth.pr_create p = Some e /\ TestAuth.testConnection config p = (inl e, []))
  \/ (TestAuth.pr_create p = None
      /\ exists result evs,
           TestAuth.testConnection config p = (inr result, evs)
           /\ TestAuth.cr_success result = probe_ok p
           /\ sc_connects evs = 1%nat
           /\ sc_destroys evs = sc_executes evs
           /\ (sc_executes evs <= 1)%nat
           /\ head evs = Some (TestAuth.ScConnect config)).
Proof.
  unfold TestAuth.testConnection, probe_ok.
  destruct (TestAuth.pr_create p) as [e|]; [left; eauto|right].
  split; [reflexivity|].
  destruct (TestAuth.pr_connect p) as [err|].
  - eexists _, _. split; [reflexivity|]. cbn. repeat split; lia.
  - destruct (TestAuth.pr_execute p) as [err2|rows].
    + eexists _, _. split; [reflexivity|]. cbn. repeat split; lia.
    + eexists _, _. split; [reflexivity|]. cbn. repeat split; lia.
Qed.

Lemma runCases_ok cases probes results evs :
  TestAuth.runCases cases probes = (inr results, evs) ->
  TestAuth.tr_method <$> results = TestAuth.tc_method <$> cases
  /\ TestAuth.tr_status <$> results = case_status probes <$> cases
  /\ Forall (fun c => TestAuth.tc_configured c = true ->
                      TestAuth.pr_create (probes (TestAuth.tc_method c)) = None) cases
  /\ sc_connects evs = length (List.filter TestAuth.tc_configured cases)
  /\ sc_destroys evs = sc_executes evs
  /\ (sc_executes evs <= sc_connects evs)%nat.
Proof.
  revert results evs. induction cases as [|c cases IH]; intros results evs.
  - cbn. intros H. injection H as <- <-. repeat split; auto.
  - cbn [TestAuth.runCases].
    destruct (TestAuth.tc_configured c) eqn:Hc.
    + destruct (testConnection_cases (TestAuth.tc_config c) (probes (TestAuth.tc_method c)))
        as [(e & _ & ->)|(Hcr & result & evs0 & -> & Hs & H1 & H2 & H3 & _)];
        [discriminate|].
      destruct (TestAuth.runCases cases probes) as [[e|results'] evs'] eqn:Hr; [discriminate|].
      intros H. injection H as <- <-.
      destruct (IH _ _ eq_refl) as (I1 & I2 & I3 & I4 & I5 & I6).
      rewrite !fmap_cons, I1, I2.
      rewrite sc_connects_app, sc_destroys_app, sc_executes_app.
      cbn [List.filter]. rewrite Hc. cbn [length].
      split; [reflexivity|]. split.
      { f_equal. unfold case_status. rewrite Hc. cbn. rewrite Hs. reflexivity. }
      split; [constructor; [intros _; exact Hcr|exact I3]|].
      repeat split; lia.
    + destruct (TestAuth.runCases cases probes) as [[e|results'] evs'] eqn:Hr; [discriminate|].
      intros H. injection H as <- <-.
      destruct (IH _ _ eq_refl) as (I1 & I2 & I3 & I4 & I5 & I6).
      rewrite !fmap_cons, I1, I2. cbn [List.filter]. rewrite Hc.
      split; [reflexivity|]. split.
      { f_equal. unfold case_status. rewrite Hc. reflexivity. }
      split; [constructor; [congruence|exact I3]|].
      repeat split; assumption.
Qed.

Lemma runCases_rejects cases probes e evs :
  TestAuth.runCases cases probes = (inl e, evs) ->
  exists c e', In c cases /\ TestAuth.tc_configured c = true
               /\ TestAuth.pr_create (probes (TestAuth.tc_method c)) = Some e'
               /\ e = TestAuth.CreateFailed e'.
Proof.
  revert evs. induction cases as [|c cases IH]; intros evs; [discriminate|].
  cbn [TestAuth.runCases]. destruct (TestAuth.tc_configured c) eqn:Hc.
  - destruct (testConnection_cases (TestAuth.tc_config c) (probes (TestAuth.tc_method c)))
      as [(e' & He' & ->)|(Hcr & result & evs0 & -> & _)].
    + intros H. injection H as <- <-. exists c, e'. repeat split; auto. left; reflexivity.
    + destruct (TestAuth.runCases cases probes) as [[e1|results'] evs'] eqn:Hr; [|discriminate].
      intros H. injection H as <- <-.
      destruct (IH _ eq_refl) as (c' & e' & Hin & H1 & H2 & H3).
      exists c', e'. repeat split; auto. right; exact Hin.
  - destruct (TestAuth.runCases cases probes) as [[e1|results'] evs'] eqn:Hr; [|discriminate].
    intros H. injection H as <- <-.
    destruct (IH _ eq_refl) as (c' & e' & Hin & H1 & H2 & H3).
    exists c', e'. repeat split; auto. right; exact Hin.
Qed.

(** The four test blocks test the methods in priority order, each under the
    condition under which the session manager would select it were the ones
    before it absent. *)
Lemma tests_table w key :
  getPrivateKey w = key ->
  TestAuth.tc_method <$> TestAuth.tests w key = testable
  /\ TestAuth.tc_configured <$> TestAuth.tests w key = applies w <$> testable.
Proof. intros <-. split; reflexivity. Qed.

Lemma case_status_tests w probes key :
  getPrivateKey w = key ->
  case_status probes <$> TestAuth.tests w key = expected_status w probes <$> testable.
Proof. intros <-. reflexivity. Qed.

Lemma runTests_inr w probes results evs :
  TestAuth.runTests w probes = (inr results, evs) ->
  exists key tested,
    TestAuth.getPrivateKey w = inr key
    /\ TestAuth.runCases (TestAuth.tests w key) probes = (inr tested, evs)
    /\ results = tested ++ [TestAuth.browserResult].
Proof.
  unfold TestAuth.runTests.
  destruct (TestAuth.detectAuthMethod w) as [e|detected]; [discriminate|].
  destruct (TestAuth.getPrivateKey w) as [e|key]; [discriminate|].
  destruct (TestAuth.runCases _ probes) as [[e|tested] evs'] eqn:Hr; [discriminate|].
  intros H. injection H as <- <-. eauto.
Qed.

Lemma runTests_statuses w probes results evs :
  TestAuth.runTests w probes = (inr results, evs) ->
  TestAuth.tr_method <$> results = priority
  /\ TestAuth.tr_status <$> results = expected_status w probes <$> priority.
Proof.
  intros H. destruct (runTests_inr _ _ _ _ H) as (key & tested & Hk & Hr & ->).
  apply script_getPrivateKey_agrees in Hk.
  destruct (runCases_ok _ _ _ _ Hr) as (I1 & I2 & _).
  rewrite !fmap_app, I1, I2, (proj1 (tests_table w key Hk)), (case_status_tests w probes key Hk).
  split; reflexivity.
Qed.

(** X20. When [runTests] returns, it returns five results, one per method
    in priority order.  The status of each is decided by the configuration
    and the driver alone: browser is always skipped; another method is
    skipped when its credential is not configured, and otherwise succeeds
    exactly when its connection is made and its statement runs.  One
    connection is opened per method that is not skipped, and every
    connection that had its statement submitted has been destroyed. *)
Theorem runTests_results (w : World) (probes : AuthMethod -> TestAuth.Probe)
    (results : list TestAuth.TestResult) (evs : list TestAuth.ScriptEvent) :
  TestAuth.runTests w probes = (inr results, evs) ->
  TestAuth.tr_method <$> results = priority
  /\ TestAuth.tr_status <$> results = expected_status w probes <$> priority
  /\ sc_connects evs
     = length (filter (fun r => TestAuth.tr_status r <> TestAuth.skipped) results)
  /\ sc_destroys evs = sc_executes evs
  /\ (sc_executes evs <= sc_connects evs <= 4)%nat.
Proof.
  intros H. destruct (runTests_statuses _ _ _ _ H) as (Hm & Hs).
  split; [exact Hm|]. split; [exact Hs|].
  destruct (runTests_inr _ _ _ _ H) as (key & tested & Hk & Hr & ->).
  apply script_getPrivateKey_agrees in Hk.
  destruct (runCases_ok _ _ _ _ Hr) as (I1 & I2 & _ & I4 & I5 & I6).
  split; [|split; [exact I5|]].
  - rewrite I4, filter_app. cbn [filter]. rewrite filter_cons_False, filter_nil, app_nil_r
      by (intros Hn; apply Hn; reflexivity).
    rewrite (case_status_tests w probes key Hk) in I2. subst key.
    clear -I2.
    assert (forall (l : list TestAuth.TestResult) (cs : list TestAuth.TestCase),
              TestAuth.tr_status <$> l = case_status probes <$> cs ->
              length (List.filter TestAuth.tc_configured cs)
              = length (filter (fun r => TestAuth.tr_status r <> TestAuth.skipped) l)) as Hgen.
    { induction l as [|r l IH]; intros [|c cs] Hl; try discriminate; [reflexivity|].
      rewrite !fmap_cons in Hl. injection Hl as Hr Hl. cbn [List.filter].
      rewrite filter_cons. unfold case_status in Hr.
      destruct (TestAuth.tc_configured c).
      - rewrite decide_True by (rewrite Hr; destruct (probe_ok _); discriminate).
        cbn [length]. f_equal. apply IH, Hl.
      - rewrite decide_False by (rewrite Hr; intros Hn; apply Hn; reflexivity).
        apply IH, Hl. }
    apply Hgen. rewrite I2. reflexivity.
  - split; [exact I6|]. rewrite I4.
    pose proof (List.filter_length_le TestAuth.tc_configured
                  (TestAuth.tests w key)) as Hle.
    cbn [length TestAuth.tests] in Hle. exact Hle.
Qed.

Lemma runTests_results_witness :
  exists results evs,
    TestAuth.runTests world_key_and_pat key_rejected = (inr results, evs)
    /\ TestAuth.tr_status <$> results
       = [TestAuth.skipped; TestAuth.failed; TestAuth.success; TestAuth.skipped;
          TestAuth.skipped]
    /\ sc_connects evs = 2%nat.
Proof.
  eexists _, _. split; [reflexivity|].
  destruct (runTests_results world_key_and_pat key_rejected _ _ eq_refl)
    as (_ & Hs & Hc & _).
  split; [exact Hs|exact Hc].
Defined.

Lemma detect_by_applies w :
  detectAuthMethod w
  = if applies w oauth then oauth
    else if applies w keypair then keypair
    else if applies w pat then pat
    else if applies w password then password
    else browser.
Proof. reflexivity. Qed.

Lemma five_results (results : list TestAuth.TestResult) (f : AuthMethod -> TestAuth.Status) :
  TestAuth.tr_method <$> results = priority ->
  TestAuth.tr_status <$> results = f <$> priority ->
  exists r1 r2 r3 r4 r5,
    results = [r1; r2; r3; r4; r5]
    /\ TestAuth.tr_method r1 = oauth /\ TestAuth.tr_method r2 = keypair
    /\ TestAuth.tr_method r3 = pat /\ TestAuth.tr_method r4 = password
    /\ TestAuth.tr_method r5 = browser
    /\ TestAuth.tr_status r1 = f oauth /\ TestAuth.tr_status r2 = f keypair
    /\ TestAuth.tr_status r3 = f pat /\ TestAuth.tr_status r4 = f password
    /\ TestAuth.tr_status r5 = f browser.
Proof.
  intros Hm Hs.
  destruct results as [|r1 [|r2 [|r3 [|r4 [|r5 [|]]]]]]; try discriminate Hm.
  cbn in Hm, Hs. injection Hm as M1 M2 M3 M4 M5. injection Hs as S1 S2 S3 S4 S5.
  exists r1, r2, r3, r4, r5. repeat split; assumption.
Qed.

Ltac settle_decide :=
  repeat match goal with
         | |- context [decide ?P] =>
             first [ rewrite (decide_True (P := P)) by congruence
                   | rewrite (decide_False (P := P))
                       by first [congruence | intros Hn; apply Hn; reflexivity] ]
         end.

Ltac status_cases w probes :=
  destruct (applies w oauth) eqn:A1; [destruct (probe_ok (probes oauth)) eqn:P1|];
  (destruct (applies w keypair) eqn:A2; [destruct (probe_ok (probes keypair)) eqn:P2|]);
  (destruct (applies w pat) eqn:A3; [destruct (probe_ok (probes pat)) eqn:P3|]);
  (destruct (applies w password) eqn:A4; [destruct (probe_ok (probes password)) eqn:P4|]).

(** X21. When [runTests] returns, the method the script detected is the
    one the session manager detects, and it is the method of the first
    result that is not skipped (browser when all are).  The summary reports
    that nothing is configured exactly when that method is browser.  The
    method the summary recommends is the first one that went through, which
    is the detected one exactly when the connection of the detected method
    went through. *)
Theorem runTests_verdict (w : World) (probes : AuthMethod -> TestAuth.Probe)
    (results : list TestAuth.TestResult) (evs : list TestAuth.ScriptEvent) :
  TestAuth.runTests w probes = (inr results, evs) ->
  TestAuth.detectAuthMethod w = inr (detectAuthMethod w)
  /\ detectAuthMethod w
     = default browser
         (TestAuth.tr_method
            <$> head (filter (fun r => TestAuth.tr_status r <> TestAuth.skipped) results))
  /\ (TestAuth.verdict results = TestAuth.NoneConfigured <-> detectAuthMethod w = browser)
  /\ (forall m, TestAuth.verdict results = TestAuth.Recommended m ->
        m <> browser /\ applies w m = true /\ probe_ok (probes m) = true
        /\ (m = detectAuthMethod w <-> probe_ok (probes (detectAuthMethod w)) = true)).
Proof.
  intros H. destruct (runTests_statuses _ _ _ _ H) as (Hm & Hs).
  destruct (runTests_inr _ _ _ _ H) as (key & tested & Hk & _ & _).
  split; [eapply script_detect_total, Hk|].
  destruct (five_results _ _ Hm Hs)
    as (r1 & r2 & r3 & r4 & r5 & -> & M1 & M2 & M3 & M4 & M5 & S1 & S2 & S3 & S4 & S5).
  clear H Hm Hs Hk.
  unfold TestAuth.verdict. rewrite detect_by_applies, !filter_cons, !filter_nil.
  rewrite S1, S2, S3, S4, S5. unfold expected_status.
  status_cases w probes; settle_decide; cbn; rewrite ?M1, ?M2, ?M3, ?M4, ?M5;
    (split; [reflexivity|]);
    (split; [split; intros; congruence|]);
    intros m Hrec; try discriminate Hrec; injection Hrec as <-;
    (split; [discriminate|]); (split; [assumption|]); (split; [assumption|]);
    split; intros; congruence.
Qed.

Lemma runTests_verdict_witness :
  exists results evs,
    TestAuth.runTests world_key_and_pat key_rejected = (inr results, evs)
    /\ TestAuth.verdict results = TestAuth.Recommended pat
    /\ detectAuthMethod world_key_and_pat = keypair.
Proof.
  eexists _, _. split; [reflexivity|]. split; [reflexivity|].
  destruct (runTests_verdict world_key_and_pat key_rejected _ _ eq_refl) as (_ & -> & _).
  reflexivity.
Defined.

Lemma In_tests w key c :
  In c (TestAuth.tests w key) ->
  getPrivateKey w = key ->
  In (TestAuth.tc_method c) testable
  /\ TestAuth.tc_configured c = applies w (TestAuth.tc_method c).
Proof.
  intros Hin <-. cbn in Hin.
  destruct Hin as [<-|[<-|[<-|[<-|[]]]]]; cbn; auto 6.
Qed.

Lemma In_testable_tests w key m :
  In m testable ->
  getPrivateKey w = key ->
  exists c, In c (TestAuth.tests w key) /\ TestAuth.tc_method c = m
            /\ TestAuth.tc_configured c = applies w m.
Proof.
  intros Hin <-. cbn in Hin.
  destruct Hin as [<-|[<-|[<-|[<-|[]]]]]; eexists.
  - split; [left; reflexivity|split; reflexivity].
  - split; [right; left; reflexivity|split; reflexivity].
  - split; [right; right; left; reflexivity|split; reflexivity].
  - split; [right; right; right; left; reflexivity|split; reflexivity].
Qed.

(** X22. The script exits with code 0 exactly when the key could be read
    (no key, or an inline key, or a key file that is absent or readable),
    [createConnection] threw for none of the configured methods, and the
    connection of at least one configured method went through.  One
    configured method whose options the driver refuses makes the script
    exit with 1 even when another method connects. *)
Theorem exitCode_zero (w : World) (probes : AuthMethod -> TestAuth.Probe) :
  TestAuth.exitCode (TestAuth.runTests w probes).1 = 0
  <-> (exists key, TestAuth.getPrivateKey w = inr key)
      /\ (forall m, In m testable -> applies w m = true ->
            TestAuth.pr_create (probes m) = None)
      /\ (exists m, In m testable /\ applies w m = true /\ probe_ok (probes m) = true).
Proof.
  split.
  - destruct (TestAuth.runTests w probes) as [[e|results] evs] eqn:H; [discriminate|].
    cbn [fst TestAuth.exitCode].
    destruct (existsb _ results) eqn:Hex; [intros _|discriminate].
    destruct (runTests_statuses _ _ _ _ H) as (Hm & Hs).
    destruct (runTests_inr _ _ _ _ H) as (key & tested & Hk & Hr & _).
    pose proof (script_getPrivateKey_agrees _ _ Hk) as Hkey.
    destruct (runCases_ok _ _ _ _ Hr) as (_ & _ & Hcreate & _).
    split; [eauto|]. split.
    + intros m Hin Happ.
      destruct (In_testable_tests w key m Hin Hkey) as (c & Hc & <- & Hconf).
      rewrite Forall_forall in Hcreate. apply (Hcreate c).
      * apply list_elem_of_In, Hc.
      * rewrite Hconf. exact Happ.
    + destruct (five_results _ _ Hm Hs)
        as (r1 & r2 & r3 & r4 & r5 & -> & M1 & M2 & M3 & M4 & M5 & S1 & S2 & S3 & S4 & S5).
      cbn [existsb] in Hex. rewrite S1, S2, S3, S4, S5 in Hex. unfold expected_status in Hex.
      status_cases w probes; cbn in Hex; try discriminate Hex;
        first [ exists oauth; split; [cbn; auto|split; assumption]
              | exists keypair; split; [cbn; auto|split; assumption]
              | exists pat; split; [cbn; auto|split; assumption]
              | exists password; split; [cbn; auto 6|split; assumption] ].
  - intros ((key & Hk) & Hcreate & (m & Hin & Happ & Hok)).
    pose proof (script_getPrivateKey_agrees _ _ Hk) as Hkey.
    destruct (TestAuth.runTests w probes) as [[e|results] evs] eqn:H.
    + exfalso. revert H. unfold TestAuth.runTests.
      rewrite (script_detect_total _ _ Hk), Hk.
      destruct (TestAuth.runCases _ probes) as [[e'|tested] evs'] eqn:Hr; [|discriminate].
      intros _. destruct (runCases_rejects _ _ _ _ Hr) as (c & e'' & Hc & Hconf & Hcr & _).
      destruct (In_tests w key c Hc Hkey) as (Hcin & Heq).
      rewrite (Hcreate _ Hcin) in Hcr; [discriminate|]. rewrite <- Heq. exact Hconf.
    + cbn [fst TestAuth.exitCode].
      destruct (runTests_statuses _ _ _ _ H) as (Hm & Hs).
      destruct (five_results _ _ Hm Hs)
        as (r1 & r2 & r3 & r4 & r5 & -> & M1 & M2 & M3 & M4 & M5 & S1 & S2 & S3 & S4 & S5).
      cbn [existsb]. rewrite S1, S2, S3, S4, S5. unfold expected_status.
      cbn in Hin. destruct Hin as [<-|[<-|[<-|[<-|[]]]]]; rewrite Happ, Hok; cbn;
        rewrite ?orb_true_r; reflexivity.
Qed.

Lemma exitCode_zero_witness :
  TestAuth.exitCode (TestAuth.runTests world_key_and_pat key_rejected).1 = 0.
Proof.
  apply (proj2 (exitCode_zero world_key_and_pat key_rejected)).
  split; [eexists; reflexivity|]. split.
  - intros m _ _. destruct m; reflexivity.
  - exists pat. split; [cbn; auto|]. split; reflexivity.
Defined.

(** X23. A key file that is there and cannot be read stops the script
    before any connection is made, with exit code 1, whatever else is
    configured; the session manager in the same situation goes on without a
    key and selects among the other methods. *)
Theorem unreadable_key_aborts (w : World) (probes : AuthMethod -> TestAuth.Probe)
    (p : string) :
  truthy (env w !! "SNOWFLAKE_PRIVATE_KEY") = false ->
  env w !! "SNOWFLAKE_PRIVATE_KEY_PATH" = Some p -> p <> EmptyString ->
  files w !! p = Some Unreadable ->
  TestAuth.runTests w probes = (inl (TestAuth.ReadFailed p), [])
  /\ TestAuth.exitCode (TestAuth.runTests w probes).1 = 1
  /\ getPrivateKey w = None
  /\ detectAuthMethod w
     = (if truthy (getOAuthToken w) then oauth
        else if truthy (env w !! "SNOWFLAKE_PAT") then pat
        else if truthy (env w !! "SNOWFLAKE_PASSWORD") then password
        else browser).
Proof.
  intros Hc Hp Hne Hf.
  assert (TestAuth.getPrivateKey w = inl (TestAuth.ReadFailed p)) as Hk.
  { unfold TestAuth.getPrivateKey. rewrite Hc, Hp, Hf.
    destruct p; [congruence|reflexivity]. }
  assert (getPrivateKey w = None) as Hlib.
  { unfold getPrivateKey. rewrite Hc, Hp. cbn. unfold read_if_exists. rewrite Hf.
    destruct (str_truthy p); reflexivity. }
  assert (TestAuth.runTests w probes = (inl (TestAuth.ReadFailed p), [])) as Hrun.
  { unfold TestAuth.runTests, TestAuth.detectAuthMethod. rewrite Hk.
    destruct (truthy (getOAuthToken w)); reflexivity. }
  split; [exact Hrun|]. split; [rewrite Hrun; reflexivity|]. split; [exact Hlib|].
  unfold detectAuthMethod. rewrite Hlib. reflexivity.
Qed.

Lemma unreadable_key_aborts_witness :
  TestAuth.runTests world_unreadable_key (fun _ => good_probe)
  = (inl (TestAuth.ReadFailed "/keys/rsa.p8"), [])
  /\ detectAuthMethod world_unreadable_key = pat.
Proof.
  destruct (unreadable_key_aborts world_unreadable_key (fun _ => good_probe) "/keys/rsa.p8"
              eq_refl eq_refl ltac:(discriminate) eq_refl) as (H1 & _ & _ & H2).
  split; [exact H1|]. rewrite H2. reflexivity.
Defined.

Lemma runCases_head cases probes results evs :
  TestAuth.runCases cases probes = (inr results, evs) ->
  head evs
  = (fun c => TestAuth.ScConnect (TestAuth.tc_config c))
      <$> head (List.filter TestAuth.tc_configured cases).
Proof.
  revert results evs. induction cases as [|c cases IH]; intros results evs.
  - cbn. intros H. injection H as <- <-. reflexivity.
  - cbn [TestAuth.runCases List.filter]. destruct (TestAuth.tc_configured c) eqn:Hc.
    + destruct (testConnection_cases (TestAuth.tc_config c) (probes (TestAuth.tc_method c)))
        as [(e & _ & ->)|(Hcr & result & evs0 & -> & _ & _ & _ & _ & Hh)];
        [discriminate|].
      destruct (TestAuth.runCases cases probes) as [[e|results'] evs'] eqn:Hr; [discriminate|].
      intros H. injection H as <- <-.
      destruct evs0 as [|ev evs0]; [discriminate Hh|]. exact Hh.
    + destruct (TestAuth.runCases cases probes) as [[e|results'] evs'] eqn:Hr; [discriminate|].
      intros H. injection H as <- <-. apply (IH _ _ eq_refl).
Qed.

(** X24. When an account is configured, and a username too unless the
    method is oauth, the first connection the script opens is made with
    exactly the options the session manager would connect with.  Without an
    account they differ: the script connects with an empty account where
    the session manager uses your-account. *)
Theorem runTests_first_connection (w : World) (probes : AuthMethod -> TestAuth.Probe)
    (results : list TestAuth.TestResult) (evs : list TestAuth.ScriptEvent) :
  TestAuth.runTests w probes = (inr results, evs) ->
  detectAuthMethod w <> browser ->
  (truthy (env w !! "SNOWFLAKE_ACCOUNT") = true ->
   detectAuthMethod w = oauth \/ truthy (env w !! "SNOWFLAKE_USER") = true ->
   head evs = Some (TestAuth.ScConnect (getConfig w).1))
  /\ (truthy (env w !! "SNOWFLAKE_ACCOUNT") = false ->
      exists config, head evs = Some (TestAuth.ScConnect config)
                     /\ opt_account config = EmptyString
                     /\ opt_account (getConfig w).1 = "your-account").
Proof.
  intros H Hnb. destruct (runTests_inr _ _ _ _ H) as (key & tested & Hk & Hr & _).
  apply script_getPrivateKey_agrees in Hk. subst key.
  rewrite (runCases_head _ _ _ _ Hr). clear H Hr.
  revert Hnb. unfold getConfig. rewrite detect_by_applies.
  cbn [TestAuth.tests List.filter TestAuth.tc_configured].
  change (truthy (getOAuthToken w)) with (applies w oauth).
  change (truthy (getPrivateKey w) && truthy (env w !! "SNOWFLAKE_USER"))
    with (applies w keypair).
  change (truthy (env w !! "SNOWFLAKE_PAT")) with (applies w pat).
  change (truthy (env w !! "SNOWFLAKE_PASSWORD")) with (applies w password).
  assert (forall d, truthy (env w !! "SNOWFLAKE_ACCOUNT") = true ->
            or_default (env w !! "SNOWFLAKE_ACCOUNT") d
            = or_default (env w !! "SNOWFLAKE_ACCOUNT") EmptyString) as Hacc.
  { intros d. destruct (env w !! "SNOWFLAKE_ACCOUNT") as [[|c a]|]; cbn; congruence. }
  assert (forall d, truthy (env w !! "SNOWFLAKE_USER") = true ->
            or_default (env w !! "SNOWFLAKE_USER") d
            = or_default (env w !! "SNOWFLAKE_USER") EmptyString) as Husr.
  { intros d. destruct (env w !! "SNOWFLAKE_USER") as [[|c a]|]; cbn; congruence. }
  assert (truthy (env w !! "SNOWFLAKE_ACCOUNT") = false ->
          or_default (env w !! "SNOWFLAKE_ACCOUNT") EmptyString = EmptyString
          /\ or_default (env w !! "SNOWFLAKE_ACCOUNT") "your-account" = "your-account")
    as Hno.
  { destruct (env w !! "SNOWFLAKE_ACCOUNT") as [[|c a]|]; cbn; auto; congruence. }
  destruct (applies w oauth) eqn:A1; [|destruct (applies w keypair) eqn:A2;
    [|destruct (applies w pat) eqn:A3; [|destruct (applies w password) eqn:A4]]];
    intros Hnb; try congruence; cbn [head fmap option_fmap option_map fst].
  all: split;
    [ intros Ha Hu; f_equal; f_equal;
      unfold with_credentials, baseConfig, TestAuth.base; cbn;
      rewrite ?(Hacc "your-account" Ha);
      try (destruct Hu as [Hu|Hu]; [discriminate Hu|]; rewrite ?(Husr "your-username" Hu));
      reflexivity
    | intros Ha; destruct (Hno Ha) as [E1 E2]; eexists; split; [reflexivity|];
      cbn; auto ].
Qed.

Lemma runTests_first_connection_witness :
  exists results evs,
    TestAuth.runTests world_key_and_pat key_rejected = (inr results, evs)
    /\ head evs = Some (TestAuth.ScConnect (getConfig world_key_and_pat).1).
Proof.
  eexists _, _. split; [reflexivity|].
  apply (proj1 (runTests_first_connection world_key_and_pat key_rejected _ _ eq_refl
                  ltac:(discriminate)) eq_refl (or_intror eq_refl)).
Defined.

(** ** The [.env.local] loader *)

Lemma rev_onto_app s acc : DotEnv.rev_onto s acc = DotEnv.reverse s +:+ acc.
Proof.
  unfold DotEnv.reverse. revert acc. induction s as [|c s IH]; intros acc; [reflexivity|].
  cbn [DotEnv.rev_onto]. rewrite IH, (IH (String c EmptyString)), app_assoc_str. reflexivity.
Qed.

Lemma reverse_cons c s : DotEnv.reverse (String c s) = DotEnv.reverse s +:+ String c EmptyString.
Proof. unfold DotEnv.reverse at 1. cbn [DotEnv.rev_onto]. apply rev_onto_app. Qed.

Lemma reverse_app a b : DotEnv.reverse (a +:+ b) = DotEnv.reverse b +:+ DotEnv.reverse a.
Proof.
  induction a as [|c a IH]; [rewrite app_empty_l, app_empty_r; reflexivity|].
  rewrite app_cons, !reverse_cons, IH, app_assoc_str. reflexivity.
Qed.

Lemma reverse_involutive s : DotEnv.reverse (DotEnv.reverse s) = s.
Proof.
  induction s as [|c s IH]; [reflexivity|].
  rewrite reverse_cons, reverse_app, IH. reflexivity.
Qed.

Lemma graphic_not_ws c :
  graphic c = true ->
  DotEnv.ws1 c = false
  /\ (forall a, DotEnv.ws2 c a = false /\ DotEnv.ws2 a c = false)
  /\ (forall a b, DotEnv.ws3 c a b = false /\ DotEnv.ws3 b a c = false).
Proof.
  unfold graphic, DotEnv.ws1, DotEnv.ws2, DotEnv.ws3. intros H.
  apply andb_true_iff in H as [H1 H2]. apply N.leb_le in H1, H2.
  assert (forall n, (127 < n)%N \/ (n < 33)%N -> (N_of_ascii c =? n)%N = false) as Hne
    by (intros n Hn; apply N.eqb_neq; lia).
  assert ((N_of_ascii c <=? 13)%N = false) as H13 by (apply N.leb_gt; lia).
  assert ((128 <=? N_of_ascii c)%N = false) as H128 by (apply N.leb_gt; lia).
  split; [|split].
  - cbn zeta. rewrite H13, (Hne 32%N) by lia. rewrite andb_false_r. reflexivity.
  - intros a. rewrite (Hne 194%N), (Hne 160%N) by lia. rewrite andb_false_r. split; reflexivity.
  - intros a b. cbn zeta.
    rewrite (Hne 225%N), (Hne 226%N), (Hne 227%N), (Hne 239%N), (Hne 128%N), (Hne 168%N),
      (Hne 169%N), (Hne 175%N), (Hne 159%N), (Hne 191%N), H128 by lia.
    cbn [andb orb]. rewrite !andb_false_r. split; reflexivity.
Qed.

Lemma strip_front_graphic backwards c s :
  graphic c = true -> DotEnv.strip_front backwards (String c s) = String c s.
Proof.
  intros H. destruct (graphic_not_ws c H) as (H1 & H2 & H3).
  cbn [DotEnv.strip_front]. rewrite H1.
  destruct s as [|c2 s]; [reflexivity|].
  rewrite (proj1 (H2 c2)), (proj2 (H2 c2)). destruct backwards.
  - destruct s as [|c3 s]; [reflexivity|]. rewrite (proj2 (H3 c2 c3)). reflexivity.
  - destruct s as [|c3 s]; [reflexivity|]. rewrite (proj1 (H3 c2 c3)). reflexivity.
Qed.

Lemma strip_front_blank backwards b s :
  blank b = true ->
  DotEnv.strip_front backwards (b +:+ s) = DotEnv.strip_front backwards s.
Proof.
  induction b as [|c b IH]; intros H; [reflexivity|].
  cbn [blank] in H. apply andb_true_iff in H as [Hc Hb].
  rewrite app_cons. cbn [DotEnv.strip_front]. rewrite Hc. apply (IH Hb).
Qed.

Lemma blank_reverse b : blank b = true -> blank (DotEnv.reverse b) = true.
Proof.
  assert (forall x y, blank x = true -> blank y = true -> blank (x +:+ y) = true) as Happ.
  { induction x as [|c x IH]; intros y Hx Hy; [exact Hy|].
    cbn [blank] in Hx. apply andb_true_iff in Hx as [Hc Hx].
    rewrite app_cons. cbn [blank]. rewrite Hc. apply (IH _ Hx Hy). }
  induction b as [|c b IH]; intros H; [reflexivity|].
  cbn [blank] in H. apply andb_true_iff in H as [Hc Hb].
  rewrite reverse_cons. apply Happ; [apply (IH Hb)|]. cbn. rewrite Hc. reflexivity.
Qed.

(** Blanks around a text that starts and ends with a visible character
    are what [trim] removes, and nothing else. *)
Lemma trim_blanks pre s post :
  blank pre = true -> blank post = true -> graphic_ends s = true ->
  DotEnv.trim (pre +:+ s +:+ post) = s.
Proof.
  intros Hpre Hpost Hs. unfold graphic_ends in Hs. apply andb_true_iff in Hs as [Hh Hl].
  destruct s as [|c s]; [discriminate Hh|].
  unfold DotEnv.trim. rewrite (strip_front_blank false pre _ Hpre).
  rewrite app_cons, (strip_front_graphic false c _ Hh), <- app_cons.
  rewrite reverse_app, (strip_front_blank true _ _ (blank_reverse _ Hpost)).
  destruct (DotEnv.reverse (String c s)) as [|d r] eqn:Hr; [discriminate Hl|].
  rewrite (strip_front_graphic true d r Hl), <- Hr. apply reverse_involutive.
Qed.

Lemma trim_blanks_l pre s :
  blank pre = true -> graphic_ends s = true -> DotEnv.trim (pre +:+ s) = s.
Proof.
  intros Hpre Hs. rewrite <- (app_empty_r s) at 1. apply trim_blanks; auto.
Qed.

Lemma trim_graphic_ends s : graphic_ends s = true -> DotEnv.trim s = s.
Proof. intros Hs. exact (trim_blanks_l EmptyString s eq_refl Hs). Qed.

Lemma split_cons_not_nil sep s : DotEnv.split sep s <> [].
Proof.
  destruct s as [|c s]; [discriminate|]. cbn [DotEnv.split].
  destruct (decide (c = sep)); [discriminate|]. destruct (DotEnv.split sep s); discriminate.
Qed.

Lemma split_no_sep sep a b :
  includes (String sep EmptyString) a = false ->
  DotEnv.split sep (a +:+ String sep b) = a :: DotEnv.split sep b.
Proof.
  induction a as [|c a IH]; intros H.
  - rewrite app_empty_l. cbn [DotEnv.split]. rewrite decide_True by reflexivity. reflexivity.
  - apply includes_char_cons in H as [Hc H]. rewrite app_cons. cbn [DotEnv.split].
    rewrite decide_False by congruence. rewrite (IH H). reflexivity.
Qed.

Lemma split_whole sep a :
  includes (String sep EmptyString) a = false -> DotEnv.split sep a = [a].
Proof.
  induction a as [|c a IH]; intros H; [reflexivity|].
  apply includes_char_cons in H as [Hc H]. cbn [DotEnv.split].
  rewrite decide_False by congruence. rewrite (IH H). reflexivity.
Qed.

Lemma join_cons2 sep a x rest :
  join sep (a :: x :: rest) = a +:+ sep +:+ join sep (x :: rest).
Proof. reflexivity. Qed.

(** Joining what [split] gave with the separator gives the text back. *)
Lemma join_split sep s : join (String sep EmptyString) (DotEnv.split sep s) = s.
Proof.
  induction s as [|c s IH]; [reflexivity|]. cbn [DotEnv.split].
  pose proof (split_cons_not_nil sep s) as Hne.
  destruct (DotEnv.split sep s) as [|x rest] eqn:E; [congruence|].
  destruct (decide (c = sep)) as [->|Hc].
  - rewrite join_cons2, IH. reflexivity.
  - destruct rest as [|y rest].
    + cbn [join] in *. rewrite IH. reflexivity.
    + rewrite join_cons2 in *. rewrite app_cons, IH. reflexivity.
Qed.

Lemma env_truthy_plain e k :
  DotEnv.inherited k = false -> DotEnv.env_truthy e k = truthy (e !! k).
Proof. intros H. unfold DotEnv.env_truthy. destruct (e !! k); [reflexivity|exact H]. Qed.

Lemma env_truthy_set e k : truthy (e !! k) = true -> DotEnv.env_truthy e k = true.
Proof. unfold DotEnv.env_truthy. destruct (e !! k); [auto|discriminate]. Qed.

Lemma env_set_graphic e k v : k <> EmptyString -> DotEnv.env_set k v e = <[k := v]> e.
Proof. intros H. unfold DotEnv.env_set. apply decide_False, H. Qed.

Lemma eqb_empty k : String.eqb k EmptyString = false <-> k <> EmptyString.
Proof. destruct k; [split; [discriminate|congruence]|split; [discriminate|reflexivity]]. Qed.

Lemma loadLine_lookup e line k :
  DotEnv.loadLine e line !! k
  = match parseLine line with
    | Some (k', v) =>
        if decide (k' = k) then if assignable e k then offer (e !! k) v else e !! k
        else e !! k
    | None => e !! k
    end.
Proof.
  unfold DotEnv.loadLine, parseLine.
  destruct (DotEnv.split "=" line) as [|key valueParts]; [reflexivity|].
  destruct (str_truthy key && negb (starts_with "#" key)); [|reflexivity].
  cbn zeta. destruct (str_truthy (DotEnv.trim (join "=" valueParts))); [|reflexivity].
  cbn [andb]. generalize (DotEnv.stripQuotes (DotEnv.trim (join "=" valueParts))).
  generalize (DotEnv.trim key). intros t v.
  destruct (decide (t = k)) as [<-|Hk].
  - unfold assignable, DotEnv.env_set.
    destruct (decide (t = EmptyString)) as [->|Hne].
    + cbn [String.eqb negb andb]. destruct (negb _); reflexivity.
    + rewrite (proj2 (eqb_empty _) Hne). cbn [negb andb].
      unfold DotEnv.env_truthy, offer.
      destruct (e !! t) as [x|] eqn:Hx; cbn [truthy].
      * destruct (str_truthy x); cbn [negb]; [exact Hx|apply lookup_insert_eq].
      * destruct (DotEnv.inherited t); cbn [negb]; [exact Hx|apply lookup_insert_eq].
  - destruct (negb _); [|reflexivity]. unfold DotEnv.env_set.
    destruct (decide (t = EmptyString)); [reflexivity|]. apply lookup_insert_ne, Hk.
Qed.

Lemma loadLine_assignable e line k : assignable (DotEnv.loadLine e line) k = assignable e k.
Proof.
  pose proof (loadLine_lookup e line k) as H. unfold assignable in *.
  destruct (String.eqb k EmptyString); [reflexivity|]. cbn [negb andb] in *.
  rewrite H. destruct (parseLine line) as [[k' v]|]; [|reflexivity].
  destruct (decide (k' = k)); [|reflexivity].
  destruct (e !! k) as [x|]; [unfold offer; destruct (truthy _); reflexivity|].
  destruct (DotEnv.inherited k); reflexivity.
Qed.

Lemma foldl_loadLine_lookup lines e k :
  foldl DotEnv.loadLine e lines !! k
  = if assignable e k then foldl offer (e !! k) (offers k lines) else e !! k.
Proof.
  revert e. induction lines as [|line lines IH]; intros e.
  - cbn [foldl]. destruct (assignable e k); reflexivity.
  - cbn [foldl]. rewrite IH, loadLine_assignable, loadLine_lookup.
    unfold offers. cbn [omap list_omap].
    destruct (assignable e k); [|destruct (parseLine line) as [[k' v]|];
                                  [destruct (decide (k' = k))|]; reflexivity].
    destruct (parseLine line) as [[k' v]|]; [|reflexivity].
    destruct (decide (k' = k)); reflexivity.
Qed.

Lemma foldl_offer_truthy cur vs : truthy cur = true -> foldl offer cur vs = cur.
Proof.
  induction vs as [|v vs IH]; intros H; [reflexivity|].
  cbn [foldl]. unfold offer at 2. rewrite H. apply (IH H).
Qed.

Lemma foldl_offer_cases cur vs :
  foldl offer cur vs = cur
  \/ (truthy cur = false /\ exists v, v ∈ vs /\ foldl offer cur vs = Some v).
Proof.
  revert cur. induction vs as [|v vs IH]; intros cur; [left; reflexivity|].
  cbn [foldl]. unfold offer at 2 4. destruct (truthy cur) eqn:Hc.
  - destruct (IH cur) as [H|(Hf & _)]; [left; exact H|congruence].
  - right. split; [reflexivity|].
    destruct (IH (Some v)) as [H|(_ & v' & Hin & H)].
    + exists v. split; [left|exact H].
    + exists v'. split; [right; exact Hin|exact H].
Qed.

(** X25. The loader treats every name on its own.  A name it can set,
    which is any name but the empty one and the names found on
    [Object.prototype] while they are unset, has after the load the value
    obtained by offering it, in the order of the lines, the values the lines
    give for that name, each taken only while the name is unset or empty;
    every other name is left as it is.  So a name that is set and not empty
    is never overridden, a name no line gives is left as it is, a name such
    as [constructor] or [toString] that is unset stays unset, the empty name
    is never set, and a value that is new comes from a line of the file. *)
Theorem loadEnv_by_name (envContent : string) (e : gmap string string) (k : string) :
  DotEnv.loadEnv envContent e !! k
  = (if assignable e k
     then foldl offer (e !! k) (offers k (DotEnv.split chr_nl envContent))
     else e !! k)
  /\ (truthy (e !! k) = true -> DotEnv.loadEnv envContent e !! k = e !! k)
  /\ (offers k (DotEnv.split chr_nl envContent) = [] ->
      DotEnv.loadEnv envContent e !! k = e !! k)
  /\ (DotEnv.inherited k = true -> e !! k = None ->
      DotEnv.loadEnv envContent e !! k = None)
  /\ DotEnv.loadEnv envContent e !! EmptyString = e !! EmptyString
  /\ (DotEnv.loadEnv envContent e !! k <> e !! k ->
      truthy (e !! k) = false /\ assignable e k = true
      /\ exists line v,
           line ∈ DotEnv.split chr_nl envContent
           /\ parseLine line = Some (k, v)
           /\ DotEnv.loadEnv envContent e !! k = Some v).
Proof.
  unfold DotEnv.loadEnv. rewrite !foldl_loadLine_lookup.
  split; [reflexivity|]. split; [|split; [|split; [|split]]].
  - intros H. rewrite (foldl_offer_truthy _ _ H). destruct (assignable e k); reflexivity.
  - intros ->. destruct (assignable e k); reflexivity.
  - intros Hi Hk. unfold assignable. rewrite Hi, Hk, andb_false_r. reflexivity.
  - reflexivity.
  - intros Hne. destruct (assignable e k); [|congruence].
    destruct (foldl_offer_cases (e !! k) (offers k (DotEnv.split chr_nl envContent)))
      as [H|(Hf & v & Hin & H)]; [congruence|].
    split; [exact Hf|]. split; [reflexivity|].
    unfold offers in Hin. apply list_elem_of_omap in Hin as (line & Hline & Hv).
    exists line, v. split; [exact Hline|]. split; [|exact H].
    destruct (parseLine line) as [[k' v']|]; [|discriminate].
    destruct (decide (k' = k)) as [->|]; [|discriminate]. congruence.
Qed.

Lemma loadEnv_by_name_witness :
  DotEnv.loadEnv ("SNOWFLAKE_PAT=from-file" +:+ nl +:+ "SNOWFLAKE_USER=carol")
    (env_of [("SNOWFLAKE_PAT", "abc123")]) !! "SNOWFLAKE_PAT"
  = Some "abc123"
  /\ DotEnv.loadEnv ("toString=x" +:+ nl +:+ "SNOWFLAKE_USER=carol")
       (env_of [("SNOWFLAKE_PAT", "abc123")]) !! "toString"
     = None.
Proof.
  split.
  - rewrite (proj1 (proj2 (loadEnv_by_name _ (env_of [("SNOWFLAKE_PAT", "abc123")])
                             "SNOWFLAKE_PAT")) eq_refl).
    reflexivity.
  - apply (proj1 (proj2 (proj2 (proj2 (loadEnv_by_name _ _ "toString"))))); reflexivity.
Defined.

Lemma blank_no_char c b : DotEnv.ws1 c = false -> blank b = true ->
  includes (String c EmptyString) b = false.
Proof.
  intros Hc. induction b as [|d b IH]; intros H; [reflexivity|].
  cbn [blank] in H. apply andb_true_iff in H as [Hd Hb].
  cbn [includes starts_with]. rewrite decide_False by congruence. apply (IH Hb).
Qed.

Lemma stripQuotes_quoted q1 q2 body :
  DotEnv.is_quote q1 = true -> DotEnv.is_quote q2 = true ->
  DotEnv.stripQuotes (String q1 (body +:+ String q2 EmptyString)) = body.
Proof.
  intros H1 H2. unfold DotEnv.stripQuotes. rewrite H1.
  induction body as [|c body IH].
  - rewrite app_empty_l. cbn [DotEnv.drop_last_quote]. rewrite H2. reflexivity.
  - rewrite app_cons. cbn [DotEnv.drop_last_quote].
    destruct (body +:+ String q2 EmptyString) eqn:E; [destruct body; discriminate|].
    rewrite IH. reflexivity.
Qed.

(** X26. A line made of a name, an equals sign and a value, with ASCII
    blanks allowed around each (a carriage return at the end, say), sets the
    name to the value when [process.env] gives nothing true for the name,
    and changes nothing otherwise.  For a name that [Object.prototype] does
    not have this means: when the name is unset or empty; a name that
    [Object.prototype] has, such as [constructor], is set only when the
    variable exists and is empty.  The name runs to the first equals sign,
    the value is everything after it, further equals signs included; one
    quote of either kind is taken away at each end of the value, so a value
    between two quotes, even of different kinds, is set without them. *)
Theorem loadLine_assignment (e : gmap string string) (pre k mid1 mid2 v post : string) :
  blank pre = true -> blank mid1 = true -> blank mid2 = true -> blank post = true ->
  graphic_ends k = true -> graphic_ends v = true ->
  includes "=" k = false ->
  starts_with "#" (pre +:+ k) = false ->
  let line := pre +:+ k +:+ mid1 +:+ "=" +:+ mid2 +:+ v +:+ post in
  parseLine line = Some (k, DotEnv.stripQuotes v)
  /\ DotEnv.loadLine e line
     = (if DotEnv.env_truthy e k then e else <[k := DotEnv.stripQuotes v]> e)
  /\ (DotEnv.inherited k = false -> DotEnv.env_truthy e k = truthy (e !! k))
  /\ (DotEnv.inherited k = true ->
      DotEnv.env_truthy e k = negb (bool_decide (e !! k = Some EmptyString)))
  /\ (forall q1 q2 body,
        DotEnv.is_quote q1 = true -> DotEnv.is_quote q2 = true ->
        v = String q1 (body +:+ String q2 EmptyString) ->
        DotEnv.stripQuotes v = body).
Proof.
  intros Hpre Hmid1 Hmid2 Hpost Hk Hv Hnoeq Hhash line.
  assert (DotEnv.split "=" line
          = (pre +:+ k +:+ mid1) :: DotEnv.split "=" (mid2 +:+ v +:+ post)) as Hsplit.
  { unfold line.
    change ("=" +:+ mid2 +:+ v +:+ post) with (String "="%char (mid2 +:+ v +:+ post)).
    rewrite <- (split_no_sep "="%char (pre +:+ k +:+ mid1)).
    - rewrite !app_assoc_str. reflexivity.
    - apply includes_char_app; [apply blank_no_char; [reflexivity|exact Hpre]|].
      apply includes_char_app; [exact Hnoeq|].
      apply blank_no_char; [reflexivity|exact Hmid1]. }
  assert (str_truthy (pre +:+ k +:+ mid1) = true) as Hkey.
  { destruct k as [|c k]; [discriminate Hk|]. destruct pre; reflexivity. }
  assert (starts_with "#" (pre +:+ k +:+ mid1) = false) as Hhash'.
  { destruct k as [|c k]; [discriminate Hk|].
    destruct pre as [|p pre]; [exact Hhash|exact Hhash]. }
  assert (DotEnv.trim (pre +:+ k +:+ mid1) = k) as Htk
    by (apply trim_blanks; assumption).
  assert (DotEnv.trim (join "=" (DotEnv.split "=" (mid2 +:+ v +:+ post))) = v) as Htv.
  { rewrite (join_split "="%char). apply trim_blanks; assumption. }
  assert (str_truthy v = true) as Hvt by (destruct v; [discriminate Hv|reflexivity]).
  assert (k <> EmptyString) as Hkne by (intros ->; discriminate Hk).
  split; [|split; [|split; [|split]]].
  - unfold parseLine. rewrite Hsplit, Hkey, Hhash'. cbn [andb negb]. cbn zeta.
    rewrite Htv, Hvt, Htk. reflexivity.
  - unfold DotEnv.loadLine. rewrite Hsplit, Hkey, Hhash'. cbn [andb negb]. cbn zeta.
    rewrite Htv, Hvt, Htk. cbn [andb].
    destruct (DotEnv.env_truthy e k); cbn [negb]; [reflexivity|].
    apply env_set_graphic, Hkne.
  - apply env_truthy_plain.
  - intros Hi. unfold DotEnv.env_truthy. destruct (e !! k) as [[|c x]|]; [reflexivity| |exact Hi].
    rewrite bool_decide_eq_false_2 by discriminate. reflexivity.
  - intros q1 q2 body H1 H2 ->. apply stripQuotes_quoted; assumption.
Qed.

Lemma loadLine_assignment_witness :
  DotEnv.loadLine ∅
    ("SNOWFLAKE_PRIVATE_KEY = " +:+ dq +:+ "MIIE==" +:+ "'" +:+ String "013" EmptyString)
  = {[ "SNOWFLAKE_PRIVATE_KEY" := "MIIE==" ]}.
Proof.
  destruct (loadLine_assignment ∅ EmptyString "SNOWFLAKE_PRIVATE_KEY" " " " "
              (dq +:+ "MIIE==" +:+ "'") (String "013" EmptyString)
              eq_refl eq_refl eq_refl eq_refl eq_refl eq_refl eq_refl eq_refl)
    as (_ & H & _ & _ & Hq).
  cbn zeta in H.
  rewrite (Hq chr_dq chr_sq "MIIE==" eq_refl eq_refl eq_refl) in H.
  exact H.
Defined.

(** X27. Lines that set nothing: an empty line, a line with no equals
    sign, a line whose value is empty or blank, a line with nothing before
    the equals sign, and a line that starts with a hash sign.  A hash sign
    after leading blanks does not make a comment: such a line sets the name
    that starts with the hash sign. *)
Theorem loadLine_ignored (e : gmap string string) (line : string) :
  (includes "=" line = false -> DotEnv.loadLine e line = e)
  /\ (starts_with "#" line = true -> DotEnv.loadLine e line = e)
  /\ (starts_with "=" line = true -> DotEnv.loadLine e line = e)
  /\ (forall k b, includes "=" k = false -> blank b = true ->
        DotEnv.loadLine e (k +:+ "=" +:+ b) = e)
  /\ (forall b k v,
        blank b = true -> b <> EmptyString ->
        graphic_ends k = true -> graphic_ends v = true -> includes "=" k = false ->
        DotEnv.loadLine e (b +:+ "#" +:+ k +:+ "=" +:+ v)
        = (if truthy (e !! ("#" +:+ k)) then e else <["#" +:+ k := DotEnv.stripQuotes v]> e)).
Proof.
  assert (forall b, blank b = true -> DotEnv.trim b = EmptyString) as Hblank.
  { intros b Hb. unfold DotEnv.trim.
    rewrite <- (app_empty_r b), (strip_front_blank false b _ Hb). reflexivity. }
  split; [|split; [|split; [|split]]].
  - intros H. unfold DotEnv.loadLine. rewrite (split_whole _ _ H).
    destruct (str_truthy line && _); [|reflexivity]. cbn [join]. reflexivity.
  - intros H. unfold DotEnv.loadLine.
    destruct (DotEnv.split "=" line) as [|key valueParts] eqn:E; [reflexivity|].
    assert (starts_with "#" key = true) as Hkey.
    { destruct line as [|c line]; [discriminate H|]. cbn [starts_with] in H.
      destruct (decide ("#"%char = c)) as [<-|]; [|discriminate H].
      cbn [DotEnv.split] in E. rewrite decide_False in E by discriminate.
      destruct (DotEnv.split "=" line); injection E as <- _; reflexivity. }
    rewrite Hkey, andb_false_r. reflexivity.
  - intros H. unfold DotEnv.loadLine.
    destruct line as [|c line]; [discriminate H|]. cbn [starts_with] in H.
    destruct (decide ("="%char = c)) as [<-|]; [|discriminate H].
    cbn [DotEnv.split]. rewrite decide_True by reflexivity. reflexivity.
  - intros k b Hk Hb. unfold DotEnv.loadLine.
    change ("=" +:+ b) with (String "="%char b).
    rewrite (split_no_sep _ _ _ Hk), (split_whole "="%char b)
      by (apply blank_no_char; [reflexivity|exact Hb]).
    destruct (str_truthy k && _); [|reflexivity]. cbn [join]. cbn zeta.
    rewrite (Hblank b Hb). reflexivity.
  - intros b k v Hb Hne Hk Hv Hnoeq.
    assert (graphic_ends ("#" +:+ k) = true) as Hk'.
    { unfold graphic_ends in *. apply andb_true_iff in Hk as [_ Hl].
      change ("#" +:+ k) with (String "#"%char k). rewrite reverse_cons.
      destruct (DotEnv.reverse k) as [|d r]; [discriminate Hl|]. exact Hl. }
    assert (DotEnv.split "=" (b +:+ "#" +:+ k +:+ "=" +:+ v)
            = (b +:+ "#" +:+ k) :: DotEnv.split "=" v) as Hsplit.
    { change ("=" +:+ v) with (String "="%char v).
      rewrite <- (split_no_sep "="%char (b +:+ "#" +:+ k)).
      - rewrite !app_assoc_str. reflexivity.
      - apply includes_char_app; [apply blank_no_char; [reflexivity|exact Hb]|].
        change ("#" +:+ k) with (String "#"%char k). cbn [includes starts_with].
        rewrite decide_False by discriminate. exact Hnoeq. }
    unfold DotEnv.loadLine. rewrite Hsplit.
    assert (str_truthy (b +:+ "#" +:+ k) = true) as Ht by (destruct b; [congruence|reflexivity]).
    assert (starts_with "#" (b +:+ "#" +:+ k) = false) as Hs.
    { destruct b as [|c b]; [congruence|]. cbn [blank] in Hb.
      apply andb_true_iff in Hb as [Hc _]. rewrite app_cons. cbn [starts_with].
      rewrite decide_False; [reflexivity|]. intros <-. discriminate Hc. }
    rewrite Ht, Hs. cbn [andb negb]. cbn zeta.
    rewrite (join_split "="%char), (trim_graphic_ends v Hv).
    rewrite !(trim_blanks_l b ("#" +:+ k) Hb Hk').
    assert (str_truthy v = true) as Hvt by (destruct v; [discriminate Hv|reflexivity]).
    rewrite Hvt. cbn [andb].
    rewrite (env_truthy_plain e ("#" +:+ k)) by reflexivity.
    destruct (truthy (e !! ("#" +:+ k))); cbn [negb]; [reflexivity|].
    apply env_set_graphic. discriminate.
Qed.

Lemma loadLine_ignored_witness :
  DotEnv.loadLine ∅ "# SNOWFLAKE_PAT=abc123" = ∅
  /\ DotEnv.loadLine ∅ "  #PAT=abc123" = {[ "#PAT" := "abc123" ]}.
Proof.
  split.
  - apply (proj1 (proj2 (loadLine_ignored ∅ "# SNOWFLAKE_PAT=abc123"))). reflexivity.
  - exact (proj2 (proj2 (proj2 (proj2 (loadLine_ignored ∅ EmptyString)))) "  " "PAT" "abc123"
             eq_refl ltac:(discriminate) eq_refl eq_refl eq_refl).
Defined.

(** ** Chat panel *)

Lemma errorResponse_message e :
  exists status error, errorResponse e = JsonError status error /\ str_truthy error = true.
Proof.
  unfold errorResponse. destruct (_ || _); eexists _, _; split; reflexivity.
Qed.

Lemma trim_blank b : blank b = true -> DotEnv.trim b = EmptyString.
Proof.
  intros Hb. unfold DotEnv.trim.
  rewrite <- (app_empty_r b), (strip_front_blank false b _ Hb). reflexivity.
Qed.

(** X28. Whatever the analyst route answers, the message the chat panel
    shows is never empty.  The panel attaches the query details exactly
    when the answer came from the agent; a fallback answer is shown as its
    bare text and an error response as its error text.  An agent answer
    that carries no text is shown as the text for a request that could not be
    processed, with its details attached all the same.  A question made of
    blanks only, or one submitted while another is pending, is not sent. *)
Theorem chat_reply_from_POST (lib : Crypto) (w : World) (rq : Request)
    (o : nat -> Attempt) (st : Process) :
  let data := (POST lib w rq o st).1.1 in
  let m := ChatPanel.assistantMessage data in
  (forall input isLoading fetch messages,
     blank input = true \/ isLoading = true ->
     ChatPanel.handleSubmit input isLoading fetch messages = messages)
  /\ str_truthy (ChatPanel.msg_content m) = true
  /\ (forall body, data = JsonAnswer body -> ab_usedAgent body = false ->
        ChatPanel.msg_queryResult m = None /\ ChatPanel.msg_content m = ab_answer body)
  /\ (forall body, data = JsonAnswer body -> ab_usedAgent body = true ->
        exists qr, ChatPanel.msg_queryResult m = Some qr
                   /\ ChatPanel.qr_agentName qr = Some "DEMO.DEMO.NYC_OPS_CENTER_AGENT"
                   /\ ChatPanel.qr_results qr = ab_results body
                   /\ ChatPanel.qr_rowCount qr
                      = from_option (fun r => Z.of_nat (length r)) 0 (ab_results body)
                   /\ (ab_answer body = EmptyString ->
                       ChatPanel.msg_content m = ChatPanel.unable))
  /\ (forall status error, data = JsonError status error ->
        ChatPanel.msg_queryResult m = None /\ ChatPanel.msg_content m = error).
Proof.
  cbn zeta. split.
  { intros input isLoading fetch messages [Hb| ->]; unfold ChatPanel.handleSubmit.
    - rewrite (trim_blank _ Hb). reflexivity.
    - rewrite orb_true_r. reflexivity. }
  unfold POST.
  assert (forall e : JsError,
            let m := ChatPanel.assistantMessage (errorResponse e) in
            str_truthy (ChatPanel.msg_content m) = true
            /\ (forall body, errorResponse e = JsonAnswer body -> False)
            /\ (forall status error, errorResponse e = JsonError status error ->
                  ChatPanel.msg_queryResult m = None /\ ChatPanel.msg_content m = error))
    as Herr.
  { intros e. destruct (errorResponse_message e) as (status & error & -> & Ht). cbn.
    rewrite Ht. split; [exact Ht|]. split; [discriminate|].
    intros s' e' H. injection H as <- <-. split; reflexivity. }
  assert (forall e : JsError,
            let data := errorResponse e in
            let m := ChatPanel.assistantMessage data in
            str_truthy (ChatPanel.msg_content m) = true
            /\ (forall body, data = JsonAnswer body -> ab_usedAgent body = false ->
                  ChatPanel.msg_queryResult m = None
                  /\ ChatPanel.msg_content m = ab_answer body)
            /\ (forall body, data = JsonAnswer body -> ab_usedAgent body = true ->
                  exists qr, ChatPanel.msg_queryResult m = Some qr
                    /\ ChatPanel.qr_agentName qr = Some "DEMO.DEMO.NYC_OPS_CENTER_AGENT"
                    /\ ChatPanel.qr_results qr = ab_results body
                    /\ ChatPanel.qr_rowCount qr
                       = from_option (fun r => Z.of_nat (length r)) 0 (ab_results body)
                    /\ (ab_answer body = EmptyString ->
                        ChatPanel.msg_content m = ChatPanel.unable))
            /\ (forall status error, data = JsonError status error ->
                  ChatPanel.msg_queryResult m = None /\ ChatPanel.msg_content m = error))
    as Herr'.
  { intros e. destruct (Herr e) as (H1 & H2 & H3). cbn zeta.
    split; [exact H1|]. split; [intros body Hb; destruct (H2 body Hb)|].
    split; [intros body Hb; destruct (H2 body Hb)|exact H3]. }
  destruct (rq_body rq) as [e|b]; [apply Herr'|].
  destruct (negb (truthy b)).
  { cbn. split; [reflexivity|]. split; [discriminate|]. split; [discriminate|].
    intros s' e' H. injection H as <- <-. split; reflexivity. }
  destruct (callCortexAgent _ _ _ _ _) as [e|a].
  - destruct (_ || _); [apply Herr'|].
    unfold fallbackToDirectQuery.
    destruct (query _ defaultRetries o st) as [[[e'|rows] st1] evs1]; [apply Herr'|].
    cbn [fst]. unfold answerBody, ChatPanel.assistantMessage.
    cbn [ab_usedAgent ab_answer ab_sql ab_results ab_rowCount ab_toolName ab_agentName
         ab_duration aa_answer aa_sql aa_results aa_toolName].
    pose proof (fallbackAnswer_truthy rows) as Ht.
    rewrite Ht. cbn [truthy orb bool_decide]. rewrite bool_decide_eq_false_2 by auto.
    cbn [ChatPanel.msg_content ChatPanel.msg_queryResult].
    split; [exact Ht|]. split.
    + intros body H _. injection H as <-. split; reflexivity.
    + split; [intros body H Hu; injection H as <-; discriminate Hu|discriminate].
  - cbn [fst]. unfold answerBody, ChatPanel.assistantMessage.
    cbn [ab_usedAgent ab_answer ab_sql ab_results ab_rowCount ab_toolName ab_agentName
         ab_duration].
    rewrite orb_true_r. cbn [ChatPanel.msg_content ChatPanel.msg_queryResult].
    split; [destruct (str_truthy (aa_answer a)) eqn:E; [exact E|reflexivity]|].
    split; [intros body H Hu; injection H as <-; discriminate Hu|].
    split; [|discriminate].
    intros body H _. injection H as <-. eexists. split; [reflexivity|].
    cbn. repeat split. intros ->. reflexivity.
Qed.

Lemma chat_reply_from_POST_witness :
  let m := ChatPanel.assistantMessage
             (POST sample_crypto (world_pat "abc123")
                (sample_request (FetchNotOk 503 "unavailable"))
                (always (ok_attempt (world_pat "abc123") [answer_row "Light traffic."]))
                initialProcess).1.1 in
  ChatPanel.msg_queryResult m = None /\ ChatPanel.msg_content m = "Light traffic.".
Proof.
  destruct (chat_reply_from_POST sample_crypto (world_pat "abc123")
              (sample_request (FetchNotOk 503 "unavailable"))
              (always (ok_attempt (world_pat "abc123") [answer_row "Light traffic."]))
              initialProcess) as (_ & _ & H & _).
  destruct (H _ eq_refl eq_refl) as [H1 H2]. split; [exact H1|exact H2].
Defined.

(** ** Gauge *)

Lemma gauge_fold_none value color ts :
  Forall (fun t => value < NeonGauge.th_value t) ts ->
  foldl (fun activeColor t => if bool_decide (NeonGauge.th_value t <= value)
                              then NeonGauge.th_color t else activeColor) color ts
  = color.
Proof.
  revert color. induction ts as [|t ts IH]; intros color H; [reflexivity|].
  apply Forall_cons in H as [Ht H]. cbn [foldl].
  rewrite bool_decide_eq_false_2 by lia. apply (IH _ H).
Qed.

(** X29. The colour of a gauge is the colour of the last threshold of the
    list that the value reaches, or else the colour given.  When the
    thresholds are listed in increasing order, as the dashboard lists them,
    this is the colour of the highest threshold reached: the thresholds
    before it are not above it and those after it are above the value. *)
Theorem activeColor_last_reached (value : Z) (color : string)
    (ts : list NeonGauge.Threshold) :
  (Forall (fun t => value < NeonGauge.th_value t) ts ->
   NeonGauge.activeColor value color (Some ts) = color)
  /\ (forall before t after,
        ts = before ++ t :: after ->
        NeonGauge.th_value t <= value ->
        Forall (fun t' => value < NeonGauge.th_value t') after ->
        NeonGauge.activeColor value color (Some ts) = NeonGauge.th_color t)
  /\ (increasing ts ->
      NeonGauge.activeColor value color (Some ts) <> color ->
      exists before t after,
        ts = before ++ t :: after
        /\ NeonGauge.activeColor value color (Some ts) = NeonGauge.th_color t
        /\ NeonGauge.th_value t <= value
        /\ Forall (fun t' => NeonGauge.th_value t' <= NeonGauge.th_value t) before
        /\ Forall (fun t' => value < NeonGauge.th_value t') after).
Proof.
  unfold NeonGauge.activeColor.
  assert (forall before t after c,
            NeonGauge.th_value t <= value ->
            Forall (fun t' => value < NeonGauge.th_value t') after ->
            foldl (fun activeColor t => if bool_decide (NeonGauge.th_value t <= value)
                                        then NeonGauge.th_color t else activeColor) c
              (before ++ t :: after)
            = NeonGauge.th_color t) as Hlast.
  { intros before t after c Ht Hafter. rewrite foldl_app. cbn [foldl].
    rewrite bool_decide_eq_true_2 by exact Ht. apply gauge_fold_none, Hafter. }
  split; [apply gauge_fold_none|]. split.
  - intros before t after -> Ht Hafter. apply Hlast; assumption.
  - revert color. induction ts as [|t ts IH] using rev_ind; intros color Hinc Hne.
    + cbn in Hne. congruence.
    + assert (increasing ts
              /\ Forall (fun t' => NeonGauge.th_value t' <= NeonGauge.th_value t) ts)
        as [Hinc' Hle].
      { clear -Hinc. induction ts as [|a ts IH]; [split; [exact I|constructor]|].
        cbn in Hinc. destruct Hinc as [Ha Hinc]. apply Forall_app in Ha as [Ha Hat].
        destruct (IH Hinc) as [I1 I2]. split; [split; assumption|].
        constructor; [|exact I2]. apply Forall_cons in Hat as [Hat _]. exact Hat. }
      destruct (decide (NeonGauge.th_value t <= value)) as [Ht|Ht].
      * exists ts, t, []. split; [reflexivity|]. split; [|repeat split; auto].
        apply Hlast; [exact Ht|constructor].
      * rewrite foldl_app in Hne |- *. cbn [foldl] in Hne |- *.
        rewrite bool_decide_eq_false_2 in Hne |- * by exact Ht.
        destruct (IH color Hinc' Hne) as (before & t0 & after & -> & Hc & Ht0 & Hb & Ha).
        exists before, t0, (after ++ [t]). split; [rewrite <- app_assoc; reflexivity|].
        split; [exact Hc|]. split; [exact Ht0|]. split; [exact Hb|].
        apply Forall_app. split; [exact Ha|]. constructor; [lia|constructor].
Qed.

Lemma activeColor_last_reached_witness :
  NeonGauge.activeColor 72 "#00d4ff" (Some temperatureThresholds) = "#00ff88".
Proof.
  apply (proj1 (proj2 (activeColor_last_reached 72 "#00d4ff" temperatureThresholds))
           [ {| NeonGauge.th_value := 0; NeonGauge.th_color := "#00d4ff" |} ]
           {| NeonGauge.th_value := 60; NeonGauge.th_color := "#00ff88" |}
           [ {| NeonGauge.th_value := 85; NeonGauge.th_color := "#ffd000" |};
             {| NeonGauge.th_value := 95; NeonGauge.th_color := "#ff3333" |} ]).
  - reflexivity.
  - cbn. lia.
  - repeat constructor.
Defined.

(** ** Table sorting *)

(** X30. The comparison the table sorts with puts null and undefined
    cells after every value whichever the direction; on values it follows
    the order when ascending and its reverse when descending.  It is
    antisymmetric on every pair of cells except a null and an undefined
    one, each of which it puts after the other. *)
Theorem compare_nullish_last {V : Type} (eqb lt : V -> V -> bool)
    (sortDir : DataTable.SortDir) (x y : DataTable.Cell V) :
  total_order eqb lt ->
  (DataTable.nullish x = false -> DataTable.nullish y = true ->
   DataTable.compare eqb lt sortDir x y = -1
   /\ DataTable.compare eqb lt sortDir y x = 1)
  /\ (forall a b, x = DataTable.CValue a -> y = DataTable.CValue b ->
        (DataTable.compare eqb lt DataTable.asc x y < 0 <-> lt a b = true)
        /\ DataTable.compare eqb lt DataTable.desc x y
           = - DataTable.compare eqb lt DataTable.asc x y)
  /\ (DataTable.compare eqb lt sortDir x y = - DataTable.compare eqb lt sortDir y x
      <-> ~ (DataTable.nullish x = true /\ DataTable.nullish y = true /\ x <> y))
  /\ (DataTable.compare eqb lt sortDir x y = 0 <-> x = y).
Proof.
  intros (Heq & Hasym & Htot & Hirr).
  assert (forall a b, eqb a b = false <-> a <> b) as Hneq.
  { intros a b. rewrite <- (Heq a b). destruct (eqb a b); split; congruence. }
  split; [|split; [|split]].
  - intros Hx Hy. destruct x as [| |a]; try discriminate Hx.
    destruct y as [| |b]; try discriminate Hy; split; reflexivity.
  - intros a b -> ->. cbn [DataTable.compare].
    destruct (eqb a b) eqn:E.
    + apply Heq in E as ->. rewrite Hirr. split; [split; [lia|discriminate]|reflexivity].
    + destruct (lt a b); split; try reflexivity; split; (lia || congruence || discriminate).
  - destruct x as [| |a]; destruct y as [| |b]; cbn [DataTable.compare DataTable.nullish].
    + split; [intros _ (_ & _ & H); apply H; reflexivity|reflexivity].
    + split; [discriminate|intros H; exfalso; apply H; repeat split; discriminate].
    + split; [intros _ (_ & H & _); discriminate H|reflexivity].
    + split; [discriminate|intros H; exfalso; apply H; repeat split; discriminate].
    + split; [intros _ (_ & _ & H); apply H; reflexivity|reflexivity].
    + split; [intros _ (_ & H & _); discriminate H|reflexivity].
    + split; [intros _ (H & _); discriminate H|reflexivity].
    + split; [intros _ (H & _); discriminate H|reflexivity].
    + destruct (eqb a b) eqn:E.
      * apply Heq in E as ->. rewrite (proj2 (Heq b b) eq_refl).
        split; [intros _ (H & _); discriminate H|reflexivity].
      * assert (eqb b a = false) as E' by (apply Hneq; apply Hneq in E; congruence).
        rewrite E'. apply Hneq in E.
        split; [intros _ (H & _); discriminate H|intros _].
        destruct (lt a b) eqn:L.
        -- rewrite (Hasym _ _ L). destruct sortDir; reflexivity.
        -- rewrite (Htot _ _ E L). destruct sortDir; reflexivity.
  - destruct x as [| |a]; destruct y as [| |b]; cbn [DataTable.compare];
      try (split; reflexivity); try (split; discriminate).
    destruct (eqb a b) eqn:E.
    + apply Heq in E as ->. split; reflexivity.
    + apply Hneq in E. split; [|intros H; injection H as ->; congruence].
      destruct (lt a b), sortDir; intros H; discriminate H.
Qed.

Lemma Z_total_order : total_order Z.eqb Z.ltb.
Proof.
  repeat split.
  - apply Z.eqb_eq.
  - apply Z.eqb_eq.
  - intros a b H. apply Z.ltb_ge. apply Z.ltb_lt in H. lia.
  - intros a b Hne H. apply Z.ltb_lt. apply Z.ltb_ge in H. lia.
  - apply Z.ltb_irrefl.
Qed.

Lemma compare_nullish_last_witness :
  DataTable.compare Z.eqb Z.ltb DataTable.desc (DataTable.CValue 3) DataTable.CNull = -1
  /\ DataTable.compare Z.eqb Z.ltb DataTable.desc DataTable.CNull (DataTable.CValue 3) = 1.
Proof.
  apply (proj1 (compare_nullish_last Z.eqb Z.ltb DataTable.desc (DataTable.CValue 3)
                  DataTable.CNull Z_total_order) eq_refl eq_refl).
Defined.
